(** * CoverHero: the interactive cover-canvas scene

    A shallow embedding of [src/components/hero/CoverHero.tsx] (the
    current component: the one with [bgRef], [layoutRef], [applyPreset],
    [addImageToCanvas] and the theme-aware [exportPNG]).

    Modelling conventions.
    - A JavaScript number is a rational ([Q]); [Math.floor] is [Qfloor],
      [Math.min]/[Math.max] are [Qmin]/[Qmax] (or [Z.min]/[Z.max] once a
      value is known to be an integer).  Rounding of IEEE doubles, NaN and
      the infinities are outside the model.
    - Scene objects live in a store ([heap]) addressed by identity
      ([ObjId]); the canvas' [_objects] array and the React refs hold
      identities, so that [t.set(...)] through a ref and the object the
      canvas draws are the same object.
    - Every call the component makes on the canvas is appended to [calls],
      in program order.
    - fabric.js itself is not part of the repository.  Its operations are
      modelled after fabric 5 (the version family that exports the
      [fabric] namespace and ships [fabric/fabric-impl] typings); text
      measurement, which depends on fonts, is a parameter of the
      development.  The canvas is created with [renderOnAddRemove: true]:
      [add], [remove], [sendToBack] and [bringToFront] then schedule a
      repaint of their own, which belongs to the operation and is not
      logged as a call of the component.
    - fabric writes to the <canvas> element it is given: the constructor,
      [setWidth] and [setHeight] set its [width]/[height] attributes and
      its CSS size, and under retina scaling (a device pixel ratio above
      1 when the library was loaded) the attributes are multiplied by
      that ratio; [dispose] sets them back.  The ratio fabric loaded with
      is part of the scene ([fabric_devicePixelRatio]); the ratio a
      handler reads from the window is part of its environment. *)

From Stdlib Require Import QArith Qround Qminmax Qabs Lqa ZArith Lia List Ascii
  String.
From stdpp Require Import gmap list strings pretty.

Open Scope Q_scope.

(** ** JavaScript numbers *)

(** Truthiness of a number: [0] is falsy (and so is a missing value). *)
Definition truthy (x : Q) : bool := negb (Qeq_bool x 0).

(** [x || d] for a possibly missing number [x]. *)
Definition or_default (x : option Q) (d : Q) : Q :=
  match x with
  | Some v => if truthy v then v else d
  | None => d
  end.

(** [Math.floor], as an integer. *)
Definition Math_floor (x : Q) : Z := Qfloor x.

(** ** Presets *)

Inductive PresetKey := ux | performance | interaction.

Record PresetText := { title : string; subtitle : string }.

Definition PRESETS (k : PresetKey) : PresetText :=
  match k with
  | ux =>
      {| title := "구조로 설계하는 UI";
         subtitle := "요구사항을 정리해 확장 가능한 인터페이스로 구현합니다." |}
  | performance =>
      {| title := "운영 환경 최적화";
         subtitle := "리소스 통합과 구조 개선을 통해 비용과 성능을 개선합니다." |}
  | interaction =>
      {| title := "사용자 인터랙션 설계";
         subtitle := "Canvas 기반 UI와 복잡한 상호작용을 직접 구현합니다." |}
  end.

(** ** Scene objects *)

Inductive FontFamily := HERO_TITLE_FONT_FAMILY | HERO_BODY_FONT_FAMILY | NoFont.

Inductive ObjKind := Rect | Textbox | Image.

(** [originX]/[originY]: fabric's default is the left/top corner. *)
Inductive Origin := OriginCorner | OriginCenter.

Record TextStyle := {
  fontFamily : FontFamily;
  fontSize : Q;
  fontWeight : Z;
  charSpacing : Q;
  lineHeight : Q
}.

Record FabricObject := {
  obj_kind : ObjKind;
  obj_left : Q;
  obj_top : Q;
  obj_width : Q;
  obj_height : Q;
  obj_scaleX : Q;
  obj_scaleY : Q;
  obj_angle : Q;
  obj_originX : Origin;
  obj_originY : Origin;
  obj_fill : string;
  obj_text : string;
  obj_style : TextStyle;
  obj_selectable : bool;
  obj_evented : bool
}.

Definition noStyle : TextStyle :=
  {| fontFamily := NoFont; fontSize := 0; fontWeight := 0%Z;
     charSpacing := 0; lineHeight := 0 |}.

(** Property setters ([obj.set({...})] assigns the listed keys only). *)
Definition set_geometry (l t w : Q) (o : FabricObject) : FabricObject :=
  {| obj_kind := obj_kind o; obj_left := l; obj_top := t; obj_width := w;
     obj_height := obj_height o; obj_scaleX := obj_scaleX o;
     obj_scaleY := obj_scaleY o; obj_angle := obj_angle o;
     obj_originX := obj_originX o; obj_originY := obj_originY o;
     obj_fill := obj_fill o; obj_text := obj_text o; obj_style := obj_style o;
     obj_selectable := obj_selectable o; obj_evented := obj_evented o |}.

Definition set_box (l t w h : Q) (o : FabricObject) : FabricObject :=
  {| obj_kind := obj_kind o; obj_left := l; obj_top := t; obj_width := w;
     obj_height := h; obj_scaleX := obj_scaleX o;
     obj_scaleY := obj_scaleY o; obj_angle := obj_angle o;
     obj_originX := obj_originX o; obj_originY := obj_originY o;
     obj_fill := obj_fill o; obj_text := obj_text o; obj_style := obj_style o;
     obj_selectable := obj_selectable o; obj_evented := obj_evented o |}.

Definition set_dimensions (w h : Q) (o : FabricObject) : FabricObject :=
  set_box (obj_left o) (obj_top o) w h o.

Definition set_text (txt : string) (o : FabricObject) : FabricObject :=
  {| obj_kind := obj_kind o; obj_left := obj_left o; obj_top := obj_top o;
     obj_width := obj_width o; obj_height := obj_height o;
     obj_scaleX := obj_scaleX o; obj_scaleY := obj_scaleY o;
     obj_angle := obj_angle o;
     obj_originX := obj_originX o; obj_originY := obj_originY o;
     obj_fill := obj_fill o; obj_text := txt; obj_style := obj_style o;
     obj_selectable := obj_selectable o; obj_evented := obj_evented o |}.

Definition set_fill (c : string) (o : FabricObject) : FabricObject :=
  {| obj_kind := obj_kind o; obj_left := obj_left o; obj_top := obj_top o;
     obj_width := obj_width o; obj_height := obj_height o;
     obj_scaleX := obj_scaleX o; obj_scaleY := obj_scaleY o;
     obj_angle := obj_angle o;
     obj_originX := obj_originX o; obj_originY := obj_originY o;
     obj_fill := c; obj_text := obj_text o; obj_style := obj_style o;
     obj_selectable := obj_selectable o; obj_evented := obj_evented o |}.

(** [{ text, angle: 0, scaleX: 1, scaleY: 1, fill }], the keys [reset]
    assigns on each label. *)
Definition set_reset_props (txt c : string) (o : FabricObject) : FabricObject :=
  {| obj_kind := obj_kind o; obj_left := obj_left o; obj_top := obj_top o;
     obj_width := obj_width o; obj_height := obj_height o;
     obj_scaleX := 1; obj_scaleY := 1; obj_angle := 0;
     obj_originX := obj_originX o; obj_originY := obj_originY o;
     obj_fill := c; obj_text := txt; obj_style := obj_style o;
     obj_selectable := obj_selectable o; obj_evented := obj_evented o |}.

(** [{ left, top, originX: "center", originY: "center", scaleX, scaleY,
    cornerStyle, ... }], the keys [addImageToCanvas] assigns on the image
    (corner decoration is not modelled). *)
Definition set_placement (l t sc : Q) (o : FabricObject) : FabricObject :=
  {| obj_kind := obj_kind o; obj_left := l; obj_top := t;
     obj_width := obj_width o; obj_height := obj_height o;
     obj_scaleX := sc; obj_scaleY := sc; obj_angle := obj_angle o;
     obj_originX := OriginCenter; obj_originY := OriginCenter;
     obj_fill := obj_fill o; obj_text := obj_text o; obj_style := obj_style o;
     obj_selectable := obj_selectable o; obj_evented := obj_evented o |}.

(** Horizontal and vertical extent of an unrotated object, as fabric
    draws it: [width * scaleX] wide, anchored at [left] by its corner or
    by its centre. *)
Definition extent (origin : Origin) (pos size : Q) : Q * Q :=
  match origin with
  | OriginCorner => (pos, pos + size)
  | OriginCenter => (pos - size / 2, pos + size / 2)
  end.

Definition bounds_x (o : FabricObject) : Q * Q :=
  extent (obj_originX o) (obj_left o) (obj_width o * obj_scaleX o).

Definition bounds_y (o : FabricObject) : Q * Q :=
  extent (obj_originY o) (obj_top o) (obj_height o * obj_scaleY o).

(** The interval [lo, hi] lies inside [a, b]. *)
Definition within (i : Q * Q) (a b : Q) : Prop := a <= fst i /\ snd i <= b.

(** ** The scene *)

(** Object identities. *)
Abbreviation ObjId := nat (only parsing).

(** Calls made on the canvas and on the canvas element, in program
    order. *)
Inductive Call :=
| CAdd (o : ObjId)
| CSendToBack (o : ObjId)
| CBringToFront (o : ObjId)
| CRemove (o : ObjId)
| CDiscardActiveObject
| CSetActiveObject (o : ObjId)
| CRequestRenderAll
| CToDataURL (drawn : list ObjId) (multiplier : Z)
| CSetWidth (v : Z)
| CSetHeight (v : Z)
| CSetZoom (z : Q)
| ElSetWidth (v : Z)
| ElSetHeight (v : Z)
| Download (name : string).

(** The closure stored in [layoutRef]: [placeTextObjects] with the two
    labels it captured. *)
Record LayoutClosure := { cl_title : ObjId; cl_subtitle : ObjId }.

(** The <canvas> element: backing-store size (the [width]/[height]
    attributes) and CSS size ([style.width]/[style.height], in px). *)
Record Element := {
  el_width : Z;
  el_height : Z;
  style_width : Z;
  style_height : Z
}.

(** The fabric canvas: its dimensions, zoom, [_objects] array (bottom
    first) and active object. *)
Record Canvas := {
  c_width : Z;
  c_height : Z;
  c_zoom : Q;
  objects : list ObjId;
  activeObject : option ObjId
}.

Record Scene := {
  (* [fabric.devicePixelRatio]: the ratio the window reported when the
     library was loaded ([|| 1]); fabric never reads it again *)
  fabric_devicePixelRatio : Q;
  el : Element;
  canvas : Canvas;
  heap : gmap nat FabricObject;
  next_id : ObjId;
  (* React refs and state *)
  canvasRef : bool;   (* [canvasRef.current] is not null *)
  bgRef : option ObjId;
  titleRef : option ObjId;
  subtitleRef : option ObjId;
  layoutRef : option LayoutClosure;
  preset : PresetKey;
  ready : bool;
  calls : list Call
}.

Definition with_el (f : Element -> Element) (s : Scene) : Scene :=
  {| fabric_devicePixelRatio := fabric_devicePixelRatio s;
     el := f (el s); canvas := canvas s; heap := heap s; next_id := next_id s;
     canvasRef := canvasRef s; bgRef := bgRef s; titleRef := titleRef s;
     subtitleRef := subtitleRef s; layoutRef := layoutRef s;
     preset := preset s; ready := ready s; calls := calls s |}.

Definition with_canvas (f : Canvas -> Canvas) (s : Scene) : Scene :=
  {| fabric_devicePixelRatio := fabric_devicePixelRatio s;
     el := el s; canvas := f (canvas s); heap := heap s; next_id := next_id s;
     canvasRef := canvasRef s; bgRef := bgRef s; titleRef := titleRef s;
     subtitleRef := subtitleRef s; layoutRef := layoutRef s;
     preset := preset s; ready := ready s; calls := calls s |}.

Definition with_heap (f : gmap nat FabricObject -> gmap nat FabricObject)
    (s : Scene) : Scene :=
  {| fabric_devicePixelRatio := fabric_devicePixelRatio s;
     el := el s; canvas := canvas s; heap := f (heap s); next_id := next_id s;
     canvasRef := canvasRef s; bgRef := bgRef s; titleRef := titleRef s;
     subtitleRef := subtitleRef s; layoutRef := layoutRef s;
     preset := preset s; ready := ready s; calls := calls s |}.

Definition setPreset (p : PresetKey) (s : Scene) : Scene :=
  {| fabric_devicePixelRatio := fabric_devicePixelRatio s;
     el := el s; canvas := canvas s; heap := heap s; next_id := next_id s;
     canvasRef := canvasRef s; bgRef := bgRef s; titleRef := titleRef s;
     subtitleRef := subtitleRef s; layoutRef := layoutRef s;
     preset := p; ready := ready s; calls := calls s |}.

Definition log (c : Call) (s : Scene) : Scene :=
  {| fabric_devicePixelRatio := fabric_devicePixelRatio s;
     el := el s; canvas := canvas s; heap := heap s; next_id := next_id s;
     canvasRef := canvasRef s; bgRef := bgRef s; titleRef := titleRef s;
     subtitleRef := subtitleRef s; layoutRef := layoutRef s;
     preset := preset s; ready := ready s; calls := calls s ++ [c] |}.

(** [new fabric.X(...)]: a fresh identity for a new object. *)
Definition alloc (o : FabricObject) (s : Scene) : ObjId * Scene :=
  (next_id s,
   {| fabric_devicePixelRatio := fabric_devicePixelRatio s;
     el := el s; canvas := canvas s; heap := <[next_id s := o]> (heap s);
      next_id := S (next_id s);
      canvasRef := canvasRef s; bgRef := bgRef s; titleRef := titleRef s;
      subtitleRef := subtitleRef s; layoutRef := layoutRef s;
      preset := preset s; ready := ready s; calls := calls s |}).

Definition set_objects (l : list ObjId) (c : Canvas) : Canvas :=
  {| c_width := c_width c; c_height := c_height c; c_zoom := c_zoom c;
     objects := l; activeObject := activeObject c |}.

Definition set_active (a : option ObjId) (c : Canvas) : Canvas :=
  {| c_width := c_width c; c_height := c_height c; c_zoom := c_zoom c;
     objects := objects c; activeObject := a |}.

(** Program order: [s |> f |> g] runs [f], then [g]. *)
Notation "s |> f" := (f s) (at level 45, left associativity, only parsing).

(** ** fabric operations (after fabric 5) *)

(** [fabric.util.removeFromArray]: drops the first occurrence, if any. *)
Fixpoint removeFromArray (o : ObjId) (l : list ObjId) : list ObjId :=
  match l with
  | [] => []
  | x :: r => if Nat.eqb x o then r else x :: removeFromArray o r
  end.

(** [obj.set(...)] and friends: update the object in the store. *)
Definition obj_update (o : ObjId) (f : FabricObject -> FabricObject)
    (s : Scene) : Scene :=
  with_heap (alter f o) s.

(** [c.add(o)]: pushes on top. *)
Definition c_add (o : ObjId) (s : Scene) : Scene :=
  log (CAdd o) (with_canvas (fun c => set_objects (objects c ++ [o]) c) s).

(** [c.sendToBack(o)]: takes [o] out and unshifts it. *)
Definition c_sendToBack (o : ObjId) (s : Scene) : Scene :=
  log (CSendToBack o)
    (with_canvas (fun c => set_objects (o :: removeFromArray o (objects c)) c) s).

(** [c.bringToFront(o)]: takes [o] out and pushes it. *)
Definition c_bringToFront (o : ObjId) (s : Scene) : Scene :=
  log (CBringToFront o)
    (with_canvas (fun c => set_objects (removeFromArray o (objects c) ++ [o]) c) s).

(** [c.remove(o)]: splices [o] out; a removed active object is
    deselected. *)
Definition c_remove (o : ObjId) (s : Scene) : Scene :=
  log (CRemove o)
    (with_canvas
       (fun c =>
          if existsb (Nat.eqb o) (objects c) then
            set_active
              (match activeObject c with
               | Some a => if Nat.eqb a o then None else Some a
               | None => None
               end)
              (set_objects (removeFromArray o (objects c)) c)
          else c) s).

Definition c_discardActiveObject (s : Scene) : Scene :=
  log CDiscardActiveObject (with_canvas (set_active None) s).

Definition c_setActiveObject (o : ObjId) (s : Scene) : Scene :=
  log (CSetActiveObject o) (with_canvas (set_active (Some o)) s).

(** [c.requestRenderAll()]: schedules a repaint for the next animation
    frame; the scene is not changed. *)
Definition c_requestRenderAll (s : Scene) : Scene := log CRequestRenderAll s.

(** [c.toDataURL({multiplier, ...})]: draws the current objects into an
    off-screen bitmap. *)
Definition c_toDataURL (multiplier : Z) (s : Scene) : Scene :=
  log (CToDataURL (objects (canvas s)) multiplier) s.

(** What [el.width] reads after [el.setAttribute("width", x)]: the
    attribute holds the number as a decimal string, and the property is
    what HTML's rules for parsing non-negative integers make of it -- the
    integer part of a number above [-1], the attribute's default ([300]
    for the width, [150] for the height) otherwise. *)
Definition reflectedSize (x : Q) (default : Z) : Z :=
  if Qle_bool x (-1) then default else Z.max 0 (Qfloor x).

(** [_isRetinaScaling()]: [fabric.devicePixelRatio > 1 &&
    this.enableRetinaScaling]; the component leaves
    [enableRetinaScaling] at its default, [true]. *)
Definition isRetinaScaling (s : Scene) : bool :=
  negb (Qle_bool (fabric_devicePixelRatio s) 1).

(** [_initRetinaScaling()]: under retina scaling the element's [width]
    and [height] attributes are set to the canvas' size times
    [fabric.devicePixelRatio]. *)
Definition initRetinaScaling (s : Scene) : Scene :=
  with_el (fun e =>
    if isRetinaScaling s then
      {| el_width :=
           reflectedSize
             (inject_Z (c_width (canvas s)) * fabric_devicePixelRatio s) 300;
         el_height :=
           reflectedSize
             (inject_Z (c_height (canvas s)) * fabric_devicePixelRatio s) 150;
         style_width := style_width e; style_height := style_height e |}
    else e) s.

(** [c.setWidth(v)], that is [setDimensions({width: v})]: the value is
    assigned to the element's [width] and to the canvas' own [width]
    ([_setBackstoreDimension]) and, in px, to the element's CSS width
    ([_setCssDimension]); then [_initRetinaScaling] runs.  (The repaint
    it requests belongs to the operation and is not logged.) *)
Definition c_setWidth (v : Z) (s : Scene) : Scene :=
  log (CSetWidth v) s
    |> with_el (fun e =>
         {| el_width := v; el_height := el_height e;
            style_width := v; style_height := style_height e |})
    |> with_canvas (fun c =>
         {| c_width := v; c_height := c_height c; c_zoom := c_zoom c;
            objects := objects c; activeObject := activeObject c |})
    |> initRetinaScaling.

(** [c.setHeight(v)], likewise. *)
Definition c_setHeight (v : Z) (s : Scene) : Scene :=
  log (CSetHeight v) s
    |> with_el (fun e =>
         {| el_width := el_width e; el_height := v;
            style_width := style_width e; style_height := v |})
    |> with_canvas (fun c =>
         {| c_width := c_width c; c_height := v; c_zoom := c_zoom c;
            objects := objects c; activeObject := activeObject c |})
    |> initRetinaScaling.

Definition c_setZoom (z : Q) (s : Scene) : Scene :=
  log (CSetZoom z)
    (with_canvas (fun c =>
       {| c_width := c_width c; c_height := c_height c; c_zoom := z;
          objects := objects c; activeObject := activeObject c |}) s).

(** Assignments to the element's [width]/[height] attributes. *)
Definition el_setWidth (v : Z) (s : Scene) : Scene :=
  log (ElSetWidth v)
    (with_el (fun e =>
       {| el_width := v; el_height := el_height e;
          style_width := style_width e; style_height := style_height e |}) s).

Definition el_setHeight (v : Z) (s : Scene) : Scene :=
  log (ElSetHeight v)
    (with_el (fun e =>
       {| el_width := el_width e; el_height := v;
          style_width := style_width e; style_height := style_height e |}) s).

Definition el_setStyle (w h : Z) (s : Scene) : Scene :=
  with_el (fun e =>
    {| el_width := el_width e; el_height := el_height e;
       style_width := w; style_height := h |}) s.

Definition set_refs (bg t st : option ObjId) (l : option LayoutClosure)
    (s : Scene) : Scene :=
  {| fabric_devicePixelRatio := fabric_devicePixelRatio s;
     el := el s; canvas := canvas s; heap := heap s; next_id := next_id s;
     canvasRef := canvasRef s; bgRef := bg; titleRef := t;
     subtitleRef := st; layoutRef := l;
     preset := preset s; ready := ready s; calls := calls s |}.

Definition setReady (b : bool) (s : Scene) : Scene :=
  {| fabric_devicePixelRatio := fabric_devicePixelRatio s;
     el := el s; canvas := canvas s; heap := heap s; next_id := next_id s;
     canvasRef := canvasRef s; bgRef := bgRef s; titleRef := titleRef s;
     subtitleRef := subtitleRef s; layoutRef := layoutRef s;
     preset := preset s; ready := b; calls := calls s |}.

(** [new fabric.Canvas(el, ...)]: a canvas of the element's size
    ([_initOptions], which also writes that size to the element's CSS
    size), zoom 1, no objects; [_initRetinaScaling] runs at the end of
    the constructor.  [canvasRef.current] is set to the canvas. *)
Definition newCanvas (s : Scene) : Scene :=
  {| fabric_devicePixelRatio := fabric_devicePixelRatio s;
     el := {| el_width := el_width (el s); el_height := el_height (el s);
              style_width := el_width (el s);
              style_height := el_height (el s) |};
     canvas := {| c_width := el_width (el s); c_height := el_height (el s);
                  c_zoom := 1; objects := []; activeObject := None |};
     heap := heap s; next_id := next_id s;
     canvasRef := true; bgRef := bgRef s; titleRef := titleRef s;
     subtitleRef := subtitleRef s; layoutRef := layoutRef s;
     preset := preset s; ready := ready s; calls := calls s |}
    |> initRetinaScaling.

(** ** The environment of a call *)

Record DOMRect := { rect_width : Q; rect_height : Q }.

Record Env := {
  devicePixelRatio : option Q;   (* [window.devicePixelRatio] *)
  wrap : option DOMRect;         (* [canvasWrapRef.current], measured *)
  isDark : bool                  (* the [isDark] prop *)
}.

(** What the [fabric.Image.fromURL] callback reads from the image it is
    handed: [img.width] and [img.height], possibly missing. *)
Record DecodedImage := { img_width : option Q; img_height : option Q }.

(** ** Theme colours *)

Definition titleFill (dark : bool) : string :=
  if dark then "rgba(255,255,255,0.96)" else "rgba(18,22,31,0.95)".

Definition subtitleFill (dark : bool) : string :=
  if dark then "rgba(255,255,255,0.8)" else "rgba(18,22,31,0.72)".

Definition exportFill (dark : bool) : string :=
  if dark then "#0B1020" else "#F4F7FB".

(** ** Object constructors *)

Definition newRect (l t w h : Q) (f : string) : FabricObject :=
  {| obj_kind := Rect; obj_left := l; obj_top := t; obj_width := w;
     obj_height := h; obj_scaleX := 1; obj_scaleY := 1; obj_angle := 0;
     obj_originX := OriginCorner; obj_originY := OriginCorner;
     obj_fill := f; obj_text := ""; obj_style := noStyle;
     obj_selectable := false; obj_evented := false |}.

Definition newImage (im : DecodedImage) : FabricObject :=
  {| obj_kind := Image; obj_left := 0; obj_top := 0;
     obj_width := default 0 (img_width im);
     obj_height := default 0 (img_height im);
     obj_scaleX := 1; obj_scaleY := 1; obj_angle := 0;
     obj_originX := OriginCorner; obj_originY := OriginCorner;
     obj_fill := ""; obj_text := ""; obj_style := noStyle;
     obj_selectable := true; obj_evented := true |}.

Definition titleStyle : TextStyle :=
  {| fontFamily := HERO_TITLE_FONT_FAMILY; fontSize := 42; fontWeight := 700;
     charSpacing := 0; lineHeight := 1.1 |}.

Definition subtitleStyle : TextStyle :=
  {| fontFamily := HERO_BODY_FONT_FAMILY; fontSize := 18; fontWeight := 400;
     charSpacing := 0; lineHeight := 1.45 |}.

(** ** Placement arithmetic of [addImageToCanvas] *)

(** [const randomInRange = (min, max) =>
      Math.random() * (Math.max(min, max) - min) + min], with the value of
    [Math.random()] made explicit. *)
Definition randomInRange (random : Q) (min max : Q) : Q :=
  random * (Qmax min max - min) + min.

Definition margin : Q := 24.

(** [Math.min(maxW / iw, maxH / ih, 1)]. *)
Definition imageScale (canvasWidth canvasHeight iw ih : Q) : Q :=
  let maxW := canvasWidth * 0.32 in
  let maxH := canvasHeight * 0.32 in
  Qmin (Qmin (maxW / iw) (maxH / ih)) 1.

(** The intermediate values of lines 682-695, named as in the source. *)
Definition iw (im : DecodedImage) : Q := or_default (img_width im) 1.
Definition ih (im : DecodedImage) : Q := or_default (img_height im) 1.

Definition scale (canvasWidth canvasHeight : Q) (im : DecodedImage) : Q :=
  imageScale canvasWidth canvasHeight (iw im) (ih im).

Definition renderedW (canvasWidth canvasHeight : Q) (im : DecodedImage) : Q :=
  iw im * scale canvasWidth canvasHeight im.

Definition renderedH (canvasWidth canvasHeight : Q) (im : DecodedImage) : Q :=
  ih im * scale canvasWidth canvasHeight im.

Definition minLeft (canvasWidth canvasHeight : Q) (im : DecodedImage) : Q :=
  renderedW canvasWidth canvasHeight im / 2 + margin.

Definition maxLeft (canvasWidth canvasHeight : Q) (im : DecodedImage) : Q :=
  canvasWidth - renderedW canvasWidth canvasHeight im / 2 - margin.

Definition minTop (canvasWidth canvasHeight : Q) (im : DecodedImage) : Q :=
  renderedH canvasWidth canvasHeight im / 2 + margin.

Definition maxTop (canvasWidth canvasHeight : Q) (im : DecodedImage) : Q :=
  canvasHeight - renderedH canvasWidth canvasHeight im / 2 - margin.

Record Placement := { p_left : Q; p_top : Q; p_scale : Q }.

(** Lines 682-705: from the visible size, the image and the two samples
    of [Math.random()] to the [left], [top] and uniform scale handed to
    [img.set]. *)
Definition placeImage (canvasWidth canvasHeight : Q) (im : DecodedImage)
    (random1 random2 : Q) : Placement :=
  {| p_left := randomInRange random1 (minLeft canvasWidth canvasHeight im)
                 (maxLeft canvasWidth canvasHeight im);
     p_top := randomInRange random2 (minTop canvasWidth canvasHeight im)
                (maxTop canvasWidth canvasHeight im);
     p_scale := scale canvasWidth canvasHeight im |}.

(** [getVisibleCanvasSize]: the canvas size in visible (CSS) units. *)
Definition getVisibleCanvasSize (c : Canvas) : Q * Q :=
  let zoom := or_default (Some (c_zoom c)) 1 in
  (inject_Z (c_width c) / zoom, inject_Z (c_height c) / zoom).

(** ** Viewport arithmetic of [fitCanvasToWrap] *)

(** [Math.min(window.devicePixelRatio || 1, 2)]. *)
Definition effectiveDpr (devicePixelRatio : option Q) : Q :=
  Qmin (or_default devicePixelRatio 1) 2.

Definition cssWidth (r : DOMRect) : Z := Z.max 320 (Math_floor (rect_width r)).
Definition cssHeight (r : DOMRect) : Z := Z.max 360 (Math_floor (rect_height r)).

Definition nextWidth (e : Env) (r : DOMRect) : Z :=
  Math_floor (inject_Z (cssWidth r) * effectiveDpr (devicePixelRatio e)).

Definition nextHeight (e : Env) (r : DOMRect) : Z :=
  Math_floor (inject_Z (cssHeight r) * effectiveDpr (devicePixelRatio e)).

(** ** Text layout arithmetic of [placeTextObjects] *)

Definition padX (cw : Q) : Z := Z.max 48 (Math_floor (cw * 0.08)).
Definition topY (ch : Q) : Z := Z.max 72 (Math_floor (ch * 0.18)).
Definition titleWidth (cw : Q) : Z :=
  Z.min 980 (Math_floor (cw - inject_Z (padX cw * 2))).
Definition subtitleWidth (cw : Q) : Z :=
  Z.min 900 (Math_floor (cw - inject_Z (padX cw * 2))).

(** The page before the component is mounted, with fabric loaded in a
    window that reported [devicePixelRatio]: a default 300x150 canvas
    element, no fabric canvas, empty refs. *)
Definition loadedAt (devicePixelRatio : option Q) : Scene :=
  {| fabric_devicePixelRatio := or_default devicePixelRatio 1;
     el := {| el_width := 300; el_height := 150;
              style_width := 300; style_height := 150 |};
     canvas := {| c_width := 0; c_height := 0; c_zoom := 1;
                  objects := []; activeObject := None |};
     heap := ∅; next_id := 0%nat;
     canvasRef := false; bgRef := None; titleRef := None;
     subtitleRef := None; layoutRef := None;
     preset := ux; ready := false; calls := [] |}.

(** The same on a plain display. *)
Definition unmounted : Scene := loadedAt (Some 1).

(** Text measurement of fabric's [Textbox], which depends on the fonts the
    browser has: the width of the longest unbreakable word of a text, and
    the height of the text wrapped at a given width. *)
Record TextMetrics := {
  dynamicMinWidth : TextStyle -> string -> Q;
  calcTextHeight : TextStyle -> string -> Q -> Q
}.

Section CoverHero.

(** The text measurement of the browser the component runs in. *)
Variable fonts : TextMetrics.

(** [textbox.initDimensions?.()]: re-wraps the text; a box narrower than
    its longest word is widened to it, and the height is recomputed.
    Objects other than text boxes have no such method.  ([set] on a
    dimension-affecting key of a text box runs the same computation
    before the explicit call, which changes nothing: see
    [initDimensions_idem].) *)
Definition initDimensions (o : FabricObject) : FabricObject :=
  match obj_kind o with
  | Textbox =>
      let dmw := dynamicMinWidth fonts (obj_style o) (obj_text o) in
      let w := if Qle_bool dmw (obj_width o) then obj_width o else dmw in
      set_dimensions w (calcTextHeight fonts (obj_style o) (obj_text o) w) o
  | _ => o
  end.

Definition newTextbox (txt : string) (l t w : Q) (st : TextStyle)
    (f : string) : FabricObject :=
  initDimensions
    {| obj_kind := Textbox; obj_left := l; obj_top := t; obj_width := w;
       obj_height := 0; obj_scaleX := 1; obj_scaleY := 1; obj_angle := 0;
       obj_originX := OriginCorner; obj_originY := OriginCorner;
       obj_fill := f; obj_text := txt; obj_style := st;
       obj_selectable := true; obj_evented := true |}.

(** ** The component *)

(** [placeTextObjects], with the labels its closure captured. *)
Definition placeTextObjects (cl : LayoutClosure) (s : Scene) : Scene :=
  let '(cw, ch) := getVisibleCanvasSize (canvas s) in
  if negb (truthy cw) || negb (truthy ch) then s
  else
    let padX := padX cw in
    let top := topY ch in
    s |> obj_update (cl_title cl)
           (set_geometry (inject_Z padX) (inject_Z top)
              (inject_Z (titleWidth cw)))
      |> obj_update (cl_subtitle cl)
           (set_geometry (inject_Z padX) (inject_Z (top + 70))
              (inject_Z (subtitleWidth cw)))
      |> obj_update (cl_title cl) initDimensions
      |> obj_update (cl_subtitle cl) initDimensions
      |> c_requestRenderAll.

(** [fitCanvasToWrap], with the background and the layout closure it
    captured. *)
Definition fitCanvasToWrap (e : Env) (bg : ObjId) (cl : LayoutClosure)
    (s : Scene) : Scene :=
  match wrap e with
  | None => s
  | Some rect =>
      let wCss := cssWidth rect in
      let hCss := cssHeight rect in
      let nextWidth := nextWidth e rect in
      let nextHeight := nextHeight e rect in
      let s := if Z.eqb (el_width (el s)) nextWidth then s
               else el_setWidth nextWidth s in
      let s := if Z.eqb (el_height (el s)) nextHeight then s
               else el_setHeight nextHeight s in
      s |> el_setStyle wCss hCss
        |> c_setWidth nextWidth
        |> c_setHeight nextHeight
        |> c_setZoom (effectiveDpr (devicePixelRatio e))
        |> obj_update bg
             (set_box 0 0 (inject_Z nextWidth) (inject_Z nextHeight))
        |> placeTextObjects cl
  end.

(** The body of [init] once the fonts have settled, for a mounted element
    and a component that was not disposed meanwhile. *)
Definition init (e : Env) (s : Scene) : Scene :=
  let s := newCanvas s in
  let '(bg, s) := alloc (newRect 0 0 2000 2000 "rgba(0,0,0,0)") s in
  let s := s |> c_add bg |> c_sendToBack bg in
  let '(t, s) :=
    alloc (newTextbox (title (PRESETS ux)) 80 120 900 titleStyle
             (titleFill (isDark e))) s in
  let '(st, s) :=
    alloc (newTextbox (subtitle (PRESETS ux)) 80 210 860 subtitleStyle
             (subtitleFill (isDark e))) s in
  let s := s |> c_add t |> c_add st in
  let cl := {| cl_title := t; cl_subtitle := st |} in
  s |> set_refs (Some bg) (Some t) (Some st) (Some cl)
    |> fitCanvasToWrap e bg cl
    |> setReady true.

(** A window [resize] event while mounted: the registered listener is
    [fitCanvasToWrap]. *)
Definition onResize (e : Env) (s : Scene) : Scene :=
  match bgRef s, layoutRef s with
  | Some bg, Some cl => fitCanvasToWrap e bg cl s
  | _, _ => s
  end.

Definition applyPreset (nextPreset : PresetKey) (s : Scene) : Scene :=
  let s := setPreset nextPreset s in
  match canvasRef s, titleRef s, subtitleRef s with
  | true, Some t, Some st =>
      s |> obj_update t (set_text (title (PRESETS nextPreset)))
        |> obj_update st (set_text (subtitle (PRESETS nextPreset)))
        |> obj_update t initDimensions
        |> obj_update st initDimensions
        |> c_requestRenderAll
  | _, _, _ => s
  end.

(** The effect that follows the [isDark] prop. *)
Definition applyTheme (e : Env) (s : Scene) : Scene :=
  match canvasRef s, titleRef s, subtitleRef s with
  | true, Some t, Some st =>
      s |> obj_update t (set_fill (titleFill (isDark e)))
        |> obj_update st (set_fill (subtitleFill (isDark e)))
        |> c_requestRenderAll
  | _, _, _ => s
  end.

(** The loop of [reset]: [c.getObjects()] is a copy of the array (fabric
    2.3.5 and later), and each entry that is none of the three protected
    objects is removed from the canvas. *)
Definition removeUnprotected (bg t st : ObjId) (s : Scene) : Scene :=
  fold_left
    (fun acc canvasObject =>
       if negb (Nat.eqb canvasObject bg) && negb (Nat.eqb canvasObject t)
          && negb (Nat.eqb canvasObject st)
       then c_remove canvasObject acc else acc)
    (objects (canvas s)) s.

Definition reset (e : Env) (s : Scene) : Scene :=
  match canvasRef s, bgRef s, titleRef s, subtitleRef s with
  | true, Some bg, Some t, Some st =>
      let s :=
        s |> removeUnprotected bg t st
          |> setPreset ux
          |> obj_update t
               (set_reset_props (title (PRESETS ux)) (titleFill (isDark e)))
          |> obj_update st
               (set_reset_props (subtitle (PRESETS ux))
                  (subtitleFill (isDark e)))
          |> obj_update t initDimensions
          |> obj_update st initDimensions
          |> c_discardActiveObject in
      match layoutRef s with
      | Some cl => placeTextObjects cl s
      | None => s
      end
  | _, _, _, _ => s
  end.

Definition exportPNG (e : Env) (s : Scene) : Scene :=
  if negb (canvasRef s) then s
  else
    let '(canvasWidth, canvasHeight) := getVisibleCanvasSize (canvas s) in
    let '(exportBg, s) :=
      alloc (newRect 0 0 canvasWidth canvasHeight (exportFill (isDark e))) s in
    s |> c_add exportBg
      |> c_sendToBack exportBg
      |> c_discardActiveObject
      |> c_requestRenderAll
      |> c_toDataURL 2
      |> c_remove exportBg
      |> c_requestRenderAll
      |> log (Download "cover-hero.png").

(** [addImageToCanvas] together with its [fromURL] callback: [img] is what
    the callback receives, [random1] and [random2] are the two values
    [Math.random()] returns. *)
Definition addImageToCanvas (img : option DecodedImage) (random1 random2 : Q)
    (s : Scene) : Scene :=
  if negb (canvasRef s) then s
  else
    match img with
    | None => s
    | Some im =>
        let '(i, s) := alloc (newImage im) s in
        let '(canvasWidth, canvasHeight) := getVisibleCanvasSize (canvas s) in
        let p := placeImage canvasWidth canvasHeight im random1 random2 in
        let s := s |> obj_update i (set_placement (p_left p) (p_top p) (p_scale p))
                   |> c_add i in
        let s := match titleRef s with
                 | Some t => c_bringToFront t s
                 | None => s
                 end in
        let s := match subtitleRef s with
                 | Some st => c_bringToFront st s
                 | None => s
                 end in
        s |> c_setActiveObject i |> c_requestRenderAll
    end.

End CoverHero.

(** ** Vocabulary of the properties *)

(** The calls a run added to the log. *)
Definition newCalls (s s' : Scene) : list Call :=
  drop (length (calls s)) (calls s').

(** The calls that follow the first one satisfying [p]. *)
Fixpoint callsAfter (p : Call -> bool) (l : list Call) : list Call :=
  match l with
  | [] => []
  | c :: r => if p c then r else callsAfter p r
  end.

(** The calls that precede the first one satisfying [p]. *)
Fixpoint callsBefore (p : Call -> bool) (l : list Call) : list Call :=
  match l with
  | [] => []
  | c :: r => if p c then [] else c :: callsBefore p r
  end.

(** The calls strictly between the first [p] call and the next [q] call. *)
Definition callsBetween (p q : Call -> bool) (l : list Call) : list Call :=
  callsBefore q (callsAfter p l).

(** No render is requested strictly between the first [p] call and the
    next [q] call of a run. *)
Definition noRenderBetween (p q : Call -> bool) (run : list Call) : Prop :=
  ~ In CRequestRenderAll (callsBetween p q run).

Definition isSendToBack (c : Call) : bool :=
  match c with CSendToBack _ => true | _ => false end.

Definition isToDataURL (c : Call) : bool :=
  match c with CToDataURL _ _ => true | _ => false end.

Definition isRemove (c : Call) : bool :=
  match c with CRemove _ => true | _ => false end.

(** The calls of one [exportPNG] run, in program order; [exportBg] is the
    identity of the temporary rectangle. *)
Definition exportCalls (s : Scene) : list Call :=
  let exportBg := next_id s in
  [CAdd exportBg; CSendToBack exportBg; CDiscardActiveObject;
   CRequestRenderAll;
   CToDataURL (exportBg :: removeFromArray exportBg
                             (objects (canvas s) ++ [exportBg])) 2;
   CRemove exportBg; CRequestRenderAll; Download "cover-hero.png"].

(** The assignments [fitCanvasToWrap] makes to the element's [width] and
    [height] attributes: one per dimension that differs. *)
Definition elAssignments (e : Element) (nextWidth nextHeight : Z) : list Call :=
  (if Z.eqb (el_width e) nextWidth then [] else [ElSetWidth nextWidth]) ++
  (if Z.eqb (el_height e) nextHeight then [] else [ElSetHeight nextHeight]).

(** The element a fit pass leaves behind: fabric's [setWidth] and
    [setHeight] set the CSS size to the physical size and, under retina
    scaling, multiply the attributes by [fabric.devicePixelRatio]. *)
Definition fittedElement (ratio : Q) (nextWidth nextHeight : Z) : Element :=
  if negb (Qle_bool ratio 1) then
    {| el_width := reflectedSize (inject_Z nextWidth * ratio) 300;
       el_height := reflectedSize (inject_Z nextHeight * ratio) 150;
       style_width := nextWidth; style_height := nextHeight |}
  else
    {| el_width := nextWidth; el_height := nextHeight;
       style_width := nextWidth; style_height := nextHeight |}.

(** The canvas calls of the text-layout step: one render request, unless
    the visible size is zero and the step returns at once. *)
Definition layoutCalls (c : Canvas) : list Call :=
  let '(cw, ch) := getVisibleCanvasSize c in
  if negb (truthy cw) || negb (truthy ch) then [] else [CRequestRenderAll].

(** The protected objects: the background and the two labels. *)
Definition protected (bg t st : ObjId) (o : ObjId) : bool :=
  Nat.eqb o bg || Nat.eqb o t || Nat.eqb o st.

(** What a preset or theme change must not touch on an object. *)
Record Pose := {
  pose_left : Q; pose_top : Q;
  pose_scaleX : Q; pose_scaleY : Q;
  pose_angle : Q; pose_fill : string
}.

Definition pose (o : FabricObject) : Pose :=
  {| pose_left := obj_left o; pose_top := obj_top o;
     pose_scaleX := obj_scaleX o; pose_scaleY := obj_scaleY o;
     pose_angle := obj_angle o; pose_fill := obj_fill o |}.

(** The geometry the text layout decides: [left], [top] and [width]. *)
Definition labelGeometry (o : FabricObject) : Q * Q * Q :=
  (obj_left o, obj_top o, obj_width o).

(** An image side as [img.width] reports it: missing or zero, and
    non-negative when present. *)
Definition missing_or_zero (x : option Q) : Prop :=
  match x with
  | None => True
  | Some v => v == 0
  end.

Definition non_negative (x : option Q) : Prop :=
  match x with
  | None => True
  | Some v => 0 <= v
  end.

(** The scene [reset] hands to the text layout. *)
Definition resetBeforeLayout (fonts : TextMetrics) (e : Env) (t st : ObjId) (s1 : Scene) : Scene :=
  s1 |> setPreset ux
     |> obj_update t
          (set_reset_props (title (PRESETS ux)) (titleFill (isDark e)))
     |> obj_update st
          (set_reset_props (subtitle (PRESETS ux)) (subtitleFill (isDark e)))
     |> obj_update t (initDimensions fonts)
     |> obj_update st (initDimensions fonts)
     |> c_discardActiveObject.

(** Two scenes that differ at most in the canvas' object list, its
    selection and the call log. *)
Record sameFrame (s s' : Scene) : Prop := {
  sf_heap : heap s' = heap s;
  sf_next_id : next_id s' = next_id s;
  sf_el : el s' = el s;
  sf_canvasRef : canvasRef s' = canvasRef s;
  sf_bgRef : bgRef s' = bgRef s;
  sf_titleRef : titleRef s' = titleRef s;
  sf_subtitleRef : subtitleRef s' = subtitleRef s;
  sf_layoutRef : layoutRef s' = layoutRef s;
  sf_width : c_width (canvas s') = c_width (canvas s);
  sf_height : c_height (canvas s') = c_height (canvas s);
  sf_zoom : c_zoom (canvas s') = c_zoom (canvas s)
}.

(** A live scene: the refs are populated with three distinct objects,
    each of which is on the canvas exactly once, the labels are in the
    store, and every object on the canvas was created before the next
    fresh identity. *)
Record live (s : Scene) (bg t st : ObjId) : Prop := {
  live_canvas : canvasRef s = true;
  live_bgRef : bgRef s = Some bg;
  live_titleRef : titleRef s = Some t;
  live_subtitleRef : subtitleRef s = Some st;
  live_layoutRef : layoutRef s = Some {| cl_title := t; cl_subtitle := st |};
  live_distinct : bg <> t /\ bg <> st /\ t <> st;
  live_once : count_occ Nat.eq_dec (objects (canvas s)) bg = 1%nat /\
              count_occ Nat.eq_dec (objects (canvas s)) t = 1%nat /\
              count_occ Nat.eq_dec (objects (canvas s)) st = 1%nat;
  live_labels : is_Some (heap s !! t) /\ is_Some (heap s !! st);
  live_fresh : Forall (fun o => (o < next_id s)%nat) (objects (canvas s))
}.

(** ** The rest of the component: unmounting, and the events of a session *)


(** What can happen to a mounted component.  Besides the handlers of the
    component, the user can act on the canvas through fabric's controls:
    drag, scale, rotate or edit an object that is selectable (the
    background is created with [selectable: false, evented: false]), and
    select or deselect; the canvas is created with
    [preserveObjectStacking: true], so that selecting does not reorder. *)
Inductive Action :=
| Resize (e : Env)
| ApplyPreset (p : PresetKey)
| ThemeChange (e : Env)
| Reset (e : Env)
| ExportPNG (e : Env)
| AddImage (img : option DecodedImage) (random1 random2 : Q)
| UserTransform (o : ObjId) (f : FabricObject -> FabricObject)
| UserSelect (o : option ObjId).

Definition userTransform (o : ObjId) (f : FabricObject -> FabricObject)
    (s : Scene) : Scene :=
  obj_update o (fun ob => if obj_selectable ob then f ob else ob) s.

Definition userSelect (o : option ObjId) (s : Scene) : Scene :=
  with_canvas (set_active o) s.

Definition step (fonts : TextMetrics) (a : Action) (s : Scene) : Scene :=
  match a with
  | Resize e => onResize fonts e s
  | ApplyPreset p => applyPreset fonts p s
  | ThemeChange e => applyTheme e s
  | Reset e => reset fonts e s
  | ExportPNG e => exportPNG e s
  | AddImage img random1 random2 => addImageToCanvas img random1 random2 s
  | UserTransform o f => userTransform o f s
  | UserSelect o => userSelect o s
  end.

Definition run (fonts : TextMetrics) (actions : list Action) (s : Scene)
    : Scene :=
  fold_left (fun acc a => step fonts a acc) actions s.

(** The stacking order: the background at the bottom, the sprites above
    it, the title and the subtitle on top. *)
Definition stacked (s : Scene) (bg t st : ObjId) (sprites : list ObjId)
    : Prop :=
  objects (canvas s) = bg :: sprites ++ [t; st].

(** The background as the component creates and keeps it: an unselectable
    transparent rectangle anchored at the origin, neither scaled nor
    rotated. *)
Definition isBackground (o : FabricObject) : Prop :=
  obj_kind o = Rect /\ obj_selectable o = false /\ obj_evented o = false /\
  obj_fill o = "rgba(0,0,0,0)" /\
  obj_left o = 0 /\ obj_top o = 0 /\
  obj_scaleX o = 1 /\ obj_scaleY o = 1 /\ obj_angle o = 0.

(** Everything of a scene but the log of calls. *)
Definition observable (s : Scene) :=
  (el s, canvas s, heap s, next_id s,
   (canvasRef s, bgRef s, titleRef s, subtitleRef s, layoutRef s),
   preset s, ready s).

(** What a theme change must not touch on an object: everything but the
    fill. *)
Definition withoutFill (o : FabricObject) : FabricObject := set_fill "" o.

(** What a preset change must not touch on an object: everything but the
    text and the dimensions of the text block. *)
Definition withoutText (o : FabricObject) : FabricObject :=
  set_text "" (set_dimensions 0 0 o).

(** ** The asset catalogue, [IMAGE_ASSETS] *)

Module Assets.

(** [s.split(sep)] for a one-character separator. *)
Fixpoint split (sep : ascii) (s : string) : list string :=
  match s with
  | EmptyString => [EmptyString]
  | String c r =>
      if Ascii.eqb c sep then EmptyString :: split sep r
      else match split sep r with
           | [] => [String c EmptyString]
           | x :: xs => String c x :: xs
           end
  end.

Record Asset := { src : string; label : string; fileName : string }.

(** [path.split("/").pop() ?? `image-${index + 1}`]. *)
Definition fileNameOf (path : string) (index : nat) : string :=
  match last (split "/" path) with
  | Some f => f
  | None => "image-" +:+ pretty (index + 1)%nat
  end.

(** The [.map] stage of [IMAGE_ASSETS], over the entries already sorted
    by path. *)
Definition mapEntries (entries : list (string * string)) : list Asset :=
  imap (fun index '(path, source) =>
          {| src := source;
             label := "Image " +:+ pretty (index + 1)%nat;
             fileName := fileNameOf path index |}) entries.

End Assets.

(** ** The page around the component, [HomePage] *)

Module HomePage.

Record Page := {
  showAbout : bool;
  isDark : bool;
  wheelLock : bool;                    (* [wheelLockRef.current] *)
  wheelAccum : Q;                      (* [wheelAccumRef.current] *)
  dataTheme : option string;           (* [data-theme] of the root *)
  localStorage : gmap string string
}.

(** [getInitialTheme]; [hasWindow] is [typeof window !== "undefined"]. *)
Definition getInitialTheme (hasWindow : bool)
    (storage : gmap string string) : bool :=
  if negb hasWindow then true
  else
    match storage !! "theme" with
    | Some saved =>
        if String.eqb saved "dark" then true
        else if String.eqb saved "light" then false
        else false
    | None => false
    end.

Definition themeName (dark : bool) : string :=
  if dark then "dark" else "light".

(** The effect on [isDark]: the theme goes to the document root and to
    [localStorage]. *)
Definition syncTheme (p : Page) : Page :=
  let nextTheme := themeName (isDark p) in
  {| showAbout := showAbout p; isDark := isDark p;
     wheelLock := wheelLock p; wheelAccum := wheelAccum p;
     dataTheme := Some nextTheme;
     localStorage := <["theme" := nextTheme]> (localStorage p) |}.

(** The first render in a browser with the given storage, and its
    effect. *)
Definition mount (storage : gmap string string) : Page :=
  syncTheme
    {| showAbout := false; isDark := getInitialTheme true storage;
       wheelLock := false; wheelAccum := 0;
       dataTheme := None; localStorage := storage |}.

Definition setShowAbout (b : bool) (p : Page) : Page :=
  {| showAbout := b; isDark := isDark p;
     wheelLock := wheelLock p; wheelAccum := wheelAccum p;
     dataTheme := dataTheme p; localStorage := localStorage p |}.

Definition setWheel (lock : bool) (accum : Q) (p : Page) : Page :=
  {| showAbout := showAbout p; isDark := isDark p;
     wheelLock := lock; wheelAccum := accum;
     dataTheme := dataTheme p; localStorage := localStorage p |}.

Definition moveToNext (p : Page) : Page :=
  if negb (showAbout p) then setShowAbout true p else p.

Definition moveToPrev (p : Page) : Page :=
  if showAbout p then setShowAbout false p else p.

(** [handleWheelCapture] for an event with the given [deltaY]. *)
Definition handleWheelCapture (deltaY : Q) (p : Page) : Page :=
  if wheelLock p then p
  else
    let accum := wheelAccum p + deltaY in
    if Qlt_le_dec (Qabs accum) 56 then setWheel false accum p
    else
      let p := if Qlt_le_dec 0 accum then moveToNext p else p in
      let p := if Qlt_le_dec accum 0 then moveToPrev p else p in
      setWheel true 0 p.

(** The 650 ms timer set by a gesture fires. *)
Definition wheelTimeout (p : Page) : Page :=
  setWheel false (wheelAccum p) p.

(** The header's theme button: [setIsDark((prev) => !prev)], followed by
    the effect. *)
Definition onToggleTheme (p : Page) : Page :=
  syncTheme
    {| showAbout := showAbout p; isDark := negb (isDark p);
       wheelLock := wheelLock p; wheelAccum := wheelAccum p;
       dataTheme := dataTheme p; localStorage := localStorage p |}.

Inductive Event :=
| Wheel (deltaY : Q)
| WheelTimeout
| ToggleTheme
| LogoClick
| ScrollDown.

Definition handle (ev : Event) (p : Page) : Page :=
  match ev with
  | Wheel deltaY => handleWheelCapture deltaY p
  | WheelTimeout => wheelTimeout p
  | ToggleTheme => onToggleTheme p
  | LogoClick => moveToPrev p
  | ScrollDown => moveToNext p
  end.

Definition session (events : list Event) (p : Page) : Page :=
  fold_left (fun acc ev => handle ev acc) events p.

End HomePage.

(** The store after [reset], by the visible size. *)
Definition resetStore (fonts : TextMetrics) (e : Env) (t st : ObjId) (vs : Q * Q)
    (h : gmap nat FabricObject) : gmap nat FabricObject :=
  let h1 :=
    alter (initDimensions fonts) st
      (alter (initDimensions fonts) t
         (alter (set_reset_props (subtitle (PRESETS ux))
                   (subtitleFill (isDark e))) st
            (alter (set_reset_props (title (PRESETS ux))
                      (titleFill (isDark e))) t h))) in
  if negb (truthy (fst vs)) || negb (truthy (snd vs)) then h1
  else
    alter (initDimensions fonts) st
      (alter (initDimensions fonts) t
         (alter (set_geometry (inject_Z (padX (fst vs)))
                   (inject_Z (topY (snd vs) + 70))
                   (inject_Z (subtitleWidth (fst vs)))) st
            (alter (set_geometry (inject_Z (padX (fst vs)))
                      (inject_Z (topY (snd vs)))
                      (inject_Z (titleWidth (fst vs)))) t h1))).


(** [segments.join("/")], to state what [split] returns. *)
Fixpoint joinSlash (segments : list string) : string :=
  match segments with
  | [] => ""
  | [f] => f
  | x :: r => x +:+ String "/" (joinSlash r)
  end.

(** The characters of a string. *)
Fixpoint chars (s : string) : list ascii :=
  match s with
  | EmptyString => []
  | String c r => c :: chars r
  end.

(** The store after one text-layout pass, by the visible size. *)
Definition layoutStore (fonts : TextMetrics) (cl : LayoutClosure)
    (vs : Q * Q) (h : gmap nat FabricObject) : gmap nat FabricObject :=
  if negb (truthy (fst vs)) || negb (truthy (snd vs)) then h
  else
    alter (initDimensions fonts) (cl_subtitle cl)
      (alter (initDimensions fonts) (cl_title cl)
         (alter (set_geometry (inject_Z (padX (fst vs)))
                   (inject_Z (topY (snd vs) + 70))
                   (inject_Z (subtitleWidth (fst vs)))) (cl_subtitle cl)
            (alter (set_geometry (inject_Z (padX (fst vs)))
                      (inject_Z (topY (snd vs)))
                      (inject_Z (titleWidth (fst vs)))) (cl_title cl) h))).

(** The visible size a fit pass establishes. *)
Definition fittedVisibleSize (e : Env) (r : DOMRect) : Q * Q :=
  let zoom := or_default (Some (effectiveDpr (devicePixelRatio e))) 1 in
  (inject_Z (nextWidth e r) / zoom, inject_Z (nextHeight e r) / zoom).

Definition isElementAssignment (c : Call) : bool :=
  match c with
  | ElSetWidth _ | ElSetHeight _ => true
  | _ => false
  end.


(** ** Sample data *)

(** A monospace-like metric: every word fits in 120 units and a text
    block is three lines of the style's font size high. *)
Definition sampleFonts : TextMetrics :=
  {| dynamicMinWidth := fun _ _ => 120;
     calcTextHeight := fun st _ _ => 3 * fontSize st |}.

Definition desktopEnv : Env :=
  {| devicePixelRatio := Some 2;
     wrap := Some {| rect_width := 800; rect_height := 600 |};
     isDark := true |}.

(** A browser zoomed out to 50% on a collapsed container. *)
Definition zoomedOutEnv : Env :=
  {| devicePixelRatio := Some 0.5;
     wrap := Some {| rect_width := 0; rect_height := 0 |};
     isDark := false |}.

(** The same physical size, 640x720, reached two ways: a large container
    on a plain display, and a container half as large on a HiDPI one. *)
Definition plainDisplayEnv : Env :=
  {| devicePixelRatio := Some 1;
     wrap := Some {| rect_width := 640; rect_height := 720 |};
     isDark := true |}.

Definition hiDpiEnv : Env :=
  {| devicePixelRatio := Some 2;
     wrap := Some {| rect_width := 320; rect_height := 360 |};
     isDark := true |}.

Definition photo : DecodedImage :=
  {| img_width := Some 4000; img_height := Some 3000 |}.

Definition brokenImage : DecodedImage :=
  {| img_width := Some 0; img_height := None |}.

(** The component mounted on a HiDPI display, where fabric was loaded. *)
Definition mountedScene : Scene :=
  init sampleFonts desktopEnv (loadedAt (devicePixelRatio desktopEnv)).

Definition sceneWithSprites : Scene :=
  mountedScene
    |> addImageToCanvas (Some photo) 0.5 0.25
    |> addImageToCanvas (Some brokenImage) 0 0.9
    |> addImageToCanvas (Some photo) 0.75 0.

(** A display with a fractional device pixel ratio over the smallest
    container: the backing store is 425x478 and the visible size falls
    just short of 320x360. *)
Definition fractionalEnv : Env :=
  {| devicePixelRatio := Some 1.33;
     wrap := Some {| rect_width := 320; rect_height := 360 |};
     isDark := false |}.

(** A page opened on an empty storage. *)
Definition firstVisit : HomePage.Page := HomePage.mount ∅.

(** * Properties *)

(** ** Arithmetic helpers *)

Lemma truthy_true (x : Q) : truthy x = true -> ~ x == 0.
Proof.
  unfold truthy. intros H E. apply Qeq_bool_iff in E. rewrite E in H. discriminate.
Qed.

Lemma truthy_false (x : Q) : truthy x = false -> x == 0.
Proof.
  unfold truthy. intros H. apply Qeq_bool_iff.
  destruct (Qeq_bool x 0); [reflexivity | discriminate].
Qed.

Lemma or_default_nonzero (x : option Q) : ~ or_default x 1 == 0.
Proof.
  destruct x as [v|]; simpl; [| lra].
  destruct (truthy v) eqn:E; [apply truthy_true, E | lra].
Qed.

Lemma or_default_pos (x : option Q) :
  (forall v, x = Some v -> 0 <= v) -> 0 < or_default x 1.
Proof.
  intros H. pose proof (or_default_nonzero x) as Hn.
  destruct x as [v|]; simpl in *; [| lra].
  specialize (H v eq_refl).
  destruct (truthy v); lra.
Qed.

(** The actual width of the image object never exceeds the divisor
    [img.width || 1] used for it. *)
Lemma default_le_or_default (x : option Q) :
  (forall v, x = Some v -> 0 <= v) ->
  0 <= default 0 x /\ default 0 x <= or_default x 1.
Proof.
  intros H. destruct x as [v|]; simpl; [| lra].
  specialize (H v eq_refl).
  destruct (truthy v) eqn:E; [lra |].
  apply truthy_false in E. lra.
Qed.

Lemma imageScale_le_1 (cw ch a b : Q) : imageScale cw ch a b <= 1.
Proof. unfold imageScale. apply Q.le_min_r. Qed.

Lemma imageScale_pos (cw ch a b : Q) :
  0 < cw -> 0 < ch -> 0 < a -> 0 < b -> 0 < imageScale cw ch a b.
Proof.
  intros Hw Hh Ha Hb. unfold imageScale.
  assert (0 < cw * 0.32 / a) by (apply Qlt_shift_div_l; lra).
  assert (0 < ch * 0.32 / b) by (apply Qlt_shift_div_l; lra).
  apply Q.min_glb_lt; [apply Q.min_glb_lt |]; lra.
Qed.

Lemma imageScale_width (cw ch a b : Q) :
  0 < a -> a * imageScale cw ch a b <= cw * 0.32.
Proof.
  intros Ha. unfold imageScale.
  assert (H : Qmin (Qmin (cw * 0.32 / a) (ch * 0.32 / b)) 1 <= cw * 0.32 / a).
  { eapply Qle_trans; [apply Q.le_min_l | apply Q.le_min_l]. }
  apply (Qmult_le_l _ _ a Ha) in H.
  assert (E : a * (cw * 0.32 / a) == cw * 0.32) by (field; lra).
  lra.
Qed.

Lemma imageScale_height (cw ch a b : Q) :
  0 < b -> b * imageScale cw ch a b <= ch * 0.32.
Proof.
  intros Hb. unfold imageScale.
  assert (H : Qmin (Qmin (cw * 0.32 / a) (ch * 0.32 / b)) 1 <= ch * 0.32 / b).
  { eapply Qle_trans; [apply Q.le_min_l | apply Q.le_min_r]. }
  apply (Qmult_le_l _ _ b Hb) in H.
  assert (E : b * (ch * 0.32 / b) == ch * 0.32) by (field; lra).
  lra.
Qed.

(** [randomInRange] stays between its lower bound and the larger of the
    two bounds. *)
Lemma randomInRange_bounds (random lo hi : Q) :
  0 <= random -> random < 1 ->
  lo <= randomInRange random lo hi /\ randomInRange random lo hi <= Qmax lo hi.
Proof.
  intros H0 H1. unfold randomInRange.
  pose proof (Q.le_max_l lo hi) as Hm.
  split; nra.
Qed.

Lemma randomInRange_collapse (random lo hi : Q) :
  hi < lo -> randomInRange random lo hi == lo.
Proof.
  intros H. unfold randomInRange.
  destruct (Q.max_spec lo hi) as [[Hlt _] | [_ E]]; [lra |].
  rewrite E. ring.
Qed.

(** ** Image placement: the sampled range (C9) and the scale (C10) *)

Lemma non_negative_spec (x : option Q) :
  non_negative x -> forall v, x = Some v -> 0 <= v.
Proof. intros H v ->. exact H. Qed.

Lemma or_default_missing (x : option Q) : missing_or_zero x -> or_default x 1 = 1.
Proof.
  destruct x as [v|]; simpl; [| reflexivity].
  intros E. unfold truthy.
  apply Qeq_bool_iff in E. rewrite E. reflexivity.
Qed.

(** C9. In the random placement of [addImageToCanvas], for every image and
    every visible size, each sampled coordinate lies between the lower
    bound and the larger of the two bounds (the range is never inverted),
    and on an axis whose lower bound [halfExtent + 24] exceeds the upper
    bound [visibleDimension - halfExtent - 24] the coordinate equals the
    larger of the two bounds exactly. *)
Theorem randomInRange_never_inverts
    (canvasWidth canvasHeight : Q) (im : DecodedImage) (random1 random2 : Q) :
  0 <= random1 < 1 -> 0 <= random2 < 1 ->
  let p := placeImage canvasWidth canvasHeight im random1 random2 in
  let loX := minLeft canvasWidth canvasHeight im in
  let hiX := maxLeft canvasWidth canvasHeight im in
  let loY := minTop canvasWidth canvasHeight im in
  let hiY := maxTop canvasWidth canvasHeight im in
  (loX <= p_left p <= Qmax loX hiX) /\
  (loY <= p_top p <= Qmax loY hiY) /\
  (hiX < loX -> p_left p == Qmax loX hiX) /\
  (hiY < loY -> p_top p == Qmax loY hiY).
Proof.
  intros [H1 H1'] [H2 H2'] p loX hiX loY hiY. subst p. simpl.
  repeat split.
  - apply randomInRange_bounds; assumption.
  - apply randomInRange_bounds; assumption.
  - apply randomInRange_bounds; assumption.
  - apply randomInRange_bounds; assumption.
  - intros H. rewrite randomInRange_collapse by exact H.
    destruct (Q.max_spec loX hiX) as [[Hlt _] | [_ E]]; [lra | symmetry; exact E].
  - intros H. rewrite randomInRange_collapse by exact H.
    destruct (Q.max_spec loY hiY) as [[Hlt _] | [_ E]]; [lra | symmetry; exact E].
Qed.

(** C10. When the decoded image reports a missing or zero width or
    height, [addImageToCanvas] uses 1 for that dimension; the two divisors
    of [Math.min(maxW / iw, maxH / ih, 1)] are therefore never zero, and
    on a canvas of positive visible size the scale is positive and at
    most 1. *)
Theorem scale_never_divides_by_zero
    (canvasWidth canvasHeight : Q) (im : DecodedImage) :
  0 < canvasWidth -> 0 < canvasHeight ->
  non_negative (img_width im) -> non_negative (img_height im) ->
  (missing_or_zero (img_width im) -> iw im = 1) /\
  (missing_or_zero (img_height im) -> ih im = 1) /\
  ~ iw im == 0 /\ ~ ih im == 0 /\
  0 < scale canvasWidth canvasHeight im <= 1.
Proof.
  intros Hw Hh Hiw Hih. unfold iw, ih, scale.
  split; [apply or_default_missing |].
  split; [apply or_default_missing |].
  split; [apply or_default_nonzero |].
  split; [apply or_default_nonzero |].
  split.
  - apply imageScale_pos; try assumption;
      apply or_default_pos, non_negative_spec; assumption.
  - apply imageScale_le_1.
Qed.

(** ** The viewport: backing-store size (C5) *)

Lemma cssWidth_min (r : DOMRect) : (320 <= cssWidth r)%Z.
Proof. unfold cssWidth. lia. Qed.

Lemma cssHeight_min (r : DOMRect) : (360 <= cssHeight r)%Z.
Proof. unfold cssHeight. lia. Qed.

Lemma floor_scaled_ge (n m : Z) (d : Q) :
  (0 <= n <= m)%Z -> 1 <= d -> (n <= Math_floor (inject_Z m * d))%Z.
Proof.
  intros Hnm Hd. unfold Math_floor.
  rewrite <- (Qfloor_Z n) at 1. apply Qfloor_resp_le.
  assert (inject_Z n <= inject_Z m) by (rewrite <- Zle_Qle; lia).
  assert (0 <= inject_Z n) by (change 0 with (inject_Z 0); rewrite <- Zle_Qle; lia).
  nra.
Qed.

Lemma effectiveDpr_ge_1 (x : option Q) :
  1 <= or_default x 1 -> 1 <= effectiveDpr x.
Proof. intros H. unfold effectiveDpr. apply Q.min_glb; lra. Qed.

(** ** Frame lemmas for the text layout *)

Section Layout.

Variable fonts : TextMetrics.

Lemma placeTextObjects_canvas (cl : LayoutClosure) (s : Scene) :
  canvas (placeTextObjects fonts cl s) = canvas s.
Proof.
  unfold placeTextObjects.
  destruct (getVisibleCanvasSize (canvas s)) as [cw ch].
  destruct (negb (truthy cw) || negb (truthy ch)); reflexivity.
Qed.

Lemma placeTextObjects_el (cl : LayoutClosure) (s : Scene) :
  el (placeTextObjects fonts cl s) = el s.
Proof.
  unfold placeTextObjects.
  destruct (getVisibleCanvasSize (canvas s)) as [cw ch].
  destruct (negb (truthy cw) || negb (truthy ch)); reflexivity.
Qed.

Lemma placeTextObjects_calls (cl : LayoutClosure) (s : Scene) :
  calls (placeTextObjects fonts cl s) = calls s ++ layoutCalls (canvas s).
Proof.
  unfold placeTextObjects, layoutCalls.
  destruct (getVisibleCanvasSize (canvas s)) as [cw ch].
  destruct (negb (truthy cw) || negb (truthy ch)); cbn.
  - symmetry. apply app_nil_r.
  - reflexivity.
Qed.

(** The scene just before [fitCanvasToWrap] hands over to the text
    layout. *)
Lemma fitCanvasToWrap_fields (e : Env) (bg : ObjId) (cl : LayoutClosure)
    (s : Scene) (r : DOMRect) :
  wrap e = Some r ->
  let s' := fitCanvasToWrap fonts e bg cl s in
  el s' = fittedElement (fabric_devicePixelRatio s)
            (nextWidth e r) (nextHeight e r) /\
  canvas s' = {| c_width := nextWidth e r; c_height := nextHeight e r;
                 c_zoom := effectiveDpr (devicePixelRatio e);
                 objects := objects (canvas s);
                 activeObject := activeObject (canvas s) |} /\
  calls s' = calls s ++ elAssignments (el s) (nextWidth e r) (nextHeight e r)
               ++ [CSetWidth (nextWidth e r); CSetHeight (nextHeight e r);
                   CSetZoom (effectiveDpr (devicePixelRatio e))]
               ++ layoutCalls (canvas s').
Proof.
  intros Hw s'. subst s'. unfold fitCanvasToWrap. rewrite Hw.
  rewrite placeTextObjects_el, placeTextObjects_canvas, placeTextObjects_calls.
  unfold elAssignments, fittedElement. cbv zeta.
  generalize (nextWidth e r) (nextHeight e r) (cssWidth r) (cssHeight r)
    (effectiveDpr (devicePixelRatio e)).
  intros nw nh wCss hCss dpr.
  unfold c_setWidth, c_setHeight, initRetinaScaling, isRetinaScaling.
  destruct s as [ratio [w0 h0 sw0 sh0] c h n cr b t st l p rd cs].
  cbn [el el_width el_height].
  destruct (Z.eqb w0 nw); cbn;
    destruct (Z.eqb h0 nh); cbn;
    destruct (Qle_bool ratio 1) eqn:E; cbn; rewrite ?E; cbn;
    rewrite <- ?app_assoc; auto.
Qed.

End Layout.

(** ** The fit pass (C4, C5) *)

(** What an element attribute reads after fabric's retina scaling wrote
    a multiple of a non-negative size into it. *)
Lemma reflectedSize_scaled_ge (n : Z) (ratio : Q) (default : Z) :
  (0 <= n)%Z -> 1 <= ratio ->
  (n <= reflectedSize (inject_Z n * ratio) default)%Z.
Proof.
  intros Hn Hr. unfold reflectedSize.
  assert (H0 : 0 <= inject_Z n)
    by (change 0 with (inject_Z 0); rewrite <- Zle_Qle; lia).
  assert (Hle : inject_Z n <= inject_Z n * ratio) by nra.
  destruct (Qle_bool (inject_Z n * ratio) (-1)) eqn:E.
  - apply Qle_bool_iff in E. lra.
  - apply Z.max_le_iff. right.
    rewrite <- (Qfloor_Z n) at 1. apply Qfloor_resp_le, Hle.
Qed.

Lemma fittedElement_ge (ratio : Q) (nw nh : Z) :
  (0 <= nw)%Z -> (0 <= nh)%Z ->
  (nw <= el_width (fittedElement ratio nw nh) /\
   nh <= el_height (fittedElement ratio nw nh))%Z.
Proof.
  intros Hw Hh. unfold fittedElement.
  destruct (Qle_bool ratio 1) eqn:E; cbn; [lia |].
  assert (1 <= ratio).
  { destruct (Qlt_le_dec 1 ratio) as [Hlt | Hle]; [lra |].
    apply Qle_bool_iff in Hle. congruence. }
  split; apply reflectedSize_scaled_ge; assumption.
Qed.

Lemma floor_scaled_pos (m : Z) (k d : Q) :
  0 < k -> k <= inject_Z m -> 1 / k <= d -> (0 < Math_floor (inject_Z m * d))%Z.
Proof.
  intros Hk Hm Hd. unfold Math_floor.
  assert (H1 : 1 <= inject_Z m * d).
  { assert (Hk1 : k * (1 / k) == 1) by (field; lra).
    assert (0 < 1 / k) by (apply Qlt_shift_div_l; lra).
    nra. }
  apply Qfloor_resp_le in H1. change (Qfloor 1) with 1%Z in H1. lia.
Qed.

Lemma reflectedSize_scaled_gt (n : Z) (ratio : Q) (default : Z) :
  (320 <= n)%Z -> 321 # 320 <= ratio ->
  (n < reflectedSize (inject_Z n * ratio) default)%Z.
Proof.
  intros Hn Hr. unfold reflectedSize.
  assert (H0 : 320 <= inject_Z n)
    by (change 320 with (inject_Z 320); rewrite <- Zle_Qle; lia).
  assert (Hle : inject_Z (n + 1) <= inject_Z n * ratio).
  { rewrite inject_Z_plus. change (inject_Z 1) with 1.
    assert (inject_Z n * (321 # 320) <= inject_Z n * ratio) by nra.
    lra. }
  destruct (Qle_bool (inject_Z n * ratio) (-1)) eqn:E.
  - apply Qle_bool_iff in E.
    assert (0 <= inject_Z (n + 1))
      by (change 0 with (inject_Z 0); rewrite <- Zle_Qle; lia).
    lra.
  - apply Qfloor_resp_le in Hle. rewrite Qfloor_Z in Hle. lia.
Qed.

(** The assignments a fit pass makes to the element itself are the
    guarded ones. *)
Lemma fitCanvasToWrap_assignments (fonts : TextMetrics) (e : Env) (bg : ObjId)
    (cl : LayoutClosure) (s : Scene) (r : DOMRect) :
  wrap e = Some r ->
  filter isElementAssignment
    (newCalls s (fitCanvasToWrap fonts e bg cl s))
  = elAssignments (el s) (nextWidth e r) (nextHeight e r).
Proof.
  intros Hw.
  destruct (fitCanvasToWrap_fields fonts e bg cl s r Hw) as (_ & _ & Hcalls).
  cbv zeta in Hcalls. unfold newCalls. rewrite Hcalls, drop_app_length.
  unfold elAssignments, layoutCalls.
  destruct (getVisibleCanvasSize _) as [cw ch].
  destruct (Z.eqb (el_width (el s)) _), (Z.eqb (el_height (el s)) _),
    (negb (truthy cw) || negb (truthy ch)); reflexivity.
Qed.

(** C5, as the code has it.  For every container rectangle, degenerate
    ones included, the size the pass scales is clamped to at least
    320x360 and the backing store is [floor(css * dpr)] with
    [dpr = min(devicePixelRatio || 1, 2)].  Whenever the reported device
    pixel ratio is missing, zero or at least 1, the backing store -- the
    canvas' own size and the element's [width] and [height] as fabric
    leaves them -- is at least 320x360; whenever it is missing, zero or at
    least 1/320 the backing store is neither zero nor negative. *)
Theorem fit_backing_store_min (fonts : TextMetrics) (e : Env) (bg : ObjId)
    (cl : LayoutClosure) (s : Scene) (r : DOMRect) :
  wrap e = Some r ->
  let s' := fitCanvasToWrap fonts e bg cl s in
  (320 <= cssWidth r /\ 360 <= cssHeight r)%Z /\
  (c_width (canvas s') = nextWidth e r /\
   c_height (canvas s') = nextHeight e r) /\
  (1 <= or_default (devicePixelRatio e) 1 ->
   (320 <= c_width (canvas s') /\ 360 <= c_height (canvas s'))%Z /\
   (320 <= el_width (el s') /\ 360 <= el_height (el s'))%Z) /\
  (1 / 320 <= or_default (devicePixelRatio e) 1 ->
   (0 < c_width (canvas s') /\ 0 < c_height (canvas s'))%Z /\
   (0 < el_width (el s') /\ 0 < el_height (el s'))%Z).
Proof.
  intros Hw s'.
  destruct (fitCanvasToWrap_fields fonts e bg cl s r Hw) as (Hel & Hc & _).
  fold s' in Hel, Hc. rewrite Hel, Hc. cbn [c_width c_height].
  pose proof (cssWidth_min r) as Hcw. pose proof (cssHeight_min r) as Hch.
  split; [split; assumption |]. split; [split; reflexivity |].
  split.
  - intros Hd.
    assert (Hnw : (320 <= nextWidth e r)%Z)
      by (apply floor_scaled_ge; [lia | apply effectiveDpr_ge_1, Hd]).
    assert (Hnh : (360 <= nextHeight e r)%Z)
      by (apply floor_scaled_ge; [lia | apply effectiveDpr_ge_1, Hd]).
    split; [split; assumption |].
    pose proof (fittedElement_ge (fabric_devicePixelRatio s)
                  (nextWidth e r) (nextHeight e r)). lia.
  - intros Hd.
    assert (Hdpr : 1 / 320 <= effectiveDpr (devicePixelRatio e)).
    { unfold effectiveDpr. apply Q.min_glb; [exact Hd | vm_compute; discriminate]. }
    assert (Hnw : (0 < nextWidth e r)%Z).
    { apply (floor_scaled_pos _ 320); [reflexivity | | exact Hdpr].
      change 320 with (inject_Z 320). rewrite <- Zle_Qle. exact Hcw. }
    assert (Hnh : (0 < nextHeight e r)%Z).
    { apply (floor_scaled_pos _ 320); [reflexivity | | exact Hdpr].
      change 320 with (inject_Z 320). rewrite <- Zle_Qle. lia. }
    split; [split; assumption |].
    pose proof (fittedElement_ge (fabric_devicePixelRatio s)
                  (nextWidth e r) (nextHeight e r)). lia.
Qed.

(** C4, as the code has it.  A pass that finds no container does
    nothing.  On every other pass the component assigns the element's
    [width] ([height]) attribute only when the newly computed physical
    width (height) differs from the one the element has; the zoom is set
    to the capped device pixel ratio on every pass, whether or not the
    physical size changed, and the text layout follows.  The canvas ends
    up with the newly computed size. *)
Theorem fit_reallocates_on_change_only (fonts : TextMetrics) (e : Env)
    (bg : ObjId) (cl : LayoutClosure) (s : Scene) :
  let s' := fitCanvasToWrap fonts e bg cl s in
  (wrap e = None -> s' = s) /\
  (forall r, wrap e = Some r ->
     let nw := nextWidth e r in
     let nh := nextHeight e r in
     let dpr := effectiveDpr (devicePixelRatio e) in
     newCalls s s' =
       elAssignments (el s) nw nh
         ++ [CSetWidth nw; CSetHeight nh; CSetZoom dpr]
         ++ layoutCalls (canvas s') /\
     filter isElementAssignment (newCalls s s') = elAssignments (el s) nw nh /\
     (el_width (el s) = nw -> el_height (el s) = nh ->
      elAssignments (el s) nw nh = []) /\
     (el_width (el s) <> nw ->
      In (ElSetWidth nw) (elAssignments (el s) nw nh)) /\
     (el_height (el s) <> nh ->
      In (ElSetHeight nh) (elAssignments (el s) nw nh)) /\
     c_width (canvas s') = nw /\ c_height (canvas s') = nh /\
     c_zoom (canvas s') = dpr).
Proof.
  intros s'. split.
  { intros Hw. subst s'. unfold fitCanvasToWrap. rewrite Hw. reflexivity. }
  intros r Hw nw nh dpr.
  destruct (fitCanvasToWrap_fields fonts e bg cl s r Hw) as (_ & Hc & Hcalls).
  fold s' nw nh dpr in Hc, Hcalls.
  assert (Hnew : newCalls s s' =
                 elAssignments (el s) nw nh
                   ++ [CSetWidth nw; CSetHeight nh; CSetZoom dpr]
                   ++ layoutCalls (canvas s')).
  { unfold newCalls. rewrite Hcalls. apply drop_app_length. }
  split; [exact Hnew |]. split.
  { apply fitCanvasToWrap_assignments, Hw. }
  rewrite Hc. cbn [c_width c_height c_zoom]. unfold elAssignments.
  split; [| split; [| split]].
  - intros -> ->. rewrite !Z.eqb_refl. reflexivity.
  - intros Hne. apply Z.eqb_neq in Hne. rewrite Hne. apply in_or_app.
    left. left. reflexivity.
  - intros Hne. apply Z.eqb_neq in Hne. rewrite Hne. apply in_or_app.
    right. left. reflexivity.
  - repeat split.
Qed.

(** ** Export (C3, C7) *)

Lemma removeFromArray_absent (x : ObjId) (l : list ObjId) :
  ~ In x l -> removeFromArray x l = l.
Proof.
  induction l as [| y l IH]; intros Hn; cbn; [reflexivity |].
  destruct (Nat.eqb_spec y x) as [-> | Hne].
  - exfalso. apply Hn. left. reflexivity.
  - f_equal. apply IH. intros Hin. apply Hn. right. exact Hin.
Qed.

Lemma removeFromArray_pushed (x : ObjId) (l : list ObjId) :
  ~ In x l -> removeFromArray x (l ++ [x]) = l.
Proof.
  induction l as [| y l IH]; intros Hn; cbn.
  - rewrite Nat.eqb_refl. reflexivity.
  - destruct (Nat.eqb_spec y x) as [-> | Hne].
    + exfalso. apply Hn. left. reflexivity.
    + f_equal. apply IH. intros Hin. apply Hn. right. exact Hin.
Qed.

Lemma fresh_not_on_canvas (s : Scene) :
  Forall (fun o => (o < next_id s)%nat) (objects (canvas s)) ->
  ~ In (next_id s) (objects (canvas s)).
Proof.
  intros Hf Hin. rewrite Forall_forall in Hf.
  specialize (Hf (next_id s)). rewrite <- list_elem_of_In in Hin.
  specialize (Hf Hin). lia.
Qed.

Lemma exportPNG_calls (e : Env) (s : Scene) :
  canvasRef s = true ->
  calls (exportPNG e s) = calls s ++ exportCalls s.
Proof.
  intros Hc. unfold exportPNG, exportCalls. rewrite Hc. cbn.
  destruct (getVisibleCanvasSize (canvas s)) as [cw ch]. cbn.
  repeat rewrite <- app_assoc. reflexivity.
Qed.

Lemma exportPNG_objects (e : Env) (s : Scene) :
  ~ In (next_id s) (objects (canvas s)) ->
  objects (canvas (exportPNG e s)) = objects (canvas s).
Proof.
  intros Hn. unfold exportPNG.
  destruct (canvasRef s); cbn; [| reflexivity].
  destruct (getVisibleCanvasSize (canvas s)) as [cw ch]. cbn.
  rewrite Nat.eqb_refl. cbn.
  destruct (activeObject (canvas s)); cbn;
    apply removeFromArray_pushed; exact Hn.
Qed.

Lemma exportPNG_heap (e : Env) (s : Scene) (o : ObjId) :
  o <> next_id s -> heap (exportPNG e s) !! o = heap s !! o.
Proof.
  intros Hne. unfold exportPNG.
  destruct (canvasRef s); cbn; [| reflexivity].
  destruct (getVisibleCanvasSize (canvas s)) as [cw ch]. cbn.
  apply lookup_insert_ne. congruence.
Qed.

(** C3, as the code has it.  During every [exportPNG] call exactly one
    render is requested between the insertion (add + send-to-back) of the
    temporary rectangle and the serialization of the canvas, namely the
    explicit [requestRenderAll] that follows [discardActiveObject]; no
    call at all is made between that capture and the removal of the
    temporary rectangle. *)
Theorem exportPNG_render_requests (e : Env) (s : Scene) :
  canvasRef s = true ->
  let run := newCalls s (exportPNG e s) in
  run = exportCalls s /\
  callsBetween isSendToBack isToDataURL run
    = [CDiscardActiveObject; CRequestRenderAll] /\
  callsBetween isToDataURL isRemove run = [].
Proof.
  intros Hc run. subst run. unfold newCalls.
  rewrite exportPNG_calls by exact Hc.
  rewrite drop_app_length.
  repeat split.
Qed.

(** C7.  After [exportPNG] returns the canvas holds the objects it held
    before, in the same order, and each of them is unchanged: the
    temporary rectangle, which has the theme's export colour and is drawn
    at the very back of the captured bitmap, has been removed again. *)
Theorem exportPNG_preserves_objects (e : Env) (s : Scene) :
  Forall (fun o => (o < next_id s)%nat) (objects (canvas s)) ->
  let s' := exportPNG e s in
  objects (canvas s') = objects (canvas s) /\
  (forall o, In o (objects (canvas s)) -> heap s' !! o = heap s !! o) /\
  (canvasRef s = true ->
   In (CToDataURL (next_id s :: objects (canvas s)) 2) (newCalls s s') /\
   obj_fill <$> heap s' !! next_id s = Some (exportFill (isDark e))).
Proof.
  intros Hf s'. subst s'.
  pose proof (fresh_not_on_canvas s Hf) as Hn.
  split; [apply exportPNG_objects, Hn |].
  split.
  - intros o Hin. apply exportPNG_heap. intros ->. exact (Hn Hin).
  - intros Hc. split.
    + unfold newCalls. rewrite exportPNG_calls by exact Hc.
      rewrite drop_app_length. unfold exportCalls.
      rewrite removeFromArray_pushed by exact Hn.
      cbn. tauto.
    + unfold exportPNG. rewrite Hc. cbn.
      destruct (getVisibleCanvasSize (canvas s)) as [cw ch]. cbn.
      rewrite lookup_insert_eq. reflexivity.
Qed.

(** ** Store updates *)

Lemma lookup_alter_preserves {A B : Type} (g : A -> B) (f : A -> A)
    (i j : nat) (m : gmap nat A) :
  (forall o, g (f o) = g o) ->
  g <$> (alter f i m !! j) = g <$> (m !! j).
Proof.
  intros Hg. rewrite lookup_alter.
  destruct (decide (i = j)) as [-> |]; [| reflexivity].
  destruct (m !! j); cbn; [f_equal; apply Hg | reflexivity].
Qed.

Section Labels.

Variable fonts : TextMetrics.

Lemma pose_initDimensions (o : FabricObject) :
  pose (initDimensions fonts o) = pose o.
Proof. unfold initDimensions. destruct (obj_kind o); reflexivity. Qed.

Lemma pose_set_text (txt : string) (o : FabricObject) :
  pose (set_text txt o) = pose o.
Proof. reflexivity. Qed.

Lemma initDimensions_idem (o : FabricObject) :
  initDimensions fonts (initDimensions fonts o) = initDimensions fonts o.
Proof.
  unfold initDimensions.
  destruct o as [k l t w h sx sy a ox oy f txt st sel ev]; cbn.
  destruct k; cbn; try reflexivity.
  destruct (Qle_bool (dynamicMinWidth fonts st txt) w) eqn:E; cbn.
  - rewrite E. reflexivity.
  - assert (E' : Qle_bool (dynamicMinWidth fonts st txt)
                   (dynamicMinWidth fonts st txt) = true)
      by (apply Qle_bool_iff, Qle_refl).
    rewrite E'. reflexivity.
Qed.

(** Laying a label out again discards what the previous layout left. *)
Lemma layout_absorbs (l t w l' t' w' : Q) (o : FabricObject) :
  initDimensions fonts
    (set_geometry l t w (initDimensions fonts (set_geometry l' t' w' o)))
  = initDimensions fonts (set_geometry l t w o).
Proof.
  unfold initDimensions.
  destruct o as [k l0 t0 w0 h sx sy a ox oy f txt st sel ev]; cbn.
  destruct k; reflexivity.
Qed.

Lemma set_geometry_overwrites (l t w l' t' w' : Q) (o : FabricObject) :
  set_geometry l t w (set_geometry l' t' w' o) = set_geometry l t w o.
Proof. reflexivity. Qed.

Lemma withoutText_initDimensions (o : FabricObject) :
  withoutText (initDimensions fonts o) = withoutText o.
Proof. unfold initDimensions. destruct (obj_kind o); reflexivity. Qed.

Lemma withoutText_set_text (txt : string) (o : FabricObject) :
  withoutText (set_text txt o) = withoutText o.
Proof. reflexivity. Qed.

(** C6.  For every preset and every scene, [applyPreset] changes nothing
    but the [text] of the two labels and the text-block dimensions
    ([width], [height]) that [initDimensions] recomputes: the position
    ([left], [top]), the scale ([scaleX], [scaleY]), the angle and the
    fill of every object in the store are as they were, and so is every
    other property of every object; objects other than the two labels are
    untouched; the canvas (its objects, their stacking order, the
    selection, its size and zoom) and the element are unchanged.  In a
    live scene each label is what it was with the preset's string as its
    text and its dimensions recomputed. *)
Theorem applyPreset_preserves_pose (nextPreset : PresetKey) (s : Scene) :
  let s' := applyPreset fonts nextPreset s in
  (forall o, pose <$> heap s' !! o = pose <$> heap s !! o) /\
  (forall o, withoutText <$> heap s' !! o = withoutText <$> heap s !! o) /\
  (forall o, titleRef s <> Some o -> subtitleRef s <> Some o ->
             heap s' !! o = heap s !! o) /\
  canvas s' = canvas s /\ el s' = el s /\
  (forall bg t st, live s bg t st ->
     heap s' !! t
     = (fun o => initDimensions fonts (set_text (title (PRESETS nextPreset)) o))
         <$> heap s !! t /\
     heap s' !! st
     = (fun o => initDimensions fonts
                   (set_text (subtitle (PRESETS nextPreset)) o))
         <$> heap s !! st).
Proof.
  cbv zeta. unfold applyPreset. cbn.
  split; [| split; [| split; [| split; [| split]]]].
  - intros o.
    destruct (canvasRef s); [| reflexivity].
    destruct (titleRef s) as [t |]; [| reflexivity].
    destruct (subtitleRef s) as [st |]; [| reflexivity].
    cbn. rewrite !lookup_alter_preserves;
      auto using pose_initDimensions, pose_set_text.
  - intros o.
    destruct (canvasRef s); [| reflexivity].
    destruct (titleRef s) as [t |]; [| reflexivity].
    destruct (subtitleRef s) as [st |]; [| reflexivity].
    cbn. rewrite !lookup_alter_preserves;
      auto using withoutText_initDimensions, withoutText_set_text.
  - intros o Ht Hst.
    destruct (canvasRef s); [| reflexivity].
    destruct (titleRef s) as [t |]; [| reflexivity].
    destruct (subtitleRef s) as [st |]; [| reflexivity].
    cbn. rewrite !lookup_alter_ne by congruence. reflexivity.
  - destruct (canvasRef s); [| reflexivity].
    destruct (titleRef s) as [t |]; [| reflexivity].
    destruct (subtitleRef s) as [st |]; reflexivity.
  - destruct (canvasRef s); [| reflexivity].
    destruct (titleRef s) as [t |]; [| reflexivity].
    destruct (subtitleRef s) as [st |]; reflexivity.
  - intros bg t st L.
    destruct (live_distinct _ _ _ _ L) as (_ & _ & Hts).
    rewrite (live_canvas _ _ _ _ L), (live_titleRef _ _ _ _ L),
      (live_subtitleRef _ _ _ _ L). cbn.
    split.
    + rewrite lookup_alter_ne by congruence.
      rewrite lookup_alter_eq, lookup_alter_ne by congruence.
      rewrite lookup_alter_eq.
      destruct (heap s !! t); reflexivity.
    + rewrite lookup_alter_eq, lookup_alter_ne by congruence.
      rewrite lookup_alter_eq, lookup_alter_ne by congruence.
      destruct (heap s !! st); reflexivity.
Qed.

(** The store after one text-layout pass. *)
Lemma placeTextObjects_heap (cl : LayoutClosure) (s : Scene) (cw ch : Q) :
  getVisibleCanvasSize (canvas s) = (cw, ch) ->
  truthy cw = true -> truthy ch = true ->
  heap (placeTextObjects fonts cl s) =
    alter (initDimensions fonts) (cl_subtitle cl)
      (alter (initDimensions fonts) (cl_title cl)
         (alter (set_geometry (inject_Z (padX cw)) (inject_Z (topY ch + 70))
                   (inject_Z (subtitleWidth cw))) (cl_subtitle cl)
            (alter (set_geometry (inject_Z (padX cw)) (inject_Z (topY ch))
                      (inject_Z (titleWidth cw))) (cl_title cl) (heap s)))).
Proof.
  intros Hv Hw Hh. unfold placeTextObjects. rewrite Hv, Hw, Hh. reflexivity.
Qed.

Lemma placeTextObjects_skip (cl : LayoutClosure) (s : Scene) (cw ch : Q) :
  getVisibleCanvasSize (canvas s) = (cw, ch) ->
  negb (truthy cw) || negb (truthy ch) = true ->
  placeTextObjects fonts cl s = s.
Proof.
  intros Hv Hz. unfold placeTextObjects. rewrite Hv, Hz. reflexivity.
Qed.

Lemma placeTextObjects_heap_idem (cl : LayoutClosure) (s : Scene) :
  heap (placeTextObjects fonts cl (placeTextObjects fonts cl s))
  = heap (placeTextObjects fonts cl s).
Proof.
  destruct (getVisibleCanvasSize (canvas s)) as [cw ch] eqn:Hv.
  destruct (negb (truthy cw) || negb (truthy ch)) eqn:Hz.
  - rewrite !(placeTextObjects_skip cl s cw ch Hv Hz). reflexivity.
  - apply orb_false_elim in Hz as [Hw Hh].
    apply negb_false_iff in Hw, Hh.
    rewrite (placeTextObjects_heap cl (placeTextObjects fonts cl s) cw ch);
      [| rewrite placeTextObjects_canvas; exact Hv | exact Hw | exact Hh].
    rewrite (placeTextObjects_heap cl s cw ch Hv Hw Hh).
    apply map_eq. intros i.
    rewrite !lookup_alter.
    destruct (decide (cl_subtitle cl = i)) as [Es |];
      destruct (decide (cl_title cl = i)) as [Et |];
      try rewrite Es; try rewrite Et;
      repeat (destruct (decide _) as [? | ?]; try congruence);
      destruct (heap s !! i) as [o |]; cbn; try reflexivity; f_equal.
    + rewrite !initDimensions_idem, !set_geometry_overwrites.
      apply layout_absorbs.
    + apply layout_absorbs.
    + apply layout_absorbs.
Qed.

(** C8.  For a fixed visible canvas size, running [placeTextObjects]
    twice in succession leaves the title and the subtitle with exactly
    the [left], [top] and [width] one run gives them; indeed the whole
    object store is the same after the second run as after the first. *)
Theorem placeTextObjects_idempotent (cl : LayoutClosure) (s : Scene) :
  let once := placeTextObjects fonts cl s in
  let twice := placeTextObjects fonts cl once in
  labelGeometry <$> heap twice !! cl_title cl
    = labelGeometry <$> heap once !! cl_title cl /\
  labelGeometry <$> heap twice !! cl_subtitle cl
    = labelGeometry <$> heap once !! cl_subtitle cl /\
  heap twice = heap once /\
  getVisibleCanvasSize (canvas twice) = getVisibleCanvasSize (canvas s).
Proof.
  intros once twice. subst once twice.
  rewrite placeTextObjects_heap_idem, !placeTextObjects_canvas.
  repeat split.
Qed.

End Labels.

(** ** Adding an image (C1) *)

Lemma In_removeFromArray_push (x y : ObjId) (l : list ObjId) :
  In x l -> In x (removeFromArray y l ++ [y]).
Proof.
  induction l as [| z l IH]; cbn; [tauto |].
  intros [-> | Hin].
  - destruct (Nat.eqb_spec x y) as [-> | Hne].
    + apply in_or_app. right. left. reflexivity.
    + left. reflexivity.
  - destruct (Nat.eqb_spec z y) as [-> | Hne].
    + apply in_or_app. left. exact Hin.
    + right. apply IH, Hin.
Qed.

Arguments getVisibleCanvasSize : simpl never.

(** The sprite [addImageToCanvas] inserts: it is the freshly created
    image object, with the placement computed from the visible size. *)
Lemma addImageToCanvas_sprite (im : DecodedImage) (random1 random2 : Q)
    (s : Scene) (cw ch : Q) :
  canvasRef s = true ->
  getVisibleCanvasSize (canvas s) = (cw, ch) ->
  let s' := addImageToCanvas (Some im) random1 random2 s in
  let p := placeImage cw ch im random1 random2 in
  heap s' !! next_id s
    = Some (set_placement (p_left p) (p_top p) (p_scale p) (newImage im)) /\
  activeObject (canvas s') = Some (next_id s) /\
  In (next_id s) (objects (canvas s')).
Proof.
  intros Hc Hv s' p. subst s' p. unfold addImageToCanvas.
  rewrite Hc. cbn. rewrite Hv. cbn.
  destruct (titleRef s) as [t |]; destruct (subtitleRef s) as [st |]; cbn;
    rewrite lookup_alter_eq, lookup_insert_eq; cbn;
    (split; [reflexivity | split; [reflexivity |]]);
    repeat apply In_removeFromArray_push;
    apply in_or_app; right; left; reflexivity.
Qed.

(** [lra] does not see through the division by 2 of the half extents. *)
Ltac lra_halves :=
  unfold Qdiv in *; change (/ 2) with (1 # 2) in *; lra.

(** One axis of the placement: an image side [w] (with divisor [d], the
    side or 1), scaled by [sc], centred at a point sampled between
    [d * sc / 2 + 24] and [dim - d * sc / 2 - 24]. *)
Lemma centred_extent_within (dim w d sc random : Q) :
  0 <= w <= d -> 0 <= sc -> d * sc <= dim * 0.32 -> 320 <= dim ->
  0 <= random < 1 ->
  let lo := d * sc / 2 + margin in
  let hi := dim - d * sc / 2 - margin in
  lo <= hi /\
  within (extent OriginCenter (randomInRange random lo hi) (w * sc))
    margin (dim - margin).
Proof.
  intros [Hw0 Hwd] Hsc Hr Hdim [Hr0 Hr1] lo hi.
  assert (Hws : 0 <= w * sc) by nra.
  assert (Hwd' : w * sc <= d * sc) by nra.
  subst lo hi. unfold margin.
  set (x := d * sc) in *. set (y := w * sc) in *.
  set (lo := x / 2 + 24). set (hi := dim - x / 2 - 24).
  assert (Hfit : lo <= hi) by (subst lo hi; lra_halves).
  split; [exact Hfit |].
  pose proof (randomInRange_bounds random lo hi Hr0 Hr1) as [Hlo Hhi].
  assert (Hmax : Qmax lo hi == hi) by (apply Q.max_r; exact Hfit).
  rewrite Hmax in Hhi.
  unfold within, extent. cbn [fst snd].
  subst lo hi. split; lra_halves.
Qed.

Lemma within_weaken (i : Q * Q) (a b a' b' : Q) :
  a' <= a -> b <= b' -> within i a b -> within i a' b'.
Proof. unfold within. intros Ha Hb [H1 H2]. split; lra. Qed.

(** C1.  On a canvas whose visible size is at least 320x360, for every
    decoded image (of any non-negative intrinsic size, missing or zero
    sides included) and every pair of samples in [0,1), the sprite that
    [addImageToCanvas] inserts -- the new active object, on the canvas --
    has its axis-aligned bounding box inside
    [0, visibleWidth] x [0, visibleHeight]; moreover the scaled sprite plus
    the two 24-unit margins fits on each axis, and the box lies inside the
    viewport shrunk by the margin on every side. *)
Theorem addImageToCanvas_within_viewport (im : DecodedImage)
    (random1 random2 : Q) (s : Scene) (visibleWidth visibleHeight : Q) :
  canvasRef s = true ->
  getVisibleCanvasSize (canvas s) = (visibleWidth, visibleHeight) ->
  320 <= visibleWidth -> 360 <= visibleHeight ->
  non_negative (img_width im) -> non_negative (img_height im) ->
  0 <= random1 < 1 -> 0 <= random2 < 1 ->
  let s' := addImageToCanvas (Some im) random1 random2 s in
  exists sprite,
    heap s' !! next_id s = Some sprite /\
    activeObject (canvas s') = Some (next_id s) /\
    In (next_id s) (objects (canvas s')) /\
    within (bounds_x sprite) 0 visibleWidth /\
    within (bounds_y sprite) 0 visibleHeight /\
    (minLeft visibleWidth visibleHeight im
       <= maxLeft visibleWidth visibleHeight im /\
     within (bounds_x sprite) margin (visibleWidth - margin)) /\
    (minTop visibleWidth visibleHeight im
       <= maxTop visibleWidth visibleHeight im /\
     within (bounds_y sprite) margin (visibleHeight - margin)).
Proof.
  intros Hc Hv Hw Hh Hiw Hih Hr1 Hr2 s'.
  destruct (addImageToCanvas_sprite im random1 random2 s _ _ Hc Hv)
    as (Hsprite & Hactive & Hon).
  fold s' in Hsprite, Hactive, Hon.
  eexists. split; [exact Hsprite |].
  split; [exact Hactive |]. split; [exact Hon |].
  assert (Hiw' : 0 < iw im)
    by (apply or_default_pos, non_negative_spec, Hiw).
  assert (Hih' : 0 < ih im)
    by (apply or_default_pos, non_negative_spec, Hih).
  assert (Hsc : 0 <= scale visibleWidth visibleHeight im).
  { apply Qlt_le_weak, imageScale_pos; try assumption; lra. }
  pose proof (default_le_or_default (img_width im) (non_negative_spec _ Hiw))
    as Hwd.
  pose proof (default_le_or_default (img_height im) (non_negative_spec _ Hih))
    as Hhd.
  assert (Hx := centred_extent_within visibleWidth (default 0 (img_width im))
                  (iw im) (scale visibleWidth visibleHeight im) random1
                  Hwd Hsc (imageScale_width _ _ _ _ Hiw') Hw Hr1).
  assert (Hy := centred_extent_within visibleHeight (default 0 (img_height im))
                  (ih im) (scale visibleWidth visibleHeight im) random2
                  Hhd Hsc (imageScale_height _ _ _ _ Hih')
                  ltac:(lra) Hr2).
  cbv zeta in Hx, Hy.
  assert (Hm : 0 <= margin) by (unfold margin; lra).
  split; [| split; [| split]].
  - apply (within_weaken _ margin (visibleWidth - margin)); [lra | lra |].
    apply Hx.
  - apply (within_weaken _ margin (visibleHeight - margin)); [lra | lra |].
    apply Hy.
  - exact Hx.
  - exact Hy.
Qed.

(** ** Reset (C2) *)

Lemma sameFrame_refl (s : Scene) : sameFrame s s.
Proof. constructor; reflexivity. Qed.

Lemma sameFrame_trans (s1 s2 s3 : Scene) :
  sameFrame s1 s2 -> sameFrame s2 s3 -> sameFrame s1 s3.
Proof.
  intros [] []. constructor; congruence.
Qed.

Lemma c_remove_sameFrame (o : ObjId) (s : Scene) : sameFrame s (c_remove o s).
Proof.
  unfold c_remove. constructor; cbn; try reflexivity;
    destruct (existsb (Nat.eqb o) (objects (canvas s))); reflexivity.
Qed.

Lemma getVisibleCanvasSize_sameFrame (s s' : Scene) :
  sameFrame s s' ->
  getVisibleCanvasSize (canvas s') = getVisibleCanvasSize (canvas s).
Proof.
  intros []. unfold getVisibleCanvasSize. congruence.
Qed.

Lemma removeFromArray_middle (x : ObjId) (p r : list ObjId) :
  ~ In x p -> removeFromArray x (p ++ x :: r) = p ++ r.
Proof.
  induction p as [| y p IH]; intros Hn; cbn.
  - rewrite Nat.eqb_refl. reflexivity.
  - destruct (Nat.eqb_spec y x) as [-> | Hne].
    + exfalso. apply Hn. left. reflexivity.
    + f_equal. apply IH. intros Hin. apply Hn. right. exact Hin.
Qed.

Lemma existsb_middle (x : ObjId) (p r : list ObjId) :
  existsb (Nat.eqb x) (p ++ x :: r) = true.
Proof.
  rewrite existsb_app. cbn. rewrite Nat.eqb_refl. apply orb_true_iff.
  right. reflexivity.
Qed.

Lemma unprotected_test (bg t st o : ObjId) :
  negb (Nat.eqb o bg) && negb (Nat.eqb o t) && negb (Nat.eqb o st)
  = negb (protected bg t st o).
Proof.
  unfold protected.
  destruct (Nat.eqb o bg), (Nat.eqb o t), (Nat.eqb o st); reflexivity.
Qed.

(** The loop of [reset], started on any suffix [rest] of the copied array
    when the canvas holds the protected objects [kept] already passed
    followed by [rest]. *)
Lemma removeLoop_spec (bg t st : ObjId) (rest : list ObjId) :
  forall (s : Scene) (kept : list ObjId),
    objects (canvas s) = kept ++ rest ->
    (forall x, In x kept -> protected bg t st x = true) ->
    let s' :=
      fold_left
        (fun acc canvasObject =>
           if negb (Nat.eqb canvasObject bg) && negb (Nat.eqb canvasObject t)
              && negb (Nat.eqb canvasObject st)
           then c_remove canvasObject acc else acc) rest s in
    objects (canvas s') = kept ++ List.filter (protected bg t st) rest /\
    sameFrame s s'.
Proof.
  induction rest as [| x rest IH]; intros s kept Hobj Hkept; cbn.
  - split; [exact Hobj | apply sameFrame_refl].
  - rewrite unprotected_test.
    destruct (protected bg t st x) eqn:Hp; cbn.
    + destruct (IH s (kept ++ [x])) as [Ho Hf].
      * rewrite <- app_assoc. exact Hobj.
      * intros y Hy. apply in_app_or in Hy as [Hy | [<- | []]];
          [apply Hkept, Hy | exact Hp].
      * split; [| exact Hf]. rewrite Ho, <- app_assoc. reflexivity.
    + assert (Hx : ~ In x kept).
      { intros Hin. apply Hkept in Hin. congruence. }
      destruct (IH (c_remove x s) kept) as [Ho Hf].
      * unfold c_remove. cbn. rewrite Hobj, existsb_middle. cbn.
        apply removeFromArray_middle, Hx.
      * exact Hkept.
      * split; [exact Ho |].
        eapply sameFrame_trans; [apply c_remove_sameFrame | exact Hf].
Qed.

Lemma removeUnprotected_spec (bg t st : ObjId) (s : Scene) :
  objects (canvas (removeUnprotected bg t st s))
    = List.filter (protected bg t st) (objects (canvas s)) /\
  sameFrame s (removeUnprotected bg t st s).
Proof.
  unfold removeUnprotected.
  apply (removeLoop_spec bg t st (objects (canvas s)) s []).
  - reflexivity.
  - intros x [].
Qed.

(** With three distinct protected objects, the protected entries of an
    array are as many as the occurrences of the three. *)
Lemma length_filter_protected (bg t st : ObjId) (l : list ObjId) :
  bg <> t -> bg <> st -> t <> st ->
  length (List.filter (protected bg t st) l)
  = (count_occ Nat.eq_dec l bg + count_occ Nat.eq_dec l t
     + count_occ Nat.eq_dec l st)%nat.
Proof.
  intros H1 H2 H3. induction l as [| x l IH]; cbn; [reflexivity |].
  unfold protected at 1.
  destruct (Nat.eq_dec x bg) as [Eb | Nb];
    destruct (Nat.eq_dec x t) as [Et | Nt];
    destruct (Nat.eq_dec x st) as [Es | Ns];
    try congruence; subst;
    rewrite ?Nat.eqb_refl;
    repeat match goal with
           | H : ?a <> ?b |- context [Nat.eqb ?a ?b] =>
               rewrite (proj2 (Nat.eqb_neq a b) H)
           end; cbn; rewrite IH; lia.
Qed.

Section Reset.

Variable fonts : TextMetrics.

Lemma placeTextObjects_preset (cl : LayoutClosure) (s : Scene) :
  preset (placeTextObjects fonts cl s) = preset s.
Proof.
  unfold placeTextObjects.
  destruct (getVisibleCanvasSize (canvas s)) as [cw ch].
  destruct (negb (truthy cw) || negb (truthy ch)); reflexivity.
Qed.

Lemma reset_unfold (e : Env) (s : Scene) (bg t st : ObjId) :
  live s bg t st ->
  reset fonts e s =
    placeTextObjects fonts {| cl_title := t; cl_subtitle := st |}
      (resetBeforeLayout fonts e t st (removeUnprotected bg t st s)).
Proof.
  intros L. unfold reset.
  rewrite (live_canvas _ _ _ _ L), (live_bgRef _ _ _ _ L),
    (live_titleRef _ _ _ _ L), (live_subtitleRef _ _ _ _ L).
  destruct (removeUnprotected_spec bg t st s) as [_ Hsf].
  fold (resetBeforeLayout fonts e t st (removeUnprotected bg t st s)).
  replace (layoutRef (resetBeforeLayout fonts e t st (removeUnprotected bg t st s)))
    with (Some {| cl_title := t; cl_subtitle := st |}); [reflexivity |].
  cbn. rewrite (sf_layoutRef _ _ Hsf). symmetry. apply (live_layoutRef _ _ _ _ L).
Qed.

(** A label after [reset]: the reset properties survive the two
    [initDimensions] and the layout, which in turn decides the position. *)
Lemma reset_label_props (l t w : Q) (txt c : string) (o : FabricObject) :
  let o' := initDimensions fonts
              (set_geometry l t w
                 (initDimensions fonts (set_reset_props txt c o))) in
  obj_text o' = txt /\ obj_fill o' = c /\
  obj_angle o' = 0 /\ obj_scaleX o' = 1 /\ obj_scaleY o' = 1 /\
  obj_left o' = l /\ obj_top o' = t.
Proof.
  unfold initDimensions.
  destruct o as [[] ? ? ? ? ? ? ? ? ? ? ? ? ? ?]; cbn; repeat split.
Qed.

(** C2.  In a live scene with a non-zero visible size, one call to
    [reset] keeps, of the objects on the canvas, exactly those that are
    the background, the title or the subtitle (in their order), so that
    three objects remain however many sprites had been added; it clears
    the selection, selects the default preset, and leaves each label with
    the default preset's text, the theme's fill, angle 0, scale 1, and at
    the position the text layout computes from the visible size. *)
Theorem reset_restores_scene (e : Env) (s : Scene) (bg t st : ObjId)
    (visibleWidth visibleHeight : Q) :
  live s bg t st ->
  getVisibleCanvasSize (canvas s) = (visibleWidth, visibleHeight) ->
  truthy visibleWidth = true -> truthy visibleHeight = true ->
  let s' := reset fonts e s in
  objects (canvas s') = List.filter (protected bg t st) (objects (canvas s)) /\
  length (objects (canvas s')) = 3%nat /\
  activeObject (canvas s') = None /\
  preset s' = ux /\
  (exists o, heap s' !! t = Some o /\
     obj_text o = title (PRESETS ux) /\
     obj_fill o = titleFill (isDark e) /\
     obj_angle o = 0 /\ obj_scaleX o = 1 /\ obj_scaleY o = 1 /\
     obj_left o = inject_Z (padX visibleWidth) /\
     obj_top o = inject_Z (topY visibleHeight)) /\
  (exists o, heap s' !! st = Some o /\
     obj_text o = subtitle (PRESETS ux) /\
     obj_fill o = subtitleFill (isDark e) /\
     obj_angle o = 0 /\ obj_scaleX o = 1 /\ obj_scaleY o = 1 /\
     obj_left o = inject_Z (padX visibleWidth) /\
     obj_top o = inject_Z (topY visibleHeight + 70)).
Proof.
  intros L Hv Hw Hh s'. subst s'.
  rewrite (reset_unfold e s bg t st L).
  destruct (removeUnprotected_spec bg t st s) as [Hobj Hsf].
  destruct (live_distinct _ _ _ _ L) as (Hbt & Hbs & Hts).
  destruct (live_once _ _ _ _ L) as (Cb & Ct & Cs).
  destruct (live_labels _ _ _ _ L) as ([ot Hot] & [ost Host]).
  set (s1 := removeUnprotected bg t st s) in *.
  assert (Hv2 : getVisibleCanvasSize (canvas (resetBeforeLayout fonts e t st s1))
                = (visibleWidth, visibleHeight)).
  { rewrite <- Hv, <- (getVisibleCanvasSize_sameFrame s s1 Hsf).
    reflexivity. }
  rewrite placeTextObjects_canvas, placeTextObjects_preset.
  rewrite (placeTextObjects_heap fonts _ _ _ _ Hv2 Hw Hh).
  cbn [cl_title cl_subtitle].
  split; [exact Hobj |].
  split.
  { change (objects (canvas (resetBeforeLayout fonts e t st s1)))
      with (objects (canvas s1)).
    rewrite Hobj, length_filter_protected by assumption. lia. }
  split; [reflexivity |]. split; [reflexivity |].
  change (heap (resetBeforeLayout fonts e t st s1))
    with (alter (initDimensions fonts) st
            (alter (initDimensions fonts) t
               (alter (set_reset_props (subtitle (PRESETS ux))
                         (subtitleFill (isDark e))) st
                  (alter (set_reset_props (title (PRESETS ux))
                            (titleFill (isDark e))) t (heap s1))))).
  rewrite (sf_heap _ _ Hsf).
  split.
  - rewrite !lookup_alter.
    repeat (destruct (decide _) as [? | ?]; try congruence).
    rewrite Hot. cbn [fmap option_fmap option_map].
    eexists. split; [reflexivity |]. apply reset_label_props.
  - rewrite !lookup_alter.
    repeat (destruct (decide _) as [? | ?]; try congruence).
    rewrite Host. cbn [fmap option_fmap option_map].
    eexists. split; [reflexivity |]. apply reset_label_props.
Qed.

End Reset.

(** ** Liveness is an invariant of the component *)

(** A step that keeps the refs, the canvas' objects and the fresh
    identity, and loses no object from the store, keeps the scene live. *)
Lemma live_transfer (s s' : Scene) (bg t st : ObjId) :
  canvasRef s' = canvasRef s -> bgRef s' = bgRef s ->
  titleRef s' = titleRef s -> subtitleRef s' = subtitleRef s ->
  layoutRef s' = layoutRef s ->
  objects (canvas s') = objects (canvas s) ->
  (next_id s <= next_id s')%nat ->
  (forall o, is_Some (heap s !! o) -> is_Some (heap s' !! o)) ->
  live s bg t st -> live s' bg t st.
Proof.
  intros Hc Hb Ht Hs Hl Ho Hn Hh L. destruct L.
  constructor; try congruence; try assumption.
  - destruct live_labels0. split; apply Hh; assumption.
  - rewrite Ho. eapply Forall_impl; [exact live_fresh0 |].
    cbn. intros. lia.
Qed.

Lemma is_Some_alter (f : FabricObject -> FabricObject) (i o : nat)
    (m : gmap nat FabricObject) :
  is_Some (m !! o) -> is_Some (alter f i m !! o).
Proof.
  intros [x Hx]. rewrite lookup_alter.
  destruct (decide (i = o)) as [-> |]; rewrite Hx; cbn; eauto.
Qed.

Lemma is_Some_insert (x : FabricObject) (i o : nat)
    (m : gmap nat FabricObject) :
  is_Some (m !! o) -> is_Some (<[i := x]> m !! o).
Proof.
  intros H. rewrite lookup_insert.
  destruct (decide (i = o)); eauto.
Qed.

Lemma count_occ_removeFromArray (x y : ObjId) (l : list ObjId) :
  count_occ Nat.eq_dec (removeFromArray x l) y
  = if Nat.eq_dec x y then Nat.pred (count_occ Nat.eq_dec l y)
    else count_occ Nat.eq_dec l y.
Proof.
  induction l as [| z l IH]; cbn.
  - destruct (Nat.eq_dec x y); reflexivity.
  - destruct (Nat.eqb_spec z x) as [-> | Hne].
    + destruct (Nat.eq_dec x y); reflexivity.
    + cbn. rewrite IH.
      destruct (Nat.eq_dec x y), (Nat.eq_dec z y); try reflexivity.
      congruence.
Qed.

Lemma count_occ_bringToFront (x y : ObjId) (l : list ObjId) :
  count_occ Nat.eq_dec l x = 1%nat ->
  count_occ Nat.eq_dec (removeFromArray x l ++ [x]) y
  = count_occ Nat.eq_dec l y.
Proof.
  intros Hx. rewrite count_occ_app, count_occ_removeFromArray.
  destruct (Nat.eq_dec x y) as [<- | Hne].
  - rewrite count_occ_cons_eq by reflexivity. cbn. lia.
  - rewrite count_occ_cons_neq by exact Hne. cbn. lia.
Qed.

Lemma count_occ_fresh (n : nat) (l : list ObjId) (x : ObjId) :
  Forall (fun o => (o < n)%nat) l -> (n <= x)%nat ->
  count_occ Nat.eq_dec l x = 0%nat.
Proof.
  intros Hf Hx. apply count_occ_not_In. intros Hin.
  rewrite Forall_forall in Hf. rewrite <- list_elem_of_In in Hin.
  specialize (Hf x Hin). cbn in Hf. lia.
Qed.

Lemma Forall_removeFromArray (P : ObjId -> Prop) (x : ObjId) (l : list ObjId) :
  Forall P l -> Forall P (removeFromArray x l).
Proof.
  induction 1 as [| y l Hy Hl IH]; cbn; [constructor |].
  destruct (Nat.eqb y x); [exact Hl | constructor; assumption].
Qed.

Lemma live_on_canvas (s : Scene) (bg t st : ObjId) :
  live s bg t st ->
  (bg < next_id s)%nat /\ (t < next_id s)%nat /\ (st < next_id s)%nat.
Proof.
  intros L. destruct (live_once _ _ _ _ L) as (Cb & Ct & Cs).
  pose proof (live_fresh _ _ _ _ L) as Hf. rewrite Forall_forall in Hf.
  repeat split; apply Hf; rewrite list_elem_of_In;
    apply (count_occ_In Nat.eq_dec); lia.
Qed.

Lemma addImageToCanvas_live (img : option DecodedImage) (random1 random2 : Q)
    (s : Scene) (bg t st : ObjId) :
  live s bg t st -> live (addImageToCanvas img random1 random2 s) bg t st.
Proof.
  intros L. pose proof (live_on_canvas s bg t st L) as (Lb & Lt & Ls).
  destruct (live_once _ _ _ _ L) as (Cb & Ct & Cs).
  pose proof (live_fresh _ _ _ _ L) as Hf.
  unfold addImageToCanvas. rewrite (live_canvas _ _ _ _ L). cbn.
  destruct img as [im |]; [| exact L].
  cbn. destruct (getVisibleCanvasSize (canvas s)) as [cw ch]. cbn.
  rewrite (live_titleRef _ _ _ _ L), (live_subtitleRef _ _ _ _ L). cbn.
  set (l := objects (canvas s)) in *.
  assert (C1 : forall y, (y < next_id s)%nat ->
             count_occ Nat.eq_dec (l ++ [next_id s]) y = count_occ Nat.eq_dec l y).
  { intros y Hy. rewrite count_occ_app.
    assert (E : count_occ Nat.eq_dec [next_id s] y = 0%nat)
      by (apply count_occ_not_In; intros [H | []]; lia).
    lia. }
  assert (C2 : forall y, (y < next_id s)%nat ->
             count_occ Nat.eq_dec
               (removeFromArray st
                  (removeFromArray t (l ++ [next_id s]) ++ [t]) ++ [st]) y
             = count_occ Nat.eq_dec l y).
  { intros y Hy.
    rewrite count_occ_bringToFront, count_occ_bringToFront, C1; try lia.
    - rewrite C1; lia.
    - rewrite count_occ_bringToFront, C1; try lia. rewrite C1; lia. }
  constructor; cbn; try reflexivity;
    try (apply L); try (rewrite !C2 by assumption; repeat split; assumption).
  - destruct (live_labels _ _ _ _ L) as [H1 H2].
    split; apply is_Some_alter, is_Some_insert; assumption.
  - apply Forall_app. split; [| repeat constructor; lia].
    apply Forall_removeFromArray, Forall_app.
    split; [| repeat constructor; lia].
    apply Forall_removeFromArray, Forall_app.
    split; [| repeat constructor; lia].
    eapply Forall_impl; [exact Hf |]. cbn. intros. lia.
Qed.

Section Invariant.

Variable fonts : TextMetrics.

Lemma placeTextObjects_live (cl : LayoutClosure) (s : Scene) (bg t st : ObjId) :
  live s bg t st -> live (placeTextObjects fonts cl s) bg t st.
Proof.
  intros L. unfold placeTextObjects.
  destruct (getVisibleCanvasSize (canvas s)) as [cw ch].
  destruct (negb (truthy cw) || negb (truthy ch)); [exact L |].
  eapply live_transfer; [.. | exact L]; cbn; try reflexivity; try lia.
  intros o Ho. repeat apply is_Some_alter. exact Ho.
Qed.

Lemma fitCanvasToWrap_live (e : Env) (b : ObjId) (cl : LayoutClosure)
    (s : Scene) (bg t st : ObjId) :
  live s bg t st -> live (fitCanvasToWrap fonts e b cl s) bg t st.
Proof.
  intros L. unfold fitCanvasToWrap.
  destruct (wrap e) as [r |]; [| exact L].
  cbv zeta. apply placeTextObjects_live.
  generalize (nextWidth e r) (nextHeight e r). intros nw nh.
  eapply live_transfer; [.. | exact L];
    destruct (Z.eqb (el_width (el s)) nw); cbn;
    destruct (Z.eqb (el_height (el s)) nh); cbn;
    try reflexivity; try lia;
    intros o Ho; apply is_Some_alter; exact Ho.
Qed.

Lemma onResize_live (e : Env) (s : Scene) (bg t st : ObjId) :
  live s bg t st -> live (onResize fonts e s) bg t st.
Proof.
  intros L. unfold onResize.
  destruct (bgRef s); [| exact L].
  destruct (layoutRef s); [| exact L].
  apply fitCanvasToWrap_live, L.
Qed.

Lemma setReady_live (b : bool) (s : Scene) (bg t st : ObjId) :
  live s bg t st -> live (setReady b s) bg t st.
Proof.
  intros L. eapply live_transfer; [.. | exact L]; cbn; try reflexivity; auto.
Qed.

(** Mounting produces a live scene: background 0, title 1, subtitle 2. *)
Lemma init_live (e : Env) :
  live (init fonts e unmounted) 0%nat 1%nat 2%nat.
Proof.
  unfold init. cbn -[fitCanvasToWrap].
  apply setReady_live, fitCanvasToWrap_live.
  constructor; cbn; try reflexivity.
  - repeat split; lia.
  - repeat split; reflexivity.
  - split; eexists; reflexivity.
  - repeat constructor.
Qed.

Lemma applyPreset_live (p : PresetKey) (s : Scene) (bg t st : ObjId) :
  live s bg t st -> live (applyPreset fonts p s) bg t st.
Proof.
  intros L. unfold applyPreset. cbn.
  rewrite (live_canvas _ _ _ _ L), (live_titleRef _ _ _ _ L),
    (live_subtitleRef _ _ _ _ L).
  eapply live_transfer; [.. | exact L]; cbn; try reflexivity; try lia.
  intros o Ho. repeat apply is_Some_alter. exact Ho.
Qed.

Lemma applyTheme_live (e : Env) (s : Scene) (bg t st : ObjId) :
  live s bg t st -> live (applyTheme e s) bg t st.
Proof.
  intros L. unfold applyTheme.
  rewrite (live_canvas _ _ _ _ L), (live_titleRef _ _ _ _ L),
    (live_subtitleRef _ _ _ _ L).
  eapply live_transfer; [.. | exact L]; cbn; try reflexivity; try lia.
  intros o Ho. repeat apply is_Some_alter. exact Ho.
Qed.

Lemma exportPNG_live (e : Env) (s : Scene) (bg t st : ObjId) :
  live s bg t st -> live (exportPNG e s) bg t st.
Proof.
  intros L.
  pose proof (exportPNG_objects e s
                (fresh_not_on_canvas s (live_fresh _ _ _ _ L))) as Ho.
  eapply live_transfer; [.. | exact L]; try exact Ho;
    unfold exportPNG; rewrite (live_canvas _ _ _ _ L); cbn;
    destruct (getVisibleCanvasSize (canvas s)) as [cw ch]; cbn;
    try reflexivity; try lia; try apply L.
  intros o Hs. apply is_Some_insert, Hs.
Qed.

Lemma count_occ_filter_protected (bg t st x : ObjId) (l : list ObjId) :
  protected bg t st x = true ->
  count_occ Nat.eq_dec (List.filter (protected bg t st) l) x
  = count_occ Nat.eq_dec l x.
Proof.
  intros Hp. induction l as [| y l IH]; cbn; [reflexivity |].
  destruct (protected bg t st y) eqn:Hy; cbn.
  - destruct (Nat.eq_dec y x); rewrite IH; reflexivity.
  - destruct (Nat.eq_dec y x) as [-> |]; [congruence | exact IH].
Qed.

Lemma reset_live (e : Env) (s : Scene) (bg t st : ObjId) :
  live s bg t st -> live (reset fonts e s) bg t st.
Proof.
  intros L. rewrite (reset_unfold fonts e s bg t st L).
  apply placeTextObjects_live.
  destruct (removeUnprotected_spec bg t st s) as [Hobj Hsf].
  destruct (live_once _ _ _ _ L) as (Cb & Ct & Cs).
  destruct (live_labels _ _ _ _ L) as [H1 H2].
  constructor; cbn.
  - rewrite (sf_canvasRef _ _ Hsf). apply L.
  - rewrite (sf_bgRef _ _ Hsf). apply L.
  - rewrite (sf_titleRef _ _ Hsf). apply L.
  - rewrite (sf_subtitleRef _ _ Hsf). apply L.
  - rewrite (sf_layoutRef _ _ Hsf). apply L.
  - apply L.
  - rewrite Hobj, !count_occ_filter_protected; [tauto | ..];
      unfold protected; rewrite Nat.eqb_refl, ?orb_true_r; reflexivity.
  - rewrite (sf_heap _ _ Hsf).
    split; repeat apply is_Some_alter; assumption.
  - rewrite (sf_next_id _ _ Hsf), Hobj.
    apply (proj2 (Forall_forall _ _)). intros x Hx.
    rewrite list_elem_of_In in Hx. apply filter_In in Hx as [Hx _].
    pose proof (live_fresh _ _ _ _ L) as Hf. rewrite Forall_forall in Hf.
    apply Hf. rewrite list_elem_of_In. exact Hx.
Qed.

(** After any number of added sprites, [reset] brings the canvas back to
    three objects. *)
Lemma reset_after_sprites (e : Env)
    (sprites : list (option DecodedImage * Q * Q)) (s : Scene)
    (bg t st : ObjId) :
  live s bg t st ->
  let s' := fold_left
              (fun acc '(img, random1, random2) =>
                 addImageToCanvas img random1 random2 acc) sprites s in
  length (objects (canvas (reset fonts e s'))) = 3%nat.
Proof.
  intros L s'.
  assert (L' : live s' bg t st).
  { subst s'. revert s L. induction sprites as [| [[img r1] r2] sprites IH];
      intros s L; cbn; [exact L |].
    apply IH, addImageToCanvas_live, L. }
  rewrite (reset_unfold fonts e s' bg t st L'), placeTextObjects_canvas.
  destruct (removeUnprotected_spec bg t st s') as [Hobj _].
  change (objects (canvas (resetBeforeLayout fonts e t st
                             (removeUnprotected bg t st s'))))
    with (objects (canvas (removeUnprotected bg t st s'))).
  destruct (live_distinct _ _ _ _ L') as (Hbt & Hbs & Hts).
  destruct (live_once _ _ _ _ L') as (Cb & Ct & Cs).
  rewrite Hobj, length_filter_protected by assumption. lia.
Qed.

End Invariant.

(** A fitted scene has a non-zero visible size whenever the device pixel
    ratio is missing, zero or at least 1: the early return of the text
    layout is then never taken. *)
Lemma fitCanvasToWrap_visible (fonts : TextMetrics) (e : Env) (bg : ObjId)
    (cl : LayoutClosure) (s : Scene) (r : DOMRect) :
  wrap e = Some r ->
  1 <= or_default (devicePixelRatio e) 1 ->
  let vs := getVisibleCanvasSize (canvas (fitCanvasToWrap fonts e bg cl s)) in
  truthy (fst vs) = true /\ truthy (snd vs) = true.
Proof.
  intros Hw Hd vs. subst vs.
  destruct (fitCanvasToWrap_fields fonts e bg cl s r Hw) as (_ & Hc & _).
  cbv zeta in Hc. rewrite Hc. unfold getVisibleCanvasSize.
  cbn [c_width c_height c_zoom fst snd].
  pose proof (effectiveDpr_ge_1 _ Hd) as Hd'.
  set (dpr := effectiveDpr (devicePixelRatio e)) in *.
  assert (Ez : or_default (Some dpr) 1 = dpr).
  { cbn. destruct (truthy dpr) eqn:E; [reflexivity |].
    apply truthy_false in E. lra. }
  rewrite Ez.
  assert (Hpos : forall n : Z, (320 <= n)%Z -> truthy (inject_Z n / dpr) = true).
  { intros n Hn. unfold truthy.
    destruct (Qeq_bool (inject_Z n / dpr) 0) eqn:E; [| reflexivity].
    apply Qeq_bool_eq in E.
    assert (0 < inject_Z n).
    { change 0 with (inject_Z 0). rewrite <- Zlt_Qlt. lia. }
    assert (0 < inject_Z n / dpr) by (apply Qlt_shift_div_l; lra).
    lra. }
  pose proof (cssWidth_min r). pose proof (cssHeight_min r).
  split; apply Hpos.
  - apply floor_scaled_ge; [lia | exact Hd'].
  - apply (Z.le_trans _ 360); [lia |].
    apply floor_scaled_ge; [lia | exact Hd'].
Qed.


(** * Concrete runs *)

(** Closed comparisons of rationals, by evaluation. *)
Ltac q_eval := vm_compute; first [reflexivity | discriminate].

(** C1 at the sample scene: a 4000x3000 photo added to the mounted
    800x600 canvas (1600x1200 backing store at zoom 2). *)
Lemma addImageToCanvas_within_viewport_witness :
  canvasRef mountedScene = true /\
  getVisibleCanvasSize (canvas mountedScene) = (1600 # 2, 1200 # 2) /\
  320 <= 1600 # 2 /\ 360 <= 1200 # 2 /\
  non_negative (img_width photo) /\ non_negative (img_height photo) /\
  0 <= 0.5 < 1 /\ 0 <= 0.25 < 1 /\
  exists sprite,
    heap (addImageToCanvas (Some photo) 0.5 0.25 mountedScene)
      !! next_id mountedScene = Some sprite /\
    activeObject (canvas (addImageToCanvas (Some photo) 0.5 0.25 mountedScene))
      = Some (next_id mountedScene) /\
    In (next_id mountedScene)
      (objects (canvas (addImageToCanvas (Some photo) 0.5 0.25 mountedScene))) /\
    within (bounds_x sprite) 0 (1600 # 2) /\
    within (bounds_y sprite) 0 (1200 # 2) /\
    (minLeft (1600 # 2) (1200 # 2) photo <= maxLeft (1600 # 2) (1200 # 2) photo /\
     within (bounds_x sprite) margin ((1600 # 2) - margin)) /\
    (minTop (1600 # 2) (1200 # 2) photo <= maxTop (1600 # 2) (1200 # 2) photo /\
     within (bounds_y sprite) margin ((1200 # 2) - margin)).
Proof.
  assert (H1 : canvasRef mountedScene = true) by reflexivity.
  assert (H2 : getVisibleCanvasSize (canvas mountedScene) = (1600 # 2, 1200 # 2))
    by (vm_compute; reflexivity).
  assert (H3 : 320 <= 1600 # 2) by q_eval.
  assert (H4 : 360 <= 1200 # 2) by q_eval.
  assert (H5 : non_negative (img_width photo)) by q_eval.
  assert (H6 : non_negative (img_height photo)) by q_eval.
  assert (H7 : 0 <= 0.5 < 1) by (split; q_eval).
  assert (H8 : 0 <= 0.25 < 1) by (split; q_eval).
  repeat (split; [assumption |]).
  exact (addImageToCanvas_within_viewport photo 0.5 0.25 mountedScene
           (1600 # 2) (1200 # 2) H1 H2 H3 H4 H5 H6 H7 H8).
Defined.

(** C2 at the sample scene: three sprites were added, then [reset]. *)
Lemma reset_restores_scene_witness :
  live sceneWithSprites 0%nat 1%nat 2%nat /\
  getVisibleCanvasSize (canvas sceneWithSprites) = (1600 # 2, 1200 # 2) /\
  truthy (1600 # 2) = true /\ truthy (1200 # 2) = true /\
  length (objects (canvas sceneWithSprites)) = 6%nat /\
  let s' := reset sampleFonts desktopEnv sceneWithSprites in
  objects (canvas s')
    = List.filter (protected 0%nat 1%nat 2%nat) (objects (canvas sceneWithSprites)) /\
  length (objects (canvas s')) = 3%nat /\
  activeObject (canvas s') = None /\
  preset s' = ux /\
  (exists o, heap s' !! 1%nat = Some o /\
     obj_text o = title (PRESETS ux) /\
     obj_fill o = titleFill (isDark desktopEnv) /\
     obj_angle o = 0 /\ obj_scaleX o = 1 /\ obj_scaleY o = 1 /\
     obj_left o = inject_Z (padX (1600 # 2)) /\
     obj_top o = inject_Z (topY (1200 # 2))) /\
  (exists o, heap s' !! 2%nat = Some o /\
     obj_text o = subtitle (PRESETS ux) /\
     obj_fill o = subtitleFill (isDark desktopEnv) /\
     obj_angle o = 0 /\ obj_scaleX o = 1 /\ obj_scaleY o = 1 /\
     obj_left o = inject_Z (padX (1600 # 2)) /\
     obj_top o = inject_Z (topY (1200 # 2) + 70)).
Proof.
  assert (H1 : live sceneWithSprites 0%nat 1%nat 2%nat).
  { constructor; try (vm_compute; reflexivity).
    - repeat split; discriminate.
    - repeat split; vm_compute; reflexivity.
    - split; vm_compute; eexists; reflexivity.
    - vm_compute. repeat constructor. }
  assert (H2 : getVisibleCanvasSize (canvas sceneWithSprites)
               = (1600 # 2, 1200 # 2)) by (vm_compute; reflexivity).
  assert (H3 : truthy (1600 # 2) = true) by reflexivity.
  assert (H4 : truthy (1200 # 2) = true) by reflexivity.
  repeat (split; [assumption |]).
  split; [vm_compute; reflexivity |].
  exact (reset_restores_scene sampleFonts desktopEnv sceneWithSprites
           0%nat 1%nat 2%nat (1600 # 2) (1200 # 2) H1 H2 H3 H4).
Defined.

(** C3 as stated fails: on the mounted scene, [exportPNG] requests a
    render after the temporary rectangle has been sent to the back and
    before the canvas is serialized. *)
Lemma exportPNG_requests_render_before_capture :
  canvasRef mountedScene = true /\
  ~ noRenderBetween isSendToBack isToDataURL
      (newCalls mountedScene (exportPNG desktopEnv mountedScene)).
Proof.
  split; [reflexivity |].
  intros H. apply H. vm_compute. right. left. reflexivity.
Qed.

(** C3 at the sample scene. *)
Lemma exportPNG_render_requests_witness :
  canvasRef mountedScene = true /\
  let run := newCalls mountedScene (exportPNG desktopEnv mountedScene) in
  run = exportCalls mountedScene /\
  callsBetween isSendToBack isToDataURL run
    = [CDiscardActiveObject; CRequestRenderAll] /\
  callsBetween isToDataURL isRemove run = [].
Proof.
  split; [reflexivity |].
  exact (exportPNG_render_requests desktopEnv mountedScene eq_refl).
Defined.

(** C4 as stated fails.  A scene fitted at 640x720 on a plain display is
    fitted again at half the container size on a HiDPI display: the
    physical size is unchanged, and yet the zoom is set and changes from
    1 to 2. *)
Lemma fit_sets_zoom_at_unchanged_size :
  let s := init sampleFonts plainDisplayEnv unmounted in
  let s' := onResize sampleFonts hiDpiEnv s in
  let r := {| rect_width := 320; rect_height := 360 |} in
  wrap hiDpiEnv = Some r /\
  nextWidth hiDpiEnv r = el_width (el s) /\
  nextHeight hiDpiEnv r = el_height (el s) /\
  nextWidth hiDpiEnv r = c_width (canvas s) /\
  nextHeight hiDpiEnv r = c_height (canvas s) /\
  c_zoom (canvas s) = 1 /\ c_zoom (canvas s') = 2 /\
  ~ c_zoom (canvas s') == c_zoom (canvas s) /\
  In (CSetZoom 2) (newCalls s s').
Proof.
  repeat split; try (vm_compute; reflexivity).
  - vm_compute. discriminate.
  - vm_compute. right. right. left. reflexivity.
Qed.

(** C4 at the same two fits. *)
Lemma fit_reallocates_on_change_only_witness :
  let s := init sampleFonts plainDisplayEnv unmounted in
  let cl := {| cl_title := 1%nat; cl_subtitle := 2%nat |} in
  let r := {| rect_width := 320; rect_height := 360 |} in
  wrap hiDpiEnv = Some r /\
  let nw := nextWidth hiDpiEnv r in
  let nh := nextHeight hiDpiEnv r in
  let dpr := effectiveDpr (devicePixelRatio hiDpiEnv) in
  let s' := fitCanvasToWrap sampleFonts hiDpiEnv 0%nat cl s in
  newCalls s s' =
    elAssignments (el s) nw nh
      ++ [CSetWidth nw; CSetHeight nh; CSetZoom dpr]
      ++ layoutCalls (canvas s') /\
  filter isElementAssignment (newCalls s s') = elAssignments (el s) nw nh /\
  (el_width (el s) = nw -> el_height (el s) = nh ->
   elAssignments (el s) nw nh = []) /\
  (el_width (el s) <> nw ->
   In (ElSetWidth nw) (elAssignments (el s) nw nh)) /\
  (el_height (el s) <> nh ->
   In (ElSetHeight nh) (elAssignments (el s) nw nh)) /\
  c_width (canvas s') = nw /\ c_height (canvas s') = nh /\
  c_zoom (canvas s') = dpr.
Proof.
  split; [reflexivity |].
  exact (proj2
           (fit_reallocates_on_change_only sampleFonts hiDpiEnv 0%nat
              {| cl_title := 1%nat; cl_subtitle := 2%nat |}
              (init sampleFonts plainDisplayEnv unmounted))
           {| rect_width := 320; rect_height := 360 |} eq_refl).
Defined.

(** C5 as stated fails.  A page opened in a browser zoomed out to 50%
    (device pixel ratio 0.5, at load time and since) over a collapsed
    container is fitted with a 160x180 backing store, below the 320x360
    minimum; and at a ratio under 1/320 the backing store of the smallest
    container is empty. *)
Lemma fit_backing_store_below_min :
  (let s := init sampleFonts zoomedOutEnv (loadedAt (Some 0.5)) in
   el_width (el s) = 160%Z /\ el_height (el s) = 180%Z /\
   c_width (canvas s) = 160%Z /\ c_height (canvas s) = 180%Z /\
   ~ (320 <= el_width (el s) /\ 360 <= el_height (el s))%Z /\
   ~ (320 <= c_width (canvas s) /\ 360 <= c_height (canvas s))%Z) /\
  (let e := {| devicePixelRatio := Some (1 # 400);
               wrap := Some {| rect_width := 0; rect_height := 0 |};
               isDark := false |} in
   let s := init sampleFonts e (loadedAt (Some (1 # 400))) in
   el_width (el s) = 0%Z /\ el_height (el s) = 0%Z /\
   c_width (canvas s) = 0%Z /\ c_height (canvas s) = 0%Z).
Proof.
  split.
  - repeat split; try (vm_compute; reflexivity);
      vm_compute; intros [H _]; apply H; reflexivity.
  - repeat split; vm_compute; reflexivity.
Qed.

(** C5 at the sample scene: a collapsed container on a HiDPI display. *)
Lemma fit_backing_store_min_witness :
  let e := {| devicePixelRatio := Some 2;
              wrap := Some {| rect_width := 0; rect_height := 0 |};
              isDark := true |} in
  let r := {| rect_width := 0; rect_height := 0 |} in
  let cl := {| cl_title := 1%nat; cl_subtitle := 2%nat |} in
  wrap e = Some r /\
  let s' := fitCanvasToWrap sampleFonts e 0%nat cl mountedScene in
  (320 <= cssWidth r /\ 360 <= cssHeight r)%Z /\
  (c_width (canvas s') = nextWidth e r /\
   c_height (canvas s') = nextHeight e r) /\
  ((320 <= c_width (canvas s') /\ 360 <= c_height (canvas s'))%Z /\
   (320 <= el_width (el s') /\ 360 <= el_height (el s'))%Z) /\
  ((0 < c_width (canvas s') /\ 0 < c_height (canvas s'))%Z /\
   (0 < el_width (el s') /\ 0 < el_height (el s'))%Z).
Proof.
  intros e r cl.
  assert (H1 : wrap e = Some r) by reflexivity.
  assert (H2 : 1 <= or_default (devicePixelRatio e) 1) by q_eval.
  assert (H3 : 1 / 320 <= or_default (devicePixelRatio e) 1) by q_eval.
  split; [exact H1 |].
  destruct (fit_backing_store_min sampleFonts e 0%nat cl mountedScene r H1)
    as (Hcss & Hc & Hmin & Hpos).
  exact (conj Hcss (conj Hc (conj (Hmin H2) (Hpos H3)))).
Defined.

(** C6 at the sample scene with three sprites: after the switch to the
    [performance] preset each label is what it was, with the preset's
    string and recomputed dimensions. *)
Lemma applyPreset_preserves_pose_witness :
  live sceneWithSprites 0%nat 1%nat 2%nat /\
  let s' := applyPreset sampleFonts performance sceneWithSprites in
  heap s' !! 1%nat
  = (fun o => initDimensions sampleFonts
                (set_text (title (PRESETS performance)) o))
      <$> heap sceneWithSprites !! 1%nat /\
  heap s' !! 2%nat
  = (fun o => initDimensions sampleFonts
                (set_text (subtitle (PRESETS performance)) o))
      <$> heap sceneWithSprites !! 2%nat.
Proof.
  assert (H1 : live sceneWithSprites 0%nat 1%nat 2%nat).
  { constructor; try (vm_compute; reflexivity).
    - repeat split; discriminate.
    - repeat split; vm_compute; reflexivity.
    - split; vm_compute; eexists; reflexivity.
    - vm_compute. repeat constructor. }
  split; [exact H1 |].
  destruct (applyPreset_preserves_pose sampleFonts performance sceneWithSprites)
    as (_ & _ & _ & _ & _ & Hlabels).
  exact (Hlabels 0%nat 1%nat 2%nat H1).
Defined.

(** C7 at the sample scene with three sprites. *)
Lemma exportPNG_preserves_objects_witness :
  Forall (fun o => (o < next_id sceneWithSprites)%nat)
    (objects (canvas sceneWithSprites)) /\
  let s' := exportPNG desktopEnv sceneWithSprites in
  objects (canvas s') = objects (canvas sceneWithSprites) /\
  (forall o, In o (objects (canvas sceneWithSprites)) ->
             heap s' !! o = heap sceneWithSprites !! o) /\
  (canvasRef sceneWithSprites = true ->
   In (CToDataURL (next_id sceneWithSprites :: objects (canvas sceneWithSprites)) 2)
      (newCalls sceneWithSprites s') /\
   obj_fill <$> heap s' !! next_id sceneWithSprites
     = Some (exportFill (isDark desktopEnv))).
Proof.
  assert (H : Forall (fun o => (o < next_id sceneWithSprites)%nat)
                (objects (canvas sceneWithSprites)))
    by (vm_compute; repeat constructor).
  split; [exact H |].
  exact (exportPNG_preserves_objects desktopEnv sceneWithSprites H).
Defined.

(** C9 on a 40x40 viewport, where both ranges collapse. *)
Lemma randomInRange_never_inverts_witness :
  0 <= 0.5 < 1 /\ 0 <= 0.25 < 1 /\
  maxLeft 40 40 photo < minLeft 40 40 photo /\
  p_left (placeImage 40 40 photo 0.5 0.25)
    == Qmax (minLeft 40 40 photo) (maxLeft 40 40 photo) /\
  p_top (placeImage 40 40 photo 0.5 0.25)
    == Qmax (minTop 40 40 photo) (maxTop 40 40 photo).
Proof.
  assert (H1 : 0 <= 0.5 < 1) by (split; q_eval).
  assert (H2 : 0 <= 0.25 < 1) by (split; q_eval).
  assert (H3 : maxLeft 40 40 photo < minLeft 40 40 photo) by q_eval.
  assert (H4 : maxTop 40 40 photo < minTop 40 40 photo) by q_eval.
  destruct (randomInRange_never_inverts 40 40 photo 0.5 0.25 H1 H2)
    as (_ & _ & Hx & Hy).
  repeat (split; [assumption |]).
  split; [exact (Hx H3) | exact (Hy H4)].
Defined.

(** C10 for an image that reports width 0 and no height. *)
Lemma scale_never_divides_by_zero_witness :
  0 < 800 /\ 0 < 600 /\
  non_negative (img_width brokenImage) /\
  non_negative (img_height brokenImage) /\
  (missing_or_zero (img_width brokenImage) -> iw brokenImage = 1) /\
  (missing_or_zero (img_height brokenImage) -> ih brokenImage = 1) /\
  ~ iw brokenImage == 0 /\ ~ ih brokenImage == 0 /\
  0 < scale 800 600 brokenImage <= 1.
Proof.
  assert (H1 : 0 < 800) by q_eval.
  assert (H2 : 0 < 600) by q_eval.
  assert (H3 : non_negative (img_width brokenImage)) by q_eval.
  assert (H4 : non_negative (img_height brokenImage)) by exact I.
  repeat (split; [assumption |]).
  exact (scale_never_divides_by_zero 800 600 brokenImage H1 H2 H3 H4).
Defined.

(** * Further properties of the component *)

(** ** The scene stays live and stacked through a whole session *)

Lemma userTransform_live (o : ObjId) (f : FabricObject -> FabricObject)
    (s : Scene) (bg t st : ObjId) :
  live s bg t st -> live (userTransform o f s) bg t st.
Proof.
  intros L. eapply live_transfer; [.. | exact L]; cbn; try reflexivity; auto.
  intros x Hx. apply is_Some_alter, Hx.
Qed.

Lemma userSelect_live (o : option ObjId) (s : Scene) (bg t st : ObjId) :
  live s bg t st -> live (userSelect o s) bg t st.
Proof.
  intros L. eapply live_transfer; [.. | exact L]; cbn; try reflexivity; auto.
Qed.

Lemma step_live (fonts : TextMetrics) (a : Action) (s : Scene)
    (bg t st : ObjId) :
  live s bg t st -> live (step fonts a s) bg t st.
Proof.
  intros L. destruct a; cbn.
  - apply onResize_live, L.
  - apply applyPreset_live, L.
  - apply applyTheme_live, L.
  - apply reset_live, L.
  - apply exportPNG_live, L.
  - apply addImageToCanvas_live, L.
  - apply userTransform_live, L.
  - apply userSelect_live, L.
Qed.

(** Mounting on any earlier scene (a first mount, or a remount after
    [cleanup]) creates three fresh objects and a live scene. *)
Lemma init_live_any (fonts : TextMetrics) (e : Env) (s0 : Scene) :
  live (init fonts e s0) (next_id s0) (S (next_id s0)) (S (S (next_id s0))).
Proof.
  unfold init. cbn -[fitCanvasToWrap].
  apply setReady_live, fitCanvasToWrap_live.
  constructor; cbn -[count_occ]; rewrite ?Nat.eqb_refl; cbn -[count_occ];
    try reflexivity.
  - repeat split; lia.
  - repeat split;
      repeat first [ rewrite count_occ_cons_eq by reflexivity
                   | rewrite count_occ_cons_neq by lia ];
      reflexivity.
  - split.
    + rewrite lookup_insert_ne by lia. rewrite lookup_insert_eq. eauto.
    + rewrite lookup_insert_eq. eauto.
  - repeat constructor; lia.
Qed.

Lemma live_sprites (s : Scene) (bg t st : ObjId) (sprites : list ObjId) :
  live s bg t st -> stacked s bg t st sprites ->
  ~ In bg sprites /\ ~ In t sprites /\ ~ In st sprites.
Proof.
  intros L Hs. unfold stacked in Hs.
  destruct (live_distinct _ _ _ _ L) as (Hbt & Hbs & Hts).
  destruct (live_once _ _ _ _ L) as (Cb & Ct & Cs).
  rewrite Hs in Cb, Ct, Cs.
  assert (forall x, count_occ Nat.eq_dec (bg :: sprites ++ [t; st]) x = 1%nat ->
                    (x = bg \/ x = t \/ x = st) -> ~ In x sprites) as Hkey.
  { intros x Hc Hx Hin.
    apply (count_occ_In Nat.eq_dec) in Hin.
    change (bg :: sprites ++ [t; st]) with ([bg] ++ sprites ++ [t; st]) in Hc.
    rewrite !count_occ_app in Hc.
    assert (1 <= count_occ Nat.eq_dec [bg] x
                 + count_occ Nat.eq_dec [t; st] x)%nat.
    { cbn. destruct (Nat.eq_dec t x), (Nat.eq_dec st x), (Nat.eq_dec bg x);
        lia. }
    lia. }
  repeat split; apply Hkey; auto.
Qed.

Lemma applyPreset_canvas (fonts : TextMetrics) (p : PresetKey) (s : Scene) :
  canvas (applyPreset fonts p s) = canvas s.
Proof.
  unfold applyPreset. cbn.
  destruct (canvasRef s), (titleRef s), (subtitleRef s); reflexivity.
Qed.

Lemma applyTheme_canvas (e : Env) (s : Scene) :
  canvas (applyTheme e s) = canvas s.
Proof.
  unfold applyTheme.
  destruct (canvasRef s), (titleRef s), (subtitleRef s); reflexivity.
Qed.

Lemma fitCanvasToWrap_objects (fonts : TextMetrics) (e : Env) (b : ObjId)
    (cl : LayoutClosure) (s : Scene) :
  objects (canvas (fitCanvasToWrap fonts e b cl s)) = objects (canvas s).
Proof.
  destruct (wrap e) as [r |] eqn:Hw.
  - destruct (fitCanvasToWrap_fields fonts e b cl s r Hw) as (_ & Hc & _).
    cbv zeta in Hc. rewrite Hc. reflexivity.
  - unfold fitCanvasToWrap. rewrite Hw. reflexivity.
Qed.

Lemma onResize_objects (fonts : TextMetrics) (e : Env) (s : Scene) :
  objects (canvas (onResize fonts e s)) = objects (canvas s).
Proof.
  unfold onResize. destruct (bgRef s); [| reflexivity].
  destruct (layoutRef s); [| reflexivity].
  apply fitCanvasToWrap_objects.
Qed.

Lemma filter_protected_stacked (bg t st : ObjId) (sprites : list ObjId) :
  ~ In bg sprites -> ~ In t sprites -> ~ In st sprites ->
  List.filter (protected bg t st) (bg :: sprites ++ [t; st]) = [bg; t; st].
Proof.
  intros Hb Ht Hs.
  assert (Hsp : List.filter (protected bg t st) sprites = []).
  { induction sprites as [| x l IH]; cbn; [reflexivity |].
    assert (Hx : protected bg t st x = false).
    { unfold protected.
      destruct (Nat.eqb_spec x bg) as [-> |]; [exfalso; apply Hb; left; reflexivity |].
      destruct (Nat.eqb_spec x t) as [-> |]; [exfalso; apply Ht; left; reflexivity |].
      destruct (Nat.eqb_spec x st) as [-> |]; [exfalso; apply Hs; left; reflexivity |].
      reflexivity. }
    rewrite Hx. apply IH; intros Hin; [apply Hb | apply Ht | apply Hs];
      right; exact Hin. }
  cbn. unfold protected at 1. rewrite Nat.eqb_refl. cbn.
  rewrite List.filter_app, Hsp. cbn.
  unfold protected. rewrite !Nat.eqb_refl, !orb_true_r. reflexivity.
Qed.

(** The sprite goes directly below the two labels, above every earlier
    sprite. *)
Lemma addImageToCanvas_stacked (im : DecodedImage) (random1 random2 : Q)
    (s : Scene) (bg t st : ObjId) (sprites : list ObjId) :
  live s bg t st -> stacked s bg t st sprites ->
  stacked (addImageToCanvas (Some im) random1 random2 s) bg t st
    (sprites ++ [next_id s]).
Proof.
  intros L Hs.
  destruct (live_sprites s bg t st sprites L Hs) as (Nb & Nt & Ns).
  destruct (live_distinct _ _ _ _ L) as (Hbt & Hbs & Hts).
  unfold stacked in *. unfold addImageToCanvas.
  rewrite (live_canvas _ _ _ _ L). cbn.
  destruct (getVisibleCanvasSize (canvas s)) as [cw ch]. cbn.
  rewrite (live_titleRef _ _ _ _ L), (live_subtitleRef _ _ _ _ L). cbn.
  rewrite Hs.
  replace ((bg :: sprites ++ [t; st]) ++ [next_id s])
    with ((bg :: sprites) ++ t :: [st; next_id s])
    by (cbn; rewrite <- app_assoc; reflexivity).
  rewrite removeFromArray_middle
    by (intros [E | Hin]; [congruence | exact (Nt Hin)]).
  replace (((bg :: sprites) ++ [st; next_id s]) ++ [t])
    with ((bg :: sprites) ++ st :: [next_id s; t])
    by (cbn; rewrite <- app_assoc; reflexivity).
  rewrite removeFromArray_middle
    by (intros [E | Hin]; [congruence | exact (Ns Hin)]).
  cbn. rewrite <- !app_assoc. reflexivity.
Qed.

Lemma step_stacked (fonts : TextMetrics) (a : Action) (s : Scene)
    (bg t st : ObjId) (sprites : list ObjId) :
  live s bg t st -> stacked s bg t st sprites ->
  exists sprites', stacked (step fonts a s) bg t st sprites'.
Proof.
  intros L Hs. unfold stacked in *. destruct a; cbn.
  - exists sprites. rewrite onResize_objects. exact Hs.
  - exists sprites. rewrite applyPreset_canvas. exact Hs.
  - exists sprites. rewrite applyTheme_canvas. exact Hs.
  - exists []. rewrite (reset_unfold fonts e s bg t st L).
    rewrite placeTextObjects_canvas.
    destruct (removeUnprotected_spec bg t st s) as [Ho _].
    change (objects (canvas (resetBeforeLayout fonts e t st
                               (removeUnprotected bg t st s))))
      with (objects (canvas (removeUnprotected bg t st s))).
    rewrite Ho, Hs.
    destruct (live_sprites s bg t st sprites L Hs) as (Nb & Nt & Ns).
    apply filter_protected_stacked; assumption.
  - exists sprites.
    rewrite exportPNG_objects
      by (apply fresh_not_on_canvas, (live_fresh _ _ _ _ L)).
    exact Hs.
  - destruct img as [im |].
    + eexists. apply (addImageToCanvas_stacked im random1 random2 s bg t st
                        sprites L Hs).
    + exists sprites. unfold addImageToCanvas.
      destruct (negb (canvasRef s)); exact Hs.
  - exists sprites. exact Hs.
  - exists sprites. exact Hs.
Qed.

Lemma placeTextObjects_heap_other (fonts : TextMetrics) (cl : LayoutClosure)
    (s : Scene) (o : ObjId) :
  o <> cl_title cl -> o <> cl_subtitle cl ->
  heap (placeTextObjects fonts cl s) !! o = heap s !! o.
Proof.
  intros H1 H2. unfold placeTextObjects.
  destruct (getVisibleCanvasSize (canvas s)) as [cw ch].
  destruct (negb (truthy cw) || negb (truthy ch)); [reflexivity |].
  cbn. rewrite !lookup_alter_ne by congruence. reflexivity.
Qed.

Lemma fitCanvasToWrap_heap_bg (fonts : TextMetrics) (e : Env) (bg : ObjId)
    (cl : LayoutClosure) (s : Scene) (r : DOMRect) :
  wrap e = Some r -> bg <> cl_title cl -> bg <> cl_subtitle cl ->
  heap (fitCanvasToWrap fonts e bg cl s) !! bg
  = set_box 0 0 (inject_Z (nextWidth e r)) (inject_Z (nextHeight e r))
      <$> heap s !! bg.
Proof.
  intros Hw H1 H2. unfold fitCanvasToWrap. rewrite Hw. cbv zeta.
  rewrite placeTextObjects_heap_other by assumption.
  generalize (nextWidth e r) (nextHeight e r). intros nw nh.
  destruct (Z.eqb (el_width (el s)) nw); cbn;
    destruct (Z.eqb (el_height (el s)) nh); cbn;
    apply lookup_alter_eq.
Qed.

Lemma addImageToCanvas_heap_other (img : option DecodedImage)
    (random1 random2 : Q) (s : Scene) (o : ObjId) :
  o <> next_id s ->
  heap (addImageToCanvas img random1 random2 s) !! o = heap s !! o.
Proof.
  intros Hne. unfold addImageToCanvas.
  destruct (negb (canvasRef s)); [reflexivity |].
  destruct img as [im |]; [| reflexivity].
  cbn. destruct (getVisibleCanvasSize (canvas s)) as [cw ch]. cbn.
  destruct (titleRef s), (subtitleRef s); cbn;
    rewrite lookup_alter_ne, lookup_insert_ne by congruence; reflexivity.
Qed.

Lemma reset_heap_other (fonts : TextMetrics) (e : Env) (s : Scene)
    (bg t st o : ObjId) :
  live s bg t st -> o <> t -> o <> st ->
  heap (reset fonts e s) !! o = heap s !! o.
Proof.
  intros L H1 H2. rewrite (reset_unfold fonts e s bg t st L).
  rewrite placeTextObjects_heap_other by assumption.
  destruct (removeUnprotected_spec bg t st s) as [_ Hsf].
  unfold resetBeforeLayout. cbn.
  rewrite !lookup_alter_ne by congruence.
  rewrite (sf_heap _ _ Hsf). reflexivity.
Qed.

Lemma applyPreset_heap_other (fonts : TextMetrics) (p : PresetKey) (s : Scene)
    (o : ObjId) :
  titleRef s <> Some o -> subtitleRef s <> Some o ->
  heap (applyPreset fonts p s) !! o = heap s !! o.
Proof.
  intros H1 H2. unfold applyPreset. cbn.
  destruct (canvasRef s); [| reflexivity].
  destruct (titleRef s) as [t |]; [| reflexivity].
  destruct (subtitleRef s) as [st |]; [| reflexivity].
  cbn. rewrite !lookup_alter_ne by congruence. reflexivity.
Qed.

Lemma applyTheme_heap_other (e : Env) (s : Scene) (o : ObjId) :
  titleRef s <> Some o -> subtitleRef s <> Some o ->
  heap (applyTheme e s) !! o = heap s !! o.
Proof.
  intros H1 H2. unfold applyTheme.
  destruct (canvasRef s); [| reflexivity].
  destruct (titleRef s) as [t |]; [| reflexivity].
  destruct (subtitleRef s) as [st |]; [| reflexivity].
  cbn. rewrite !lookup_alter_ne by congruence. reflexivity.
Qed.

Lemma isBackground_set_box (w h : Q) (o : FabricObject) :
  isBackground o -> isBackground (set_box 0 0 w h o).
Proof. unfold isBackground. cbn. tauto. Qed.

Lemma step_background (fonts : TextMetrics) (a : Action) (s : Scene)
    (bg t st : ObjId) :
  live s bg t st ->
  (exists o, heap s !! bg = Some o /\ isBackground o) ->
  exists o, heap (step fonts a s) !! bg = Some o /\ isBackground o.
Proof.
  intros L (o & Ho & Hb).
  destruct (live_distinct _ _ _ _ L) as (Hbt & Hbs & Hts).
  destruct (live_on_canvas s bg t st L) as (Lb & _).
  assert (Rt : titleRef s <> Some bg)
    by (rewrite (live_titleRef _ _ _ _ L); congruence).
  assert (Rs : subtitleRef s <> Some bg)
    by (rewrite (live_subtitleRef _ _ _ _ L); congruence).
  destruct a; cbn.
  - unfold onResize.
    rewrite (live_bgRef _ _ _ _ L), (live_layoutRef _ _ _ _ L).
    destruct (wrap e) as [r |] eqn:Hw.
    + rewrite (fitCanvasToWrap_heap_bg fonts e bg _ s r Hw) by (cbn; congruence).
      rewrite Ho. cbn. eexists. split; [reflexivity |].
      apply isBackground_set_box, Hb.
    + unfold fitCanvasToWrap. rewrite Hw. eauto.
  - rewrite applyPreset_heap_other by assumption. eauto.
  - rewrite applyTheme_heap_other by assumption. eauto.
  - rewrite (reset_heap_other fonts e s bg t st bg L) by congruence. eauto.
  - rewrite exportPNG_heap by lia. eauto.
  - rewrite addImageToCanvas_heap_other by lia. eauto.
  - unfold userTransform. cbn. rewrite lookup_alter.
    destruct (decide (o0 = bg)) as [-> |]; [| eauto].
    rewrite Ho. cbn.
    destruct Hb as (Hk & Hsel & Hrest). rewrite Hsel. eexists.
    split; [reflexivity |]. repeat split; tauto.
  - eauto.
Qed.

(** The invariant of a session and its preservation. *)
Lemma run_invariant (fonts : TextMetrics) (actions : list Action) :
  forall (s : Scene) (bg t st : ObjId),
    live s bg t st ->
    (exists sprites, stacked s bg t st sprites) ->
    (exists o, heap s !! bg = Some o /\ isBackground o) ->
    live (run fonts actions s) bg t st /\
    (exists sprites, stacked (run fonts actions s) bg t st sprites) /\
    (exists o, heap (run fonts actions s) !! bg = Some o /\ isBackground o).
Proof.
  induction actions as [| a actions IH]; intros s bg t st L Hs Hb; cbn.
  - auto.
  - destruct Hs as [sprites Hs]. apply IH.
    + apply step_live, L.
    + apply (step_stacked fonts a s bg t st sprites L Hs).
    + apply (step_background fonts a s bg t st L Hb).
Qed.

Lemma init_stacked (fonts : TextMetrics) (e : Env) (s0 : Scene) :
  stacked (init fonts e s0) (next_id s0) (S (next_id s0))
    (S (S (next_id s0))) [].
Proof.
  unfold stacked, init. cbn -[fitCanvasToWrap].
  rewrite fitCanvasToWrap_objects. cbn.
  rewrite Nat.eqb_refl. reflexivity.
Qed.

Lemma init_background (fonts : TextMetrics) (e : Env) (s0 : Scene) :
  exists o, heap (init fonts e s0) !! next_id s0 = Some o /\ isBackground o.
Proof.
  unfold init. cbn -[fitCanvasToWrap].
  set (pre := set_refs _ _ _ _ _).
  assert (Hpre : heap pre !! next_id s0
                 = Some (newRect 0 0 2000 2000 "rgba(0,0,0,0)")).
  { subst pre. cbn. rewrite !lookup_insert_ne by lia.
    apply lookup_insert_eq. }
  assert (Hbg : isBackground (newRect 0 0 2000 2000 "rgba(0,0,0,0)"))
    by (unfold isBackground; cbn; tauto).
  destruct (wrap e) as [r |] eqn:Hw.
  - rewrite (fitCanvasToWrap_heap_bg fonts e _ _ pre r Hw) by (cbn; lia).
    rewrite Hpre. cbn. eexists. split; [reflexivity |].
    apply isBackground_set_box, Hbg.
  - unfold fitCanvasToWrap. rewrite Hw. eauto.
Qed.

(** X1.  Through any session of resizes, preset and theme changes,
    resets, exports, added images and user manipulation, started by
    mounting on any earlier scene, the canvas holds exactly one
    background, one title and one subtitle, stacked as: background at the
    bottom, then the sprites, then the title, then the subtitle on top. *)
Theorem session_keeps_stacking (fonts : TextMetrics) (e : Env) (s0 : Scene)
    (actions : list Action) :
  let bg := next_id s0 in
  let t := S bg in
  let st := S t in
  let s := run fonts actions (init fonts e s0) in
  live s bg t st /\
  exists sprites,
    stacked s bg t st sprites /\
    ~ In bg sprites /\ ~ In t sprites /\ ~ In st sprites.
Proof.
  intros bg t st s.
  destruct (run_invariant fonts actions (init fonts e s0) bg t st)
    as (L & [sprites Hs] & _).
  - apply init_live_any.
  - exists []. apply init_stacked.
  - apply init_background.
  - split; [exact L |]. exists sprites. split; [exact Hs |].
    apply (live_sprites _ _ _ _ _ L Hs).
Qed.

(** X2.  Through any such session the background object stays what the
    mount made it -- an unselectable, non-evented transparent rectangle at
    the origin, unscaled and unrotated -- and stays the bottommost object
    of the canvas: no handler and no user manipulation recolours, moves
    or raises it. *)
Theorem session_keeps_background (fonts : TextMetrics) (e : Env) (s0 : Scene)
    (actions : list Action) :
  let bg := next_id s0 in
  let s := run fonts actions (init fonts e s0) in
  (exists o, heap s !! bg = Some o /\ isBackground o) /\
  (exists above, objects (canvas s) = bg :: above).
Proof.
  intros bg s.
  destruct (run_invariant fonts actions (init fonts e s0) bg (S bg) (S (S bg)))
    as (_ & [sprites Hs] & Hb).
  - apply init_live_any.
  - exists []. apply init_stacked.
  - apply init_background.
  - split; [exact Hb |]. eexists. exact Hs.
Qed.

(** X3.  In a live, stacked scene [addImageToCanvas] puts the new sprite
    directly below the title and the subtitle and above every earlier
    sprite, keeps the earlier objects in their order, and changes none of
    them in the store. *)
Theorem addImageToCanvas_keeps_earlier_objects (im : DecodedImage)
    (random1 random2 : Q) (s : Scene) (bg t st : ObjId)
    (sprites : list ObjId) :
  live s bg t st -> stacked s bg t st sprites ->
  let s' := addImageToCanvas (Some im) random1 random2 s in
  objects (canvas s') = bg :: sprites ++ [next_id s; t; st] /\
  ~ In (next_id s) (objects (canvas s)) /\
  (forall o, In o (objects (canvas s)) -> heap s' !! o = heap s !! o).
Proof.
  intros L Hs s'. subst s'.
  pose proof (addImageToCanvas_stacked im random1 random2 s bg t st sprites L Hs)
    as Hs'.
  pose proof (fresh_not_on_canvas s (live_fresh _ _ _ _ L)) as Hn.
  unfold stacked in Hs'. rewrite Hs', <- app_assoc.
  split; [reflexivity |]. split; [exact Hn |].
  intros o Ho. apply addImageToCanvas_heap_other. intros ->. exact (Hn Ho).
Qed.

(** ** Theme and preset *)

Lemma withoutFill_set_fill (c : string) (o : FabricObject) :
  withoutFill (set_fill c o) = withoutFill o.
Proof. reflexivity. Qed.

(** X4.  The theme effect changes nothing but the fill of the two labels:
    every object keeps all its other properties, objects other than the
    labels are untouched, the canvas is unchanged; and in a live scene
    the title and the subtitle end up with the theme's two colours. *)
Theorem applyTheme_changes_fill_only (e : Env) (s : Scene) :
  (forall o, withoutFill <$> heap (applyTheme e s) !! o
             = withoutFill <$> heap s !! o) /\
  (forall o, titleRef s <> Some o -> subtitleRef s <> Some o ->
             heap (applyTheme e s) !! o = heap s !! o) /\
  canvas (applyTheme e s) = canvas s /\
  (forall bg t st, live s bg t st ->
     obj_fill <$> heap (applyTheme e s) !! t = Some (titleFill (isDark e)) /\
     obj_fill <$> heap (applyTheme e s) !! st
       = Some (subtitleFill (isDark e))).
Proof.
  split; [| split; [| split]].
  - intros o. unfold applyTheme.
    destruct (canvasRef s); [| reflexivity].
    destruct (titleRef s) as [t |]; [| reflexivity].
    destruct (subtitleRef s) as [st |]; [| reflexivity].
    cbn. rewrite !lookup_alter_preserves; auto using withoutFill_set_fill.
  - intros o. apply applyTheme_heap_other.
  - apply applyTheme_canvas.
  - intros bg t st L.
    destruct (live_distinct _ _ _ _ L) as (_ & _ & Hts).
    destruct (live_labels _ _ _ _ L) as ([ot Hot] & [ost Host]).
    unfold applyTheme.
    rewrite (live_canvas _ _ _ _ L), (live_titleRef _ _ _ _ L),
      (live_subtitleRef _ _ _ _ L). cbn.
    rewrite lookup_alter_ne by congruence.
    rewrite !lookup_alter_eq, lookup_alter_ne by congruence.
    rewrite Hot, Host. split; reflexivity.
Qed.

Lemma applyPreset_text (fonts : TextMetrics) (p : PresetKey) (s : Scene)
    (bg t st : ObjId) :
  live s bg t st ->
  obj_text <$> heap (applyPreset fonts p s) !! t = Some (title (PRESETS p)) /\
  obj_text <$> heap (applyPreset fonts p s) !! st
    = Some (subtitle (PRESETS p)) /\
  preset (applyPreset fonts p s) = p.
Proof.
  intros L.
  destruct (live_distinct _ _ _ _ L) as (_ & _ & Hts).
  destruct (live_labels _ _ _ _ L) as ([ot Hot] & [ost Host]).
  unfold applyPreset. cbn.
  rewrite (live_canvas _ _ _ _ L), (live_titleRef _ _ _ _ L),
    (live_subtitleRef _ _ _ _ L). cbn.
  rewrite !lookup_alter.
  repeat (destruct (decide _) as [? | ?]; try congruence).
  rewrite Hot, Host. cbn. unfold initDimensions. cbn.
  destruct (obj_kind ot), (obj_kind ost); repeat split.
Qed.

(** X5.  In a live scene, whatever presets were applied before, after
    [applyPreset(p)] the title and the subtitle read exactly the pair of
    preset [p], and the selected preset is [p]: applying a preset twice,
    or going through other presets and back, restores its strings. *)
Theorem applyPreset_round_trip (fonts : TextMetrics) (history : list PresetKey)
    (p : PresetKey) (s : Scene) (bg t st : ObjId) :
  live s bg t st ->
  let s' := applyPreset fonts p
              (fold_left (fun acc q => applyPreset fonts q acc) history s) in
  obj_text <$> heap s' !! t = Some (title (PRESETS p)) /\
  obj_text <$> heap s' !! st = Some (subtitle (PRESETS p)) /\
  preset s' = p.
Proof.
  intros L s'. subst s'. apply (applyPreset_text fonts p _ bg t st).
  revert s L. induction history as [| q history IH]; intros s L; cbn.
  - exact L.
  - apply IH, applyPreset_live, L.
Qed.

(** ** Reset is idempotent *)

Lemma removeUnprotected_ready (bg t st : ObjId) (s : Scene) :
  ready (removeUnprotected bg t st s) = ready s.
Proof.
  unfold removeUnprotected. generalize (objects (canvas s)). intros l.
  revert s. induction l as [| x l IH]; intros s; cbn; [reflexivity |].
  rewrite IH. destruct (negb _ && negb _ && negb _); reflexivity.
Qed.

Lemma filter_protected_idem (bg t st : ObjId) (l : list ObjId) :
  List.filter (protected bg t st) (List.filter (protected bg t st) l)
  = List.filter (protected bg t st) l.
Proof.
  induction l as [| x l IH]; cbn; [reflexivity |].
  destruct (protected bg t st x) eqn:E; cbn; rewrite ?E, IH; reflexivity.
Qed.

Section ResetAgain.

Variable fonts : TextMetrics.

Lemma reset_frame (e : Env) (s : Scene) (bg t st : ObjId) :
  live s bg t st ->
  let s' := reset fonts e s in
  el s' = el s /\ next_id s' = next_id s /\
  canvasRef s' = canvasRef s /\ bgRef s' = bgRef s /\
  titleRef s' = titleRef s /\ subtitleRef s' = subtitleRef s /\
  layoutRef s' = layoutRef s /\ preset s' = ux /\ ready s' = ready s.
Proof.
  intros L s'. subst s'. rewrite (reset_unfold fonts e s bg t st L).
  destruct (removeUnprotected_spec bg t st s) as [_ Hsf]. destruct Hsf.
  pose proof (removeUnprotected_ready bg t st s) as Hr.
  unfold placeTextObjects.
  destruct (getVisibleCanvasSize _) as [cw ch].
  destruct (negb (truthy cw) || negb (truthy ch)); cbn;
    repeat split; assumption.
Qed.

Lemma reset_canvas (e : Env) (s : Scene) (bg t st : ObjId) :
  live s bg t st ->
  canvas (reset fonts e s)
  = {| c_width := c_width (canvas s); c_height := c_height (canvas s);
       c_zoom := c_zoom (canvas s);
       objects := List.filter (protected bg t st) (objects (canvas s));
       activeObject := None |}.
Proof.
  intros L. rewrite (reset_unfold fonts e s bg t st L).
  rewrite placeTextObjects_canvas.
  destruct (removeUnprotected_spec bg t st s) as [Ho Hsf]. destruct Hsf.
  unfold resetBeforeLayout. cbn. unfold set_active. congruence.
Qed.

Lemma reset_heap (e : Env) (s : Scene) (bg t st : ObjId) :
  live s bg t st ->
  heap (reset fonts e s)
  = resetStore fonts e t st (getVisibleCanvasSize (canvas s)) (heap s).
Proof.
  intros L. rewrite (reset_unfold fonts e s bg t st L).
  destruct (removeUnprotected_spec bg t st s) as [_ Hsf].
  pose proof (getVisibleCanvasSize_sameFrame _ _ Hsf) as Hv.
  pose proof (sf_heap _ _ Hsf) as Hh.
  set (s1 := removeUnprotected bg t st s) in *.
  assert (Hv2 : getVisibleCanvasSize (canvas (resetBeforeLayout fonts e t st s1))
                = getVisibleCanvasSize (canvas s))
    by (rewrite <- Hv; reflexivity).
  unfold resetStore.
  destruct (getVisibleCanvasSize (canvas s)) as [cw ch]. cbn [fst snd].
  destruct (negb (truthy cw) || negb (truthy ch)) eqn:Hz.
  - rewrite (placeTextObjects_skip fonts _ _ cw ch Hv2 Hz).
    unfold resetBeforeLayout. cbn. rewrite Hh. reflexivity.
  - apply orb_false_elim in Hz as [Hw Hh'].
    apply negb_false_iff in Hw, Hh'.
    rewrite (placeTextObjects_heap fonts _ _ cw ch Hv2 Hw Hh').
    unfold resetBeforeLayout. cbn. rewrite Hh. reflexivity.
Qed.

Lemma reset_props_absorbed (txt c : string) (o : FabricObject) :
  set_reset_props txt c (initDimensions fonts (set_reset_props txt c o))
  = initDimensions fonts (set_reset_props txt c o).
Proof.
  unfold initDimensions.
  destruct o as [[] ? ? ? ? ? ? ? ? ? ? ? ? ? ?]; reflexivity.
Qed.

Lemma reset_props_kept (txt c : string) (l t w : Q) (o : FabricObject) :
  set_reset_props txt c
    (initDimensions fonts
       (set_geometry l t w (initDimensions fonts (set_reset_props txt c o))))
  = initDimensions fonts
      (set_geometry l t w (initDimensions fonts (set_reset_props txt c o))).
Proof.
  unfold initDimensions.
  destruct o as [[] ? ? ? ? ? ? ? ? ? ? ? ? ? ?]; reflexivity.
Qed.

Lemma reset_layout_absorbed (txt c : string) (l t w : Q) (o : FabricObject) :
  initDimensions fonts
    (set_geometry l t w
       (initDimensions fonts
          (set_reset_props txt c
             (initDimensions fonts
                (set_geometry l t w
                   (initDimensions fonts (set_reset_props txt c o)))))))
  = initDimensions fonts
      (set_geometry l t w (initDimensions fonts (set_reset_props txt c o))).
Proof.
  rewrite reset_props_kept, initDimensions_idem. apply layout_absorbs.
Qed.

Lemma two_key_chain (f1 g1 f2 g2 : FabricObject -> FabricObject)
    (t st : ObjId) (h : gmap nat FabricObject) :
  t <> st ->
  alter g2 st (alter f2 t (alter g1 st (alter f1 t h)))
  = alter (g2 ∘ g1) st (alter (f2 ∘ f1) t h).
Proof.
  intros Hts.
  rewrite (alter_alter_ne f2 g1) by exact Hts.
  rewrite alter_alter_eq, alter_alter_eq. reflexivity.
Qed.

Lemma two_key_ext (f f' g g' : FabricObject -> FabricObject)
    (t st : ObjId) (h : gmap nat FabricObject) :
  (forall o, f o = f' o) -> (forall o, g o = g' o) ->
  alter g st (alter f t h) = alter g' st (alter f' t h).
Proof.
  intros Hf Hg.
  rewrite (alter_ext f f' h t) by (intros; apply Hf).
  apply alter_ext. intros; apply Hg.
Qed.

Lemma resetStore_idem (e : Env) (t st : ObjId) (vs : Q * Q)
    (h : gmap nat FabricObject) :
  t <> st ->
  resetStore fonts e t st vs (resetStore fonts e t st vs h) = resetStore fonts e t st vs h.
Proof.
  intros Hts. unfold resetStore.
  destruct (negb (truthy (fst vs)) || negb (truthy (snd vs))).
  - rewrite !two_key_chain by exact Hts.
    apply two_key_ext; intros o; unfold compose;
      rewrite reset_props_absorbed; apply initDimensions_idem.
  - rewrite !two_key_chain by exact Hts.
    apply two_key_ext; intros o; unfold compose;
      apply reset_layout_absorbed.
Qed.

(** X6.  In a live scene [reset] is idempotent: a second [reset] under
    the same theme leaves the element, the canvas, the object store, the
    refs and the selected preset exactly as the first left them (only the
    log of calls grows).  From a stacked scene the first [reset] already
    leaves exactly background, title and subtitle, in that order. *)
Theorem reset_idempotent (e : Env) (s : Scene) (bg t st : ObjId) :
  live s bg t st ->
  observable (reset fonts e (reset fonts e s)) = observable (reset fonts e s) /\
  (forall sprites, stacked s bg t st sprites ->
                   objects (canvas (reset fonts e s)) = [bg; t; st]).
Proof.
  intros L. pose proof (reset_live fonts e s bg t st L) as L'.
  destruct (live_distinct _ _ _ _ L) as (_ & _ & Hts).
  split.
  - destruct (reset_frame e (reset fonts e s) bg t st L')
      as (H1 & H2 & H3 & H4 & H5 & H6 & H7 & H8 & H9).
    destruct (reset_frame e s bg t st L) as (_ & _ & _ & _ & _ & _ & _ & H8' & _).
    cbv zeta in *.
    assert (Hc : canvas (reset fonts e (reset fonts e s))
                 = canvas (reset fonts e s)).
    { rewrite (reset_canvas e (reset fonts e s) bg t st L').
      rewrite (reset_canvas e s bg t st L). cbn.
      rewrite filter_protected_idem. reflexivity. }
    assert (Hh : heap (reset fonts e (reset fonts e s))
                 = heap (reset fonts e s)).
    { rewrite (reset_heap e (reset fonts e s) bg t st L').
      rewrite (reset_heap e s bg t st L).
      replace (getVisibleCanvasSize (canvas (reset fonts e s)))
        with (getVisibleCanvasSize (canvas s)).
      - apply resetStore_idem, Hts.
      - rewrite (reset_canvas e s bg t st L). reflexivity. }
    unfold observable. congruence.
  - intros sprites Hs.
    rewrite (reset_canvas e s bg t st L). cbn. unfold stacked in Hs.
    rewrite Hs.
    destruct (live_sprites s bg t st sprites L Hs) as (Nb & Nt & Ns).
    apply filter_protected_stacked; assumption.
Qed.

End ResetAgain.

(** ** The visible size of a fitted scene, and sprites added to it *)

Lemma floor_scaled_bounds (w : Z) (d : Q) :
  1 <= d ->
  let nw := Math_floor (inject_Z w * d) in
  inject_Z w - 1 < inject_Z nw / d /\ inject_Z nw / d <= inject_Z w.
Proof.
  intros Hd nw. subst nw. unfold Math_floor.
  pose proof (Qfloor_le (inject_Z w * d)) as Hlo.
  pose proof (Qlt_floor (inject_Z w * d)) as Hhi.
  rewrite inject_Z_plus in Hhi. change (inject_Z 1) with 1 in Hhi.
  set (x := inject_Z (Qfloor (inject_Z w * d))) in *.
  split.
  - apply Qlt_shift_div_l; [lra | nra].
  - apply Qle_shift_div_r; [lra | nra].
Qed.

Lemma or_default_id (d : Q) : 1 <= d -> or_default (Some d) 1 = d.
Proof.
  intros Hd. cbn. destruct (truthy d) eqn:E; [reflexivity |].
  apply truthy_false in E. lra.
Qed.

Lemma fit_visible_bounds (fonts : TextMetrics) (e : Env) (bg : ObjId)
    (cl : LayoutClosure) (s : Scene) (r : DOMRect) :
  wrap e = Some r ->
  1 <= or_default (devicePixelRatio e) 1 ->
  let vs := getVisibleCanvasSize (canvas (fitCanvasToWrap fonts e bg cl s)) in
  (inject_Z (cssWidth r) - 1 < fst vs <= inject_Z (cssWidth r)) /\
  (inject_Z (cssHeight r) - 1 < snd vs <= inject_Z (cssHeight r)).
Proof.
  intros Hw Hd vs. subst vs.
  destruct (fitCanvasToWrap_fields fonts e bg cl s r Hw) as (_ & Hc & _).
  cbv zeta in Hc. rewrite Hc. unfold getVisibleCanvasSize.
  cbn [c_width c_height c_zoom fst snd].
  pose proof (effectiveDpr_ge_1 _ Hd) as Hd'.
  rewrite (or_default_id _ Hd'). unfold nextWidth, nextHeight.
  split; apply floor_scaled_bounds, Hd'.
Qed.

(** X7.  After a fit with a device pixel ratio that is missing, zero or
    at least 1, the visible size the component computes back from the
    backing store ([canvas size / zoom]) is at most the clamped CSS size
    and less than one unit below it, on each axis; it is exactly the CSS
    size when the effective ratio is a whole number (1 or 2). *)
Theorem fit_visible_size (fonts : TextMetrics) (e : Env) (bg : ObjId)
    (cl : LayoutClosure) (s : Scene) (r : DOMRect) :
  wrap e = Some r ->
  1 <= or_default (devicePixelRatio e) 1 ->
  let vs := getVisibleCanvasSize (canvas (fitCanvasToWrap fonts e bg cl s)) in
  (inject_Z (cssWidth r) - 1 < fst vs <= inject_Z (cssWidth r)) /\
  (inject_Z (cssHeight r) - 1 < snd vs <= inject_Z (cssHeight r)) /\
  (forall k : Z, effectiveDpr (devicePixelRatio e) == inject_Z k ->
     fst vs == inject_Z (cssWidth r) /\ snd vs == inject_Z (cssHeight r)).
Proof.
  intros Hw Hd vs. subst vs.
  destruct (fitCanvasToWrap_fields fonts e bg cl s r Hw) as (_ & Hc & _).
  cbv zeta in Hc. rewrite Hc. unfold getVisibleCanvasSize.
  cbn [c_width c_height c_zoom fst snd].
  pose proof (effectiveDpr_ge_1 _ Hd) as Hd'.
  rewrite (or_default_id _ Hd'). unfold nextWidth, nextHeight.
  set (d := effectiveDpr (devicePixelRatio e)) in *.
  split; [apply floor_scaled_bounds, Hd' |].
  split; [apply floor_scaled_bounds, Hd' |].
  intros k Hk.
  assert (Hfl : forall w : Z,
             inject_Z (Math_floor (inject_Z w * d)) / d == inject_Z w).
  { intros w. unfold Math_floor.
    assert (E : inject_Z w * d == inject_Z (w * k))
      by (rewrite inject_Z_mult, Hk; reflexivity).
    rewrite E, Qfloor_Z, inject_Z_mult, <- Hk.
    field. lra. }
  split; apply Hfl.
Qed.

(** One axis of the placement, for any viewport side of at least
    [2 * 24 / 0.68] units. *)
Lemma centred_extent_within_any (dim w d sc random : Q) :
  0 <= w <= d -> 0 <= sc -> d * sc <= dim * 0.32 -> 48 <= dim * 0.68 ->
  0 <= random < 1 ->
  let lo := d * sc / 2 + margin in
  let hi := dim - d * sc / 2 - margin in
  within (extent OriginCenter (randomInRange random lo hi) (w * sc))
    margin (dim - margin).
Proof.
  intros [Hw0 Hwd] Hsc Hr Hdim [Hr0 Hr1] lo hi.
  assert (Hws : 0 <= w * sc) by nra.
  assert (Hwd' : w * sc <= d * sc) by nra.
  subst lo hi. unfold margin.
  set (x := d * sc) in *. set (y := w * sc) in *.
  set (lo := x / 2 + 24). set (hi := dim - x / 2 - 24).
  assert (Hfit : lo <= hi) by (subst lo hi; lra_halves).
  pose proof (randomInRange_bounds random lo hi Hr0 Hr1) as [Hlo Hhi].
  assert (Hmax : Qmax lo hi == hi) by (apply Q.max_r; exact Hfit).
  rewrite Hmax in Hhi.
  unfold within, extent. cbn [fst snd].
  subst lo hi. split; lra_halves.
Qed.

(** X8.  Fit, then add: in a live scene, after a resize pass over any
    container (degenerate ones included) with a device pixel ratio that
    is missing, zero or at least 1, every image added lands with its
    bounding box inside the visible viewport shrunk by the 24-unit
    margin, for all samples in [0,1) -- although the visible size itself
    may then be slightly below 320x360. *)
Theorem addImage_after_fit_within_viewport (fonts : TextMetrics) (e : Env)
    (r : DOMRect) (s : Scene) (bg t st : ObjId) (im : DecodedImage)
    (random1 random2 : Q) :
  live s bg t st ->
  wrap e = Some r ->
  1 <= or_default (devicePixelRatio e) 1 ->
  non_negative (img_width im) -> non_negative (img_height im) ->
  0 <= random1 < 1 -> 0 <= random2 < 1 ->
  let s1 := onResize fonts e s in
  let vs := getVisibleCanvasSize (canvas s1) in
  let s2 := addImageToCanvas (Some im) random1 random2 s1 in
  exists sprite,
    heap s2 !! next_id s1 = Some sprite /\
    within (bounds_x sprite) margin (fst vs - margin) /\
    within (bounds_y sprite) margin (snd vs - margin).
Proof.
  intros L Hw Hd Hiw Hih Hr1 Hr2 s1 vs s2.
  assert (L1 : live s1 bg t st) by apply onResize_live, L.
  assert (Hs1 : s1 = fitCanvasToWrap fonts e bg
                       {| cl_title := t; cl_subtitle := st |} s).
  { subst s1. unfold onResize.
    rewrite (live_bgRef _ _ _ _ L), (live_layoutRef _ _ _ _ L). reflexivity. }
  destruct (fit_visible_bounds fonts e bg {| cl_title := t; cl_subtitle := st |}
              s r Hw Hd) as (Hx & Hy).
  rewrite <- Hs1 in Hx, Hy. fold vs in Hx, Hy.
  pose proof (cssWidth_min r) as Hcw. pose proof (cssHeight_min r) as Hch.
  rewrite Zle_Qle in Hcw. rewrite Zle_Qle in Hch.
  change (inject_Z 320) with 320 in Hcw. change (inject_Z 360) with 360 in Hch.
  destruct (addImageToCanvas_sprite im random1 random2 s1 (fst vs) (snd vs))
    as (Hsprite & _).
  { apply L1. }
  { subst vs. destruct (getVisibleCanvasSize (canvas s1)); reflexivity. }
  fold s2 in Hsprite. eexists. split; [exact Hsprite |].
  assert (Hiw' : 0 < iw im)
    by (apply or_default_pos, non_negative_spec, Hiw).
  assert (Hih' : 0 < ih im)
    by (apply or_default_pos, non_negative_spec, Hih).
  assert (Hsc : 0 <= scale (fst vs) (snd vs) im).
  { apply Qlt_le_weak, imageScale_pos; try assumption; lra. }
  pose proof (default_le_or_default (img_width im) (non_negative_spec _ Hiw))
    as Hwd.
  pose proof (default_le_or_default (img_height im) (non_negative_spec _ Hih))
    as Hhd.
  split.
  - apply (centred_extent_within_any (fst vs) (default 0 (img_width im))
             (iw im) (scale (fst vs) (snd vs) im) random1 Hwd Hsc
             (imageScale_width _ _ _ _ Hiw')); [lra | exact Hr1].
  - apply (centred_extent_within_any (snd vs) (default 0 (img_height im))
             (ih im) (scale (fst vs) (snd vs) im) random2 Hhd Hsc
             (imageScale_height _ _ _ _ Hih')); [lra | exact Hr2].
Qed.

(** ** The scale of a sprite *)

(** X9.  The uniform scale [addImageToCanvas] gives an image is the
    largest one that neither upscales the image nor lets it exceed 32% of
    the visible width or of the visible height: it satisfies the three
    bounds, and every factor that satisfies them is at most the scale. *)
Theorem scale_is_largest_fit (canvasWidth canvasHeight : Q)
    (im : DecodedImage) :
  non_negative (img_width im) -> non_negative (img_height im) ->
  let k := scale canvasWidth canvasHeight im in
  k <= 1 /\
  renderedW canvasWidth canvasHeight im <= canvasWidth * 0.32 /\
  renderedH canvasWidth canvasHeight im <= canvasHeight * 0.32 /\
  (forall k' : Q,
     k' <= 1 -> iw im * k' <= canvasWidth * 0.32 ->
     ih im * k' <= canvasHeight * 0.32 -> k' <= k).
Proof.
  intros Hiw Hih k. subst k. unfold renderedW, renderedH, scale.
  assert (Hiw' : 0 < iw im)
    by (apply or_default_pos, non_negative_spec, Hiw).
  assert (Hih' : 0 < ih im)
    by (apply or_default_pos, non_negative_spec, Hih).
  split; [apply imageScale_le_1 |].
  split; [apply imageScale_width, Hiw' |].
  split; [apply imageScale_height, Hih' |].
  intros k' H1 Hw Hh. unfold imageScale.
  apply Q.min_glb; [apply Q.min_glb |].
  - apply Qle_shift_div_l; [exact Hiw' |]. lra.
  - apply Qle_shift_div_l; [exact Hih' |]. lra.
  - exact H1.
Qed.

(** ** The text layout *)

Lemma floor_ge (n : Z) (x : Q) : inject_Z n <= x -> (n <= Math_floor x)%Z.
Proof.
  intros H. unfold Math_floor. rewrite <- (Qfloor_Z n).
  apply Qfloor_resp_le, H.
Qed.

Lemma layout_width_bounds (cw : Q) :
  97 <= cw ->
  let room := Math_floor (cw - inject_Z (padX cw * 2)) in
  (1 <= room)%Z /\
  inject_Z (padX cw) + inject_Z room <= cw - inject_Z (padX cw).
Proof.
  intros Hcw room. subst room.
  pose proof (Qfloor_le (cw - inject_Z (padX cw * 2))) as Hfl.
  rewrite inject_Z_mult in *. change (inject_Z 2) with 2 in *.
  split.
  - apply floor_ge. change (inject_Z 1) with 1.
    unfold padX.
    destruct (Z.max_spec 48 (Math_floor (cw * 0.08))) as [[_ ->] | [_ ->]].
    + pose proof (Qfloor_le (cw * 0.08)) as Hp. unfold Math_floor. lra.
    + change (inject_Z 48) with 48. lra.
  - unfold Math_floor. lra.
Qed.

(** X10.  On a canvas at least 97 visible units wide the text layout
    keeps both labels inside the viewport with the same padding on both
    sides: the padding is at least 48, the title is between 1 and 980
    units wide, the subtitle between 1 and 900 and never wider than the
    title, and padding + width never passes the right padding line; the
    top offset is at least 72. *)
Theorem layout_fits_viewport (cw ch : Q) :
  97 <= cw ->
  (48 <= padX cw)%Z /\ (72 <= topY ch)%Z /\
  (1 <= subtitleWidth cw <= titleWidth cw)%Z /\
  (titleWidth cw <= 980)%Z /\ (subtitleWidth cw <= 900)%Z /\
  inject_Z (padX cw) + inject_Z (titleWidth cw) <= cw - inject_Z (padX cw) /\
  inject_Z (padX cw) + inject_Z (subtitleWidth cw)
    <= cw - inject_Z (padX cw).
Proof.
  intros Hcw.
  destruct (layout_width_bounds cw Hcw) as [Hroom Hfit]. cbv zeta in *.
  unfold titleWidth, subtitleWidth.
  set (room := Math_floor (cw - inject_Z (padX cw * 2))) in *.
  assert (Ht : inject_Z (Z.min 980 room) <= inject_Z room)
    by (rewrite <- Zle_Qle; lia).
  assert (Hs : inject_Z (Z.min 900 room) <= inject_Z room)
    by (rewrite <- Zle_Qle; lia).
  unfold padX at 1. unfold topY.
  repeat split; try lia; lra.
Qed.

Lemma laid_out_label (fonts : TextMetrics) (l t w : Q) (o : FabricObject) :
  let o' := initDimensions fonts (set_geometry l t w o) in
  obj_left o' = l /\ obj_top o' = t /\ w <= obj_width o' /\
  (obj_width o' = w \/
   obj_width o' = dynamicMinWidth fonts (obj_style o') (obj_text o')) /\
  obj_text o' = obj_text o /\ pose o' = pose (set_geometry l t w o).
Proof.
  unfold initDimensions.
  destruct o as [k l0 t0 w0 h sx sy a ox oy f txt sty sel ev]; cbn.
  destruct k; cbn; repeat split; try apply Qle_refl; try (left; reflexivity).
  - destruct (Qle_bool (dynamicMinWidth fonts sty txt) w) eqn:E;
      [apply Qle_refl |].
    destruct (Qlt_le_dec w (dynamicMinWidth fonts sty txt)) as [Hlt | Hle];
      [apply Qlt_le_weak, Hlt |].
    apply Qle_bool_iff in Hle. congruence.
  - destruct (Qle_bool (dynamicMinWidth fonts sty txt) w);
      [left | right]; reflexivity.
Qed.

(** X11.  In a live scene at least 97 visible units wide, the text
    layout puts the title at (padding, top offset) and the subtitle at
    the same left edge, 70 units lower; each label is given the layout
    width, and ends up wider only when its longest word does not fit, in
    which case it is exactly as wide as that word. *)
Theorem placeTextObjects_places_labels (fonts : TextMetrics) (s : Scene)
    (bg t st : ObjId) (cw ch : Q) :
  live s bg t st ->
  getVisibleCanvasSize (canvas s) = (cw, ch) ->
  97 <= cw -> truthy ch = true ->
  let s' := placeTextObjects fonts {| cl_title := t; cl_subtitle := st |} s in
  exists ot ost,
    heap s' !! t = Some ot /\ heap s' !! st = Some ost /\
    obj_left ot = inject_Z (padX cw) /\ obj_left ost = inject_Z (padX cw) /\
    obj_top ot = inject_Z (topY ch) /\
    obj_top ost = inject_Z (topY ch + 70) /\
    inject_Z (titleWidth cw) <= obj_width ot /\
    inject_Z (subtitleWidth cw) <= obj_width ost /\
    (obj_width ot = inject_Z (titleWidth cw) \/
     obj_width ot = dynamicMinWidth fonts (obj_style ot) (obj_text ot)) /\
    (obj_width ost = inject_Z (subtitleWidth cw) \/
     obj_width ost = dynamicMinWidth fonts (obj_style ost) (obj_text ost)).
Proof.
  intros L Hv Hcw Hh s'. subst s'.
  destruct (live_distinct _ _ _ _ L) as (_ & _ & Hts).
  destruct (live_labels _ _ _ _ L) as ([ot Hot] & [ost Host]).
  assert (Hw : truthy cw = true).
  { unfold truthy. destruct (Qeq_bool cw 0) eqn:E; [| reflexivity].
    apply Qeq_bool_eq in E. lra. }
  rewrite (placeTextObjects_heap fonts _ s cw ch Hv Hw Hh).
  cbn [cl_title cl_subtitle].
  set (G1 := set_geometry _ _ (inject_Z (titleWidth cw))).
  set (G2 := set_geometry _ _ (inject_Z (subtitleWidth cw))).
  assert (Ht : alter (initDimensions fonts) st
                 (alter (initDimensions fonts) t
                    (alter G2 st (alter G1 t (heap s)))) !! t
               = Some (initDimensions fonts (G1 ot))).
  { rewrite lookup_alter_ne by congruence. rewrite lookup_alter_eq.
    rewrite lookup_alter_ne by congruence. rewrite lookup_alter_eq, Hot.
    reflexivity. }
  assert (Hs : alter (initDimensions fonts) st
                 (alter (initDimensions fonts) t
                    (alter G2 st (alter G1 t (heap s)))) !! st
               = Some (initDimensions fonts (G2 ost))).
  { rewrite lookup_alter_eq. rewrite lookup_alter_ne by congruence.
    rewrite lookup_alter_eq. rewrite lookup_alter_ne by congruence.
    rewrite Host. reflexivity. }
  rewrite Ht, Hs. subst G1 G2.
  eexists. eexists. split; [reflexivity |]. split; [reflexivity |].
  destruct (laid_out_label fonts (inject_Z (padX cw)) (inject_Z (topY ch))
              (inject_Z (titleWidth cw)) ot) as (A1 & A2 & A3 & A4 & _).
  destruct (laid_out_label fonts (inject_Z (padX cw)) (inject_Z (topY ch + 70))
              (inject_Z (subtitleWidth cw)) ost) as (B1 & B2 & B3 & B4 & _).
  cbv zeta in *. repeat split; assumption.
Qed.

(** ** Export and unmount *)

(** X12.  [exportPNG] on a mounted canvas clears the selection and does
    not restore it: afterwards no object is active, while the size and
    zoom of the canvas, the element, the refs and the selected preset are
    as before.  The rectangle it drew under the scene has the theme's
    export colour and spans exactly the visible size (not the backing
    store), from the origin. *)
Theorem exportPNG_clears_selection (e : Env) (s : Scene) :
  canvasRef s = true ->
  let s' := exportPNG e s in
  let vs := getVisibleCanvasSize (canvas s) in
  activeObject (canvas s') = None /\
  (c_width (canvas s'), c_height (canvas s'), c_zoom (canvas s'))
    = (c_width (canvas s), c_height (canvas s), c_zoom (canvas s)) /\
  el s' = el s /\
  (bgRef s', titleRef s', subtitleRef s', layoutRef s', preset s')
    = (bgRef s, titleRef s, subtitleRef s, layoutRef s, preset s) /\
  exists exportBg,
    heap s' !! next_id s = Some exportBg /\
    obj_left exportBg = 0 /\ obj_top exportBg = 0 /\
    obj_width exportBg = fst vs /\ obj_height exportBg = snd vs /\
    obj_scaleX exportBg = 1 /\ obj_scaleY exportBg = 1 /\
    obj_fill exportBg = exportFill (isDark e).
Proof.
  intros Hc s' vs. subst s' vs. unfold exportPNG.
  destruct (canvasRef s); [| discriminate]. cbn.
  destruct (getVisibleCanvasSize (canvas s)) as [cw ch]. cbn.
  split; [| split; [| split; [| split]]].
  - rewrite Nat.eqb_refl. cbn.
    destruct (activeObject (canvas s)); reflexivity.
  - rewrite Nat.eqb_refl. reflexivity.
  - reflexivity.
  - reflexivity.
  - rewrite lookup_insert_eq. eexists. split; [reflexivity |].
    repeat split.
Qed.



(** ** The asset catalogue *)

Lemma joinSlash_cons (x : string) (l : list string) :
  l <> [] -> joinSlash (x :: l) = x +:+ String "/" (joinSlash l).
Proof. destruct l; [congruence | reflexivity]. Qed.

Lemma snoc_not_nil (dirs : list string) (f : string) : dirs ++ [f] <> [].
Proof. destruct dirs; discriminate. Qed.

Lemma split_shape (path : string) :
  exists dirs f,
    Assets.split "/" path = dirs ++ [f] /\
    joinSlash (dirs ++ [f]) = path /\
    ~ In "/"%char (chars f) /\
    Forall (fun d => ~ In "/"%char (chars d)) dirs.
Proof.
  induction path as [| c r IH].
  - exists [], ""%string. cbn. repeat split; auto.
  - destruct IH as (dirs & f & Hs & Hj & Hf & Hd). cbn [Assets.split].
    destruct (Ascii.eqb_spec c "/"%char) as [-> | Hc].
    + exists (""%string :: dirs), f. rewrite Hs.
      split; [reflexivity |]. split; [| split; [exact Hf |]].
      * change ((""%string :: dirs) ++ [f]) with (""%string :: (dirs ++ [f])).
        rewrite joinSlash_cons by apply snoc_not_nil.
        rewrite Hj. reflexivity.
      * constructor; [cbn; tauto | exact Hd].
    + rewrite Hs. destruct dirs as [| d dirs]; cbn [app] in *.
      * exists [], (String c f). cbn in *. subst r.
        repeat split; auto. intros [E | Hin]; [congruence | exact (Hf Hin)].
      * exists (String c d :: dirs), f.
        split; [reflexivity |]. split; [| split; [exact Hf |]].
        -- change ((String c d :: dirs) ++ [f])
             with (String c d :: (dirs ++ [f])).
           rewrite joinSlash_cons in * by apply snoc_not_nil.
           rewrite <- Hj. reflexivity.
        -- inversion Hd as [| ? ? Hd1 Hd2]; subst. constructor; [| exact Hd2].
           cbn. intros [E | Hin]; [congruence | exact (Hd1 Hin)].
Qed.

(** X14.  The file name of an asset is the last of the segments that
    [path.split("/")] returns: joined with "/" the segments give back
    the path, none of them contains a "/", and since [split] never returns
    an empty array the [`image-${index + 1}`] fallback is never used (the
    result does not depend on the index). *)
Theorem fileName_is_last_segment (path : string) (index : nat) :
  exists dirs,
    Assets.split "/" path = dirs ++ [Assets.fileNameOf path index] /\
    joinSlash (dirs ++ [Assets.fileNameOf path index]) = path /\
    ~ In "/"%char (chars (Assets.fileNameOf path index)) /\
    Forall (fun d => ~ In "/"%char (chars d)) dirs /\
    forall index', Assets.fileNameOf path index' = Assets.fileNameOf path index.
Proof.
  destruct (split_shape path) as (dirs & f & Hs & Hj & Hf & Hd).
  assert (E : forall i, Assets.fileNameOf path i = f).
  { intros i. unfold Assets.fileNameOf. rewrite Hs, last_snoc. reflexivity. }
  exists dirs. rewrite !E. repeat split; try assumption.
Qed.

(** ** The page: theme persistence and the wheel gesture *)

Import HomePage.

Lemma wheel_keeps_theme (deltaY : Q) (p : Page) :
  let p' := handleWheelCapture deltaY p in
  HomePage.isDark p' = HomePage.isDark p /\ dataTheme p' = dataTheme p /\
  HomePage.localStorage p' = HomePage.localStorage p.
Proof.
  cbv zeta. unfold handleWheelCapture, moveToNext, moveToPrev.
  destruct (wheelLock p); [repeat split |].
  destruct (Qlt_le_dec _ 56); [repeat split |].
  destruct (Qlt_le_dec 0 _), (Qlt_le_dec _ 0); cbn;
    repeat (destruct (showAbout _); cbn); repeat split.
Qed.

Lemma handle_theme_synced (ev : Event) (p : Page) :
  HomePage.localStorage p !! "theme"%string
    = Some (themeName (HomePage.isDark p)) ->
  dataTheme p = Some (themeName (HomePage.isDark p)) ->
  HomePage.localStorage (handle ev p) !! "theme"%string
    = Some (themeName (HomePage.isDark (handle ev p))) /\
  dataTheme (handle ev p)
    = Some (themeName (HomePage.isDark (handle ev p))) /\
  (forall k, k <> "theme"%string ->
     HomePage.localStorage (handle ev p) !! k
       = HomePage.localStorage p !! k).
Proof.
  intros H1 H2. destruct ev; cbn [handle].
  - destruct (wheel_keeps_theme deltaY p) as (E1 & E2 & E3). cbv zeta in *.
    rewrite E1, E2, E3. auto.
  - cbn. auto.
  - cbn. split; [apply lookup_insert_eq |]. split; [reflexivity |].
    intros k Hk. apply lookup_insert_ne. congruence.
  - unfold moveToPrev. destruct (showAbout p); cbn; auto.
  - unfold moveToNext. destruct (showAbout p); cbn; auto.
Qed.

Lemma session_theme_synced (events : list Event) :
  forall p : Page,
    HomePage.localStorage p !! "theme"%string
      = Some (themeName (HomePage.isDark p)) ->
    dataTheme p = Some (themeName (HomePage.isDark p)) ->
    let p' := session events p in
    HomePage.localStorage p' !! "theme"%string
      = Some (themeName (HomePage.isDark p')) /\
    dataTheme p' = Some (themeName (HomePage.isDark p')) /\
    (forall k, k <> "theme"%string ->
               HomePage.localStorage p' !! k = HomePage.localStorage p !! k).
Proof.
  induction events as [| ev events IH]; intros p H1 H2; cbn.
  - auto.
  - destruct (handle_theme_synced ev p H1 H2) as (S1 & S2 & S3).
    destruct (IH (handle ev p) S1 S2) as (I1 & I2 & I3).
    repeat split; try assumption.
    intros k Hk. rewrite I3 by exact Hk. apply S3, Hk.
Qed.

(** X15.  The theme survives a reload: whatever the user does on the page
    (wheel gestures, theme toggles, logo and scroll clicks) after it was
    opened on any storage, the stored ["theme"] and the root's
    [data-theme] name the current theme, so that [getInitialTheme] on the
    storage left behind returns the current [isDark]; every other key of
    the storage is left alone.  A page opens dark exactly when the storage
    holds ["dark"]. *)
Theorem theme_survives_reload (storage : gmap string string)
    (events : list Event) :
  let p := session events (mount storage) in
  getInitialTheme true (HomePage.localStorage p) = HomePage.isDark p /\
  HomePage.localStorage p !! "theme"%string
    = Some (themeName (HomePage.isDark p)) /\
  dataTheme p = Some (themeName (HomePage.isDark p)) /\
  (forall k, k <> "theme"%string ->
             HomePage.localStorage p !! k = storage !! k) /\
  (HomePage.isDark (mount storage) = true
   <-> storage !! "theme"%string = Some "dark"%string).
Proof.
  intros p.
  destruct (session_theme_synced events (mount storage)) as (H1 & H2 & H3).
  { cbn. apply lookup_insert_eq. }
  { reflexivity. }
  fold p in H1, H2, H3.
  split; [| split; [exact H1 | split; [exact H2 | split]]].
  - unfold getInitialTheme. cbn. rewrite H1.
    destruct (HomePage.isDark p); reflexivity.
  - intros k Hk. rewrite H3 by exact Hk. cbn.
    apply lookup_insert_ne. congruence.
  - cbn. unfold getInitialTheme. cbn.
    destruct (storage !! "theme"%string) as [saved |]; [| split; discriminate].
    destruct (String.eqb_spec saved "dark") as [-> | Hne].
    + split; reflexivity.
    + destruct (String.eqb saved "light"); split; intros H; congruence.
Qed.

Lemma handle_wheel_invariant (ev : Event) (p : Page) :
  Qabs (wheelAccum p) < 56 /\ (wheelLock p = true -> wheelAccum p = 0) ->
  Qabs (wheelAccum (handle ev p)) < 56 /\
  (wheelLock (handle ev p) = true -> wheelAccum (handle ev p) = 0).
Proof.
  intros [Ha Hl]. destruct ev; cbn [handle].
  - unfold handleWheelCapture.
    destruct (wheelLock p); [auto |].
    destruct (Qlt_le_dec (Qabs (wheelAccum p + deltaY)) 56) as [Hlt | Hge]; cbn.
    + split; [exact Hlt | discriminate].
    + split; [reflexivity | reflexivity].
  - cbn. split; [exact Ha | discriminate].
  - cbn. auto.
  - unfold moveToPrev. destruct (showAbout p); cbn; auto.
  - unfold moveToNext. destruct (showAbout p); cbn; auto.
Qed.

(** X16.  Through any sequence of page events the wheel accumulator stays
    strictly inside (-56, 56), and it is 0 for as long as the gesture
    lock is held: wheel events that arrive during the lock are not
    accumulated for later. *)
Theorem wheel_accumulator_bounded (storage : gmap string string)
    (events : list Event) :
  let p := session events (mount storage) in
  Qabs (wheelAccum p) < 56 /\ (wheelLock p = true -> wheelAccum p = 0).
Proof.
  intros p. subst p.
  assert (H0 : Qabs (wheelAccum (mount storage)) < 56 /\
               (wheelLock (mount storage) = true ->
                wheelAccum (mount storage) = 0))
    by (cbn; split; [reflexivity | discriminate]).
  revert H0. generalize (mount storage).
  induction events as [| ev events IH]; intros p0 H0; cbn.
  - exact H0.
  - apply IH, handle_wheel_invariant, H0.
Qed.

Lemma locked_ignores_wheel (burst : list Q) (q : Page) :
  wheelLock q = true -> session (map Wheel burst) q = q.
Proof.
  intros Hq. induction burst as [| d burst IH]; [reflexivity |].
  cbn [map]. unfold session. cbn [fold_left handle].
  replace (handleWheelCapture d q) with q
    by (unfold handleWheelCapture; rewrite Hq; reflexivity).
  exact IH.
Qed.

(** X17.  A wheel event on an unlocked page adds its [deltaY] to the
    accumulator.  Below the threshold of 56 nothing else changes.  Once
    the accumulated distance reaches 56 the page shows the About section
    when it is downward and the Hero section when it is upward, whichever
    section was shown; the accumulator restarts from 0 and the lock is
    taken, and every further wheel event is ignored until the 650 ms
    timer releases the lock. *)
Theorem wheel_gesture (p : Page) (deltaY : Q) (burst : list Q) :
  wheelLock p = false ->
  let accum := wheelAccum p + deltaY in
  let p' := handleWheelCapture deltaY p in
  (Qabs accum < 56 ->
   showAbout p' = showAbout p /\ wheelLock p' = false /\
   wheelAccum p' = accum) /\
  (56 <= Qabs accum ->
   (0 < accum -> showAbout p' = true) /\
   (accum < 0 -> showAbout p' = false) /\
   wheelLock p' = true /\ wheelAccum p' = 0 /\
   session (map Wheel burst) p' = p' /\
   wheelLock (wheelTimeout p') = false).
Proof.
  intros Hl accum p'. subst accum p'. unfold handleWheelCapture. rewrite Hl.
  destruct (Qlt_le_dec (Qabs (wheelAccum p + deltaY)) 56) as [Hlt | Hge].
  - split; [intros _; repeat split | intros H; lra].
  - split; [intros H; lra | intros _].
    generalize dependent (wheelAccum p + deltaY). intros a _.
    split; [| split; [| split; [reflexivity | split; [reflexivity | split]]]].
    + intros Ha. destruct (Qlt_le_dec 0 a) as [_ | Hn]; [| lra].
      destruct (Qlt_le_dec a 0) as [Hn | _]; [lra |].
      unfold moveToNext. destruct (showAbout p) eqn:E; cbn;
        [exact E | reflexivity].
    + intros Ha. destruct (Qlt_le_dec 0 a) as [Hn | _]; [lra |].
      destruct (Qlt_le_dec a 0) as [_ | Hn]; [| lra].
      unfold moveToPrev. destruct (showAbout p) eqn:E; cbn;
        [reflexivity | exact E].
    + apply locked_ignores_wheel. reflexivity.
    + reflexivity.
Qed.

(** ** A repeated resize *)

Section ResizeAgain.

Variable fonts : TextMetrics.

Lemma placeTextObjects_store (cl : LayoutClosure) (s : Scene) :
  heap (placeTextObjects fonts cl s)
  = layoutStore fonts cl (getVisibleCanvasSize (canvas s)) (heap s).
Proof.
  unfold placeTextObjects, layoutStore.
  destruct (getVisibleCanvasSize (canvas s)) as [cw ch]. cbn [fst snd].
  destruct (negb (truthy cw) || negb (truthy ch)); reflexivity.
Qed.

Lemma placeTextObjects_rest (cl : LayoutClosure) (s : Scene) :
  let s' := placeTextObjects fonts cl s in
  next_id s' = next_id s /\ canvasRef s' = canvasRef s /\
  bgRef s' = bgRef s /\ titleRef s' = titleRef s /\
  subtitleRef s' = subtitleRef s /\ layoutRef s' = layoutRef s /\
  preset s' = preset s /\ ready s' = ready s.
Proof.
  cbv zeta. unfold placeTextObjects.
  destruct (getVisibleCanvasSize (canvas s)) as [cw ch].
  destruct (negb (truthy cw) || negb (truthy ch)); repeat split.
Qed.

Lemma fitCanvasToWrap_store (e : Env) (bg : ObjId) (cl : LayoutClosure)
    (s : Scene) (r : DOMRect) :
  wrap e = Some r ->
  heap (fitCanvasToWrap fonts e bg cl s)
  = layoutStore fonts cl (fittedVisibleSize e r)
      (alter (set_box 0 0 (inject_Z (nextWidth e r))
                (inject_Z (nextHeight e r))) bg (heap s)).
Proof.
  intros Hw. unfold fitCanvasToWrap. rewrite Hw. cbv zeta.
  rewrite placeTextObjects_store. unfold fittedVisibleSize.
  generalize (nextWidth e r) (nextHeight e r). intros nw nh.
  destruct (Z.eqb (el_width (el s)) nw); cbn;
    destruct (Z.eqb (el_height (el s)) nh); reflexivity.
Qed.

Lemma fitCanvasToWrap_rest (e : Env) (bg : ObjId) (cl : LayoutClosure)
    (s : Scene) :
  let s' := fitCanvasToWrap fonts e bg cl s in
  next_id s' = next_id s /\ canvasRef s' = canvasRef s /\
  bgRef s' = bgRef s /\ titleRef s' = titleRef s /\
  subtitleRef s' = subtitleRef s /\ layoutRef s' = layoutRef s /\
  preset s' = preset s /\ ready s' = ready s.
Proof.
  cbv zeta. unfold fitCanvasToWrap.
  destruct (wrap e) as [r |]; [| repeat split]. cbv zeta.
  generalize (nextWidth e r) (nextHeight e r). intros nw nh.
  match goal with
  | |- context [placeTextObjects fonts cl ?x] =>
      destruct (placeTextObjects_rest cl x)
        as (H1 & H2 & H3 & H4 & H5 & H6 & H7 & H8)
  end.
  cbv zeta in *. rewrite H1, H2, H3, H4, H5, H6, H7, H8.
  destruct (Z.eqb (el_width (el s)) nw); cbn;
    destruct (Z.eqb (el_height (el s)) nh); repeat split.
Qed.

Lemma set_box_idem (w h : Q) (o : FabricObject) :
  set_box 0 0 w h (set_box 0 0 w h o) = set_box 0 0 w h o.
Proof. reflexivity. Qed.

Lemma layoutStore_idem (cl : LayoutClosure) (vs : Q * Q)
    (h : gmap nat FabricObject) :
  cl_title cl <> cl_subtitle cl ->
  layoutStore fonts cl vs (layoutStore fonts cl vs h) = layoutStore fonts cl vs h.
Proof.
  intros Hts. unfold layoutStore.
  destruct (negb (truthy (fst vs)) || negb (truthy (snd vs))); [reflexivity |].
  rewrite !two_key_chain by exact Hts.
  apply two_key_ext; intros o; unfold compose; apply layout_absorbs.
Qed.

Lemma layoutStore_commute (cl : LayoutClosure) (vs : Q * Q)
    (f : FabricObject -> FabricObject) (bg : ObjId)
    (h : gmap nat FabricObject) :
  bg <> cl_title cl -> bg <> cl_subtitle cl ->
  alter f bg (layoutStore fonts cl vs h) = layoutStore fonts cl vs (alter f bg h).
Proof.
  intros H1 H2. unfold layoutStore.
  destruct (negb (truthy (fst vs)) || negb (truthy (snd vs))); [reflexivity |].
  rewrite (alter_alter_ne f _ _ bg (cl_subtitle cl)) by exact H2.
  rewrite (alter_alter_ne f _ _ bg (cl_title cl)) by exact H1.
  rewrite (alter_alter_ne f _ _ bg (cl_subtitle cl)) by exact H2.
  rewrite (alter_alter_ne f _ _ bg (cl_title cl)) by exact H1.
  reflexivity.
Qed.

Lemma fitCanvasToWrap_ratio (e : Env) (bg : ObjId) (cl : LayoutClosure)
    (s : Scene) :
  fabric_devicePixelRatio (fitCanvasToWrap fonts e bg cl s)
  = fabric_devicePixelRatio s.
Proof.
  unfold fitCanvasToWrap.
  destruct (wrap e) as [r |]; [| reflexivity]. cbv zeta.
  generalize (nextWidth e r) (nextHeight e r). intros nw nh.
  unfold placeTextObjects.
  destruct (getVisibleCanvasSize _) as [cw ch].
  destruct (negb (truthy cw) || negb (truthy ch));
    destruct (Z.eqb (el_width (el s)) nw); cbn;
    destruct (Z.eqb (el_height (el s)) nh); reflexivity.
Qed.

(** X18.  A resize event that finds the container and the device pixel
    ratio unchanged leaves the scene as it was: in a live scene a second
    fit pass under the same environment leaves the element, the canvas,
    the store, the refs and the preset as the first pass left them.
    Whether it assigns the element's [width] and [height] again depends
    on the ratio fabric was loaded at: at a ratio of at most 1 the second
    pass assigns nothing on the element; at a ratio of at least 321/320
    (retina scaling, with a device pixel ratio that is missing, zero or
    at least 1) fabric has left the element at a multiple of the computed
    size, and the second pass assigns both attributes again. *)
Theorem onResize_idempotent (e : Env) (s : Scene) (bg t st : ObjId) :
  live s bg t st ->
  let once := onResize fonts e s in
  let twice := onResize fonts e once in
  observable twice = observable once /\
  (fabric_devicePixelRatio s <= 1 ->
   Forall (fun c => isElementAssignment c = false) (newCalls once twice)) /\
  (forall r, wrap e = Some r ->
     321 # 320 <= fabric_devicePixelRatio s ->
     1 <= or_default (devicePixelRatio e) 1 ->
     filter isElementAssignment (newCalls once twice)
     = [ElSetWidth (nextWidth e r); ElSetHeight (nextHeight e r)]).
Proof.
  intros L once twice.
  assert (Hon : forall x, live x bg t st ->
            onResize fonts e x
            = fitCanvasToWrap fonts e bg {| cl_title := t; cl_subtitle := st |} x).
  { intros x Lx. unfold onResize.
    rewrite (live_bgRef _ _ _ _ Lx), (live_layoutRef _ _ _ _ Lx). reflexivity. }
  assert (L1 : live once bg t st) by apply onResize_live, L.
  subst twice. rewrite (Hon once L1).
  assert (Eonce : once = fitCanvasToWrap fonts e bg
                           {| cl_title := t; cl_subtitle := st |} s)
    by apply (Hon s L).
  set (cl := {| cl_title := t; cl_subtitle := st |}) in *.
  assert (Hratio : fabric_devicePixelRatio once = fabric_devicePixelRatio s)
    by (rewrite Eonce; apply fitCanvasToWrap_ratio).
  destruct (wrap e) as [r |] eqn:Hw.
  - destruct (fitCanvasToWrap_fields fonts e bg cl once r Hw)
      as (Hel2 & Hc2 & Hcalls2).
    destruct (fitCanvasToWrap_fields fonts e bg cl s r Hw) as (Hel1 & Hc1 & _).
    cbv zeta in *. rewrite <- Eonce in Hel1, Hc1. rewrite Hratio in Hel2.
    destruct (fitCanvasToWrap_rest e bg cl once)
      as (H1 & H2 & H3 & H4 & H5 & H6 & H7 & H8).
    cbv zeta in *.
    destruct (live_distinct _ _ _ _ L) as (Hbt & Hbs & Hts).
    assert (Hheap : heap (fitCanvasToWrap fonts e bg cl once) = heap once).
    { rewrite (fitCanvasToWrap_store e bg cl once r Hw).
      rewrite Eonce at 1 2.
      rewrite (fitCanvasToWrap_store e bg cl s r Hw).
      rewrite (layoutStore_commute cl) by (subst cl; cbn; congruence).
      rewrite alter_alter_eq.
      rewrite layoutStore_idem by (subst cl; cbn; congruence).
      f_equal; try (apply alter_ext; intros o _; apply set_box_idem). }
    split; [| split].
    + assert (Hel : el (fitCanvasToWrap fonts e bg cl once) = el once)
        by congruence.
      assert (Hc : canvas (fitCanvasToWrap fonts e bg cl once) = canvas once)
        by (rewrite Hc2, Hc1; reflexivity).
      unfold observable. congruence.
    + intros Hplain. apply Qle_bool_iff in Hplain.
      unfold newCalls. rewrite Hcalls2, drop_app_length.
      unfold elAssignments. rewrite Hel1. unfold fittedElement.
      rewrite Hplain. cbn [negb el_width el_height].
      rewrite !Z.eqb_refl. cbn [app].
      repeat constructor.
      unfold layoutCalls.
      destruct (getVisibleCanvasSize _) as [cw ch].
      destruct (negb (truthy cw) || negb (truthy ch)); repeat constructor.
    + intros r' Hr' Hretina Hd. injection Hr' as <-.
      rewrite (fitCanvasToWrap_assignments fonts e bg cl once r Hw).
      unfold elAssignments. rewrite Hel1. unfold fittedElement.
      assert (Hnot : Qle_bool (fabric_devicePixelRatio s) 1 = false).
      { destruct (Qle_bool (fabric_devicePixelRatio s) 1) eqn:E;
          [| reflexivity].
        apply Qle_bool_iff in E. lra. }
      rewrite Hnot. cbn [negb el_width el_height].
      pose proof (cssWidth_min r) as Hcw. pose proof (cssHeight_min r) as Hch.
      assert (Hnw : (320 <= nextWidth e r)%Z)
        by (apply floor_scaled_ge; [lia | apply effectiveDpr_ge_1, Hd]).
      assert (Hnh : (320 <= nextHeight e r)%Z)
        by (apply floor_scaled_ge; [lia | apply effectiveDpr_ge_1, Hd]).
      pose proof (reflectedSize_scaled_gt (nextWidth e r)
                    (fabric_devicePixelRatio s) 300 Hnw Hretina) as Gw.
      pose proof (reflectedSize_scaled_gt (nextHeight e r)
                    (fabric_devicePixelRatio s) 150 Hnh Hretina) as Gh.
      apply Z.lt_neq, not_eq_sym, Z.eqb_neq in Gw, Gh.
      rewrite Gw, Gh. reflexivity.
  - unfold fitCanvasToWrap. rewrite Hw. split; [reflexivity |].
    split; [| discriminate].
    intros _. unfold newCalls. rewrite drop_all. constructor.
Qed.

End ResizeAgain.

(** * Concrete runs of the further properties *)

(** A sample scene is live, by evaluation. *)
Ltac live_eval :=
  constructor;
  first [ vm_compute; reflexivity
        | repeat split; discriminate
        | repeat split; vm_compute; reflexivity
        | split; vm_compute; eexists; reflexivity
        | vm_compute; repeat constructor ].

(** X3 on the scene with three sprites: a fourth goes below the labels. *)
Lemma addImageToCanvas_keeps_earlier_objects_witness :
  live sceneWithSprites 0%nat 1%nat 2%nat /\
  stacked sceneWithSprites 0%nat 1%nat 2%nat [3%nat; 4%nat; 5%nat] /\
  objects (canvas (addImageToCanvas (Some photo) 0.5 0.5 sceneWithSprites))
    = [0; 3; 4; 5; 6; 1; 2]%nat.
Proof.
  assert (H1 : live sceneWithSprites 0%nat 1%nat 2%nat) by live_eval.
  assert (H2 : stacked sceneWithSprites 0%nat 1%nat 2%nat [3%nat; 4%nat; 5%nat])
    by (vm_compute; reflexivity).
  split; [exact H1 |]. split; [exact H2 |].
  exact (proj1 (addImageToCanvas_keeps_earlier_objects photo 0.5 0.5
                  sceneWithSprites 0%nat 1%nat 2%nat [3%nat; 4%nat; 5%nat]
                  H1 H2)).
Defined.

(** X4 on the mounted (dark) scene switched to the light theme. *)
Lemma applyTheme_changes_fill_only_witness :
  live mountedScene 0%nat 1%nat 2%nat /\
  obj_fill <$> heap (applyTheme zoomedOutEnv mountedScene) !! 1%nat
    = Some (titleFill false) /\
  obj_fill <$> heap (applyTheme zoomedOutEnv mountedScene) !! 2%nat
    = Some (subtitleFill false).
Proof.
  assert (H1 : live mountedScene 0%nat 1%nat 2%nat) by live_eval.
  split; [exact H1 |].
  exact (proj2 (proj2 (proj2 (applyTheme_changes_fill_only zoomedOutEnv
                                mountedScene)))
           0%nat 1%nat 2%nat H1).
Defined.

(** X5: performance, interaction, then back to performance. *)
Lemma applyPreset_round_trip_witness :
  live mountedScene 0%nat 1%nat 2%nat /\
  let s' := applyPreset sampleFonts performance
              (fold_left (fun acc q => applyPreset sampleFonts q acc)
                 [performance; interaction] mountedScene) in
  obj_text <$> heap s' !! 1%nat = Some (title (PRESETS performance)) /\
  obj_text <$> heap s' !! 2%nat = Some (subtitle (PRESETS performance)) /\
  preset s' = performance.
Proof.
  assert (H1 : live mountedScene 0%nat 1%nat 2%nat) by live_eval.
  split; [exact H1 |].
  exact (applyPreset_round_trip sampleFonts [performance; interaction]
           performance mountedScene 0%nat 1%nat 2%nat H1).
Defined.

(** X6 on the scene with three sprites. *)
Lemma reset_idempotent_witness :
  live sceneWithSprites 0%nat 1%nat 2%nat /\
  stacked sceneWithSprites 0%nat 1%nat 2%nat [3%nat; 4%nat; 5%nat] /\
  observable (reset sampleFonts desktopEnv
                (reset sampleFonts desktopEnv sceneWithSprites))
  = observable (reset sampleFonts desktopEnv sceneWithSprites) /\
  objects (canvas (reset sampleFonts desktopEnv sceneWithSprites))
  = [0; 1; 2]%nat.
Proof.
  assert (H1 : live sceneWithSprites 0%nat 1%nat 2%nat) by live_eval.
  assert (H2 : stacked sceneWithSprites 0%nat 1%nat 2%nat [3%nat; 4%nat; 5%nat])
    by (vm_compute; reflexivity).
  split; [exact H1 |]. split; [exact H2 |].
  destruct (reset_idempotent sampleFonts desktopEnv sceneWithSprites
              0%nat 1%nat 2%nat H1) as [Hi Hs].
  split; [exact Hi | exact (Hs _ H2)].
Defined.

(** X7 at a device pixel ratio of 1.33 over a 320x360 container. *)
Lemma fit_visible_size_witness :
  let r := {| rect_width := 320; rect_height := 360 |} in
  let cl := {| cl_title := 1%nat; cl_subtitle := 2%nat |} in
  wrap fractionalEnv = Some r /\
  1 <= or_default (devicePixelRatio fractionalEnv) 1 /\
  let vs := getVisibleCanvasSize
              (canvas (fitCanvasToWrap sampleFonts fractionalEnv 0%nat cl
                         mountedScene)) in
  319 < fst vs <= 320 /\ 359 < snd vs <= 360 /\ fst vs < 320.
Proof.
  intros r cl.
  assert (H1 : wrap fractionalEnv = Some r) by reflexivity.
  assert (H2 : 1 <= or_default (devicePixelRatio fractionalEnv) 1) by q_eval.
  split; [exact H1 |]. split; [exact H2 |].
  destruct (fit_visible_size sampleFonts fractionalEnv 0%nat cl mountedScene r
              H1 H2) as (Hx & Hy & _).
  split; [exact Hx |]. split; [exact Hy |]. q_eval.
Defined.

(** X8 at the same fractional ratio: the sprite still fits. *)
Lemma addImage_after_fit_within_viewport_witness :
  let r := {| rect_width := 320; rect_height := 360 |} in
  live mountedScene 0%nat 1%nat 2%nat /\
  wrap fractionalEnv = Some r /\
  1 <= or_default (devicePixelRatio fractionalEnv) 1 /\
  non_negative (img_width photo) /\ non_negative (img_height photo) /\
  0 <= 0.5 < 1 /\ 0 <= 0.25 < 1 /\
  let s1 := onResize sampleFonts fractionalEnv mountedScene in
  let vs := getVisibleCanvasSize (canvas s1) in
  let s2 := addImageToCanvas (Some photo) 0.5 0.25 s1 in
  exists sprite,
    heap s2 !! next_id s1 = Some sprite /\
    within (bounds_x sprite) margin (fst vs - margin) /\
    within (bounds_y sprite) margin (snd vs - margin).
Proof.
  intros r.
  assert (H1 : live mountedScene 0%nat 1%nat 2%nat) by live_eval.
  assert (H2 : wrap fractionalEnv = Some r) by reflexivity.
  assert (H3 : 1 <= or_default (devicePixelRatio fractionalEnv) 1) by q_eval.
  assert (H4 : non_negative (img_width photo)) by q_eval.
  assert (H5 : non_negative (img_height photo)) by q_eval.
  assert (H6 : 0 <= 0.5 < 1) by (split; q_eval).
  assert (H7 : 0 <= 0.25 < 1) by (split; q_eval).
  repeat (split; [assumption |]).
  exact (addImage_after_fit_within_viewport sampleFonts fractionalEnv r
           mountedScene 0%nat 1%nat 2%nat photo 0.5 0.25
           H1 H2 H3 H4 H5 H6 H7).
Defined.

(** X9 for the 4000x3000 photo on an 800x600 canvas: the scale 0.064
    dominates the smaller factor 0.05. *)
Lemma scale_is_largest_fit_witness :
  non_negative (img_width photo) /\ non_negative (img_height photo) /\
  scale 800 600 photo == 0.064 /\ 0.05 <= scale 800 600 photo.
Proof.
  assert (H1 : non_negative (img_width photo)) by q_eval.
  assert (H2 : non_negative (img_height photo)) by q_eval.
  split; [exact H1 |]. split; [exact H2 |]. split; [q_eval |].
  destruct (scale_is_largest_fit 800 600 photo H1 H2) as (_ & _ & _ & Hmax).
  apply Hmax; q_eval.
Defined.

(** X10 at the smallest supported width. *)
Lemma layout_fits_viewport_witness :
  97 <= 320 /\
  (48 <= padX 320)%Z /\ (72 <= topY 360)%Z /\
  (1 <= subtitleWidth 320 <= titleWidth 320)%Z /\
  (titleWidth 320 <= 980)%Z /\ (subtitleWidth 320 <= 900)%Z /\
  inject_Z (padX 320) + inject_Z (titleWidth 320) <= 320 - inject_Z (padX 320) /\
  inject_Z (padX 320) + inject_Z (subtitleWidth 320)
    <= 320 - inject_Z (padX 320).
Proof.
  assert (H : 97 <= 320) by q_eval.
  split; [exact H |]. exact (layout_fits_viewport 320 360 H).
Defined.

(** X11 on the mounted scene. *)
Lemma placeTextObjects_places_labels_witness :
  live mountedScene 0%nat 1%nat 2%nat /\
  getVisibleCanvasSize (canvas mountedScene) = (1600 # 2, 1200 # 2) /\
  97 <= 1600 # 2 /\ truthy (1200 # 2) = true /\
  exists ot ost,
    heap (placeTextObjects sampleFonts
            {| cl_title := 1%nat; cl_subtitle := 2%nat |} mountedScene)
      !! 1%nat = Some ot /\
    heap (placeTextObjects sampleFonts
            {| cl_title := 1%nat; cl_subtitle := 2%nat |} mountedScene)
      !! 2%nat = Some ost /\
    obj_left ot = 64 /\ obj_left ost = 64 /\
    obj_top ot = 108 /\ obj_top ost = 178.
Proof.
  assert (H1 : live mountedScene 0%nat 1%nat 2%nat) by live_eval.
  assert (H2 : getVisibleCanvasSize (canvas mountedScene)
               = (1600 # 2, 1200 # 2)) by (vm_compute; reflexivity).
  assert (H3 : 97 <= 1600 # 2) by q_eval.
  assert (H4 : truthy (1200 # 2) = true) by reflexivity.
  repeat (split; [assumption |]).
  destruct (placeTextObjects_places_labels sampleFonts mountedScene
              0%nat 1%nat 2%nat (1600 # 2) (1200 # 2) H1 H2 H3 H4)
    as (ot & ost & A1 & A2 & A3 & A4 & A5 & A6 & _).
  exists ot, ost. repeat split; assumption.
Defined.

(** X12 on the scene with three sprites, the last of which is selected. *)
Lemma exportPNG_clears_selection_witness :
  canvasRef sceneWithSprites = true /\
  activeObject (canvas sceneWithSprites) = Some 5%nat /\
  activeObject (canvas (exportPNG desktopEnv sceneWithSprites)) = None.
Proof.
  split; [reflexivity |]. split; [vm_compute; reflexivity |].
  exact (proj1 (exportPNG_clears_selection desktopEnv sceneWithSprites
                  eq_refl)).
Defined.


(** X17: a downward gesture of 60 on a first visit shows About. *)
Lemma wheel_gesture_witness :
  HomePage.wheelLock firstVisit = false /\
  56 <= Qabs (HomePage.wheelAccum firstVisit + 60) /\
  HomePage.showAbout (HomePage.handleWheelCapture 60 firstVisit) = true /\
  HomePage.session [HomePage.Wheel 60; HomePage.Wheel (-200)]
    (HomePage.handleWheelCapture 60 firstVisit)
  = HomePage.handleWheelCapture 60 firstVisit.
Proof.
  assert (H1 : HomePage.wheelLock firstVisit = false) by reflexivity.
  assert (H2 : 56 <= Qabs (HomePage.wheelAccum firstVisit + 60)) by q_eval.
  assert (H3 : 0 < HomePage.wheelAccum firstVisit + 60) by q_eval.
  split; [exact H1 |]. split; [exact H2 |].
  destruct (wheel_gesture firstVisit 60 [60; -200] H1) as [_ Hg].
  destruct (Hg H2) as (Hdown & _ & _ & _ & Hburst & _).
  split; [exact (Hdown H3) | exact Hburst].
Defined.

(** X18 on the mounted scene: the same resize event twice. *)
Lemma onResize_idempotent_witness :
  live mountedScene 0%nat 1%nat 2%nat /\
  let once := onResize sampleFonts hiDpiEnv mountedScene in
  let twice := onResize sampleFonts hiDpiEnv once in
  observable twice = observable once /\
  filter isElementAssignment (newCalls once twice)
  = [ElSetWidth 640; ElSetHeight 720].
Proof.
  assert (H1 : live mountedScene 0%nat 1%nat 2%nat) by live_eval.
  assert (H2 : 321 # 320 <= fabric_devicePixelRatio mountedScene) by q_eval.
  assert (H3 : 1 <= or_default (devicePixelRatio hiDpiEnv) 1) by q_eval.
  split; [exact H1 |].
  destruct (onResize_idempotent sampleFonts hiDpiEnv mountedScene
              0%nat 1%nat 2%nat H1) as (Hobs & _ & Hset).
  split; [exact Hobs |].
  exact (Hset {| rect_width := 320; rect_height := 360 |} eq_refl H2 H3).
Defined.
